(** * Member search-index synchronisation: a shallow embedding of
      [MemberSyncService] and the properties of its three drivers.

    The service flattens the segment snapshots of a member into one
    type-prefixed document ([prefixData]), writes documents to the members
    index ([syncTenantMembers], [syncMember]) and removes orphan documents
    from it ([cleanupMemberIndex]).

    JavaScript values are modelled as the runtime has them: untyped JSON
    values for the attribute bag, IEEE-754 doubles for numbers, finite maps
    for objects.  Calls to the repository and to the index client are steps
    of a state-and-exception monad over an explicit [World], which records
    every call in a trace.  The logging calls of the methods, and the
    timing wrapper [logExecutionTime] around the body of
    [syncTenantMembers], act neither on the store nor on the index and are
    left out; the counters they print are returned instead. *)

From Stdlib Require Import ZArith QArith Floats.SpecFloat.
From stdpp Require Import gmap strings list fin_maps sorting pretty.

Set Warnings "-register-all".
Set Default Proof Using "Type".

Open Scope string_scope.
Open Scope list_scope.
Open Scope nat_scope.

(** ** JavaScript values *)

(** A JS [number] is a binary64 float. *)
Abbreviation number := spec_float.

(** Dates: the store and the index exchange ISO-8601 texts; a date is
    modelled by the instant it denotes, in epoch milliseconds, which is
    what the index sorts on. *)
Abbreviation timestamp := Z.

(** The values an attribute bag can hold.  [JObj] carries the own
    enumerable properties; [JFun] is a function object, which an object
    only holds through its prototype. *)
Inductive jsval :=
| JUndefined
| JNull
| JBool (b : bool)
| JNum (x : number)
| JStr (s : string)
| JArr (items : list jsval)
| JObj (props : gmap string jsval)
| JFun.

(** The parts of the language runtime that the source relies on without
    spelling them out, and that the model leaves open: the reading of a
    text as a number, the text of a number, the text of a function, and
    the UTF-16 code units of a text, each as a text of one unit (a text is
    held here as a sequence of bytes, which is not what the language
    indexes). *)
Class JSRuntime := {
  StringToNumber : string → number;
  NumberToString : number → string;
  FunctionToString : string;
  CodeUnits : string → list string
}.

(** Modelled from the spec: the enumeration [MemberAttributeType] is
    declared in the types library, which is not among the sources; its
    members are "BOOLEAN, NUMBER, EMAIL, STRING, URL, DATE, MULTI_SELECT,
    SPECIAL", the cases of the [switch] in [attributeTypeToOpenSearchPrefix].
    At run time [attribute.type] is a text read from the store: [OTHER raw]
    is a value that is none of the eight members. *)
Inductive MemberAttributeType :=
| BOOLEAN | NUMBER | EMAIL | STRING | URL | DATE | MULTI_SELECT | SPECIAL
| OTHER (raw : string).

#[global] Instance MemberAttributeType_eq_dec : EqDecision MemberAttributeType.
Proof. solve_decision. Defined.

(** Modelled from the spec: the interface [IMemberAttribute] is declared
    in the types library; "AttributeDefinition: {name, type}". *)
Record IMemberAttribute := {
  attr_name : string;
  attr_type : MemberAttributeType
}.

(** What a method can throw: a type error of the language, the error of
    the [default] case of [attributeTypeToOpenSearchPrefix], or the error
    of a collaborator. *)
Inductive exn :=
| TypeError (msg : string)
| MappingError (type : MemberAttributeType)
| CollaboratorError (call : string).

Inductive Result (A : Type) :=
| Ok (a : A)
| Err (e : exn).
Arguments Ok {A} a.
Arguments Err {A} e.

#[global] Instance Result_ret : MRet Result := λ A a, Ok a.
#[global] Instance Result_bind : MBind Result := λ A B f r,
  match r with Ok a => f a | Err e => Err e end.

(** ** Numbers: [x % 1 === 0] *)

(** [x % 1]: the remainder of a finite [m * 2^e] keeps the sign of the
    dividend and is exact; it is [NaN] for an infinite or [NaN] dividend. *)
Definition js_rem_1 (x : number) : number :=
  match x with
  | S754_zero s => S754_zero s
  | S754_infinity _ | S754_nan => S754_nan
  | S754_finite s m e =>
      if (0 <=? e)%Z then S754_zero s
      else match (Z.pos m mod 2 ^ (- e))%Z with
           | Z.pos r => S754_finite s r e
           | _ => S754_zero s
           end
  end.

(** [y === 0]: both zeros are equal to [0]. *)
Definition js_strict_eq_0 (y : number) : bool :=
  match y with
  | S754_zero _ => true
  | _ => false
  end.

(** The rational a number denotes, when it denotes one. *)
Definition number_value (x : number) : option Q :=
  match x with
  | S754_zero _ => Some (inject_Z 0)
  | S754_infinity _ | S754_nan => None
  | S754_finite s m e =>
      let sm := if s then Z.neg m else Z.pos m in
      Some (if (0 <=? e)%Z then inject_Z (sm * 2 ^ e)
            else Qmake sm (Z.to_pos (2 ^ (- e))))
  end.

(** A number with an integer value, as the interface table of the
    specification puts it ("integer-valued number"). *)
Definition integer_valued (x : number) : Prop :=
  ∃ (q : Q) (n : Z), number_value x = Some q ∧ Qeq q (inject_Z n).

(** ** Objects and property access *)

(** The function-valued properties every plain object inherits from
    [Object.prototype]. *)
Definition Object_prototype_functions : list string :=
  ["constructor"; "__defineGetter__"; "__defineSetter__"; "hasOwnProperty";
   "__lookupGetter__"; "__lookupSetter__"; "isPrototypeOf";
   "propertyIsEnumerable"; "toString"; "valueOf"; "toLocaleString"].

(** [key in obj], for a plain object: own properties first, then the
    prototype. *)
Definition js_in (key : string) (obj : gmap string jsval) : bool :=
  match obj !! key with
  | Some _ => true
  | None => bool_decide (key = "__proto__")
            || bool_decide (key ∈ Object_prototype_functions)
  end.

(** [obj[key]], for a plain object. *)
Definition js_get (obj : gmap string jsval) (key : string) : jsval :=
  match obj !! key with
  | Some v => v
  | None =>
      if bool_decide (key = "__proto__") then JObj ∅
      else if bool_decide (key ∈ Object_prototype_functions) then JFun
      else JUndefined
  end.

(** [v.default] on any value: reading a property of [null] or [undefined]
    throws; no prototype has a property of that name. *)
Definition get_default (v : jsval) : Result jsval :=
  match v with
  | JUndefined | JNull =>
      Err (TypeError "Cannot read properties of null or undefined")
  | JObj props => Ok (js_get props "default")
  | _ => Ok JUndefined
  end.

(** [Object.keys(v)] paired with [v[key]]: the own enumerable properties.
    An array enumerates its indices, a text the indices of its code
    units. *)
Definition Object_entries `{JSRuntime} (v : jsval) : list (string * jsval) :=
  match v with
  | JObj props => map_to_list props
  | JArr items => imap (λ i x, (pretty i, x)) items
  | JStr s => imap (λ i u, (pretty i, JStr u)) (CodeUnits s)
  | _ => []
  end.

(** [texts.join(",")] *)
Definition join_texts (texts : list string) : string :=
  match texts with
  | [] => ""
  | t :: texts' => foldl (λ acc t', acc +:+ "," +:+ t') t texts'
  end.

(** The texts of the elements of an array as [Array.prototype.join] takes
    them, in order: a null or undefined element counts as the empty text,
    any other element is converted. *)
Definition element_texts (text : jsval → Result string)
  : list jsval → Result (list string) :=
  fix elements (items : list jsval) : Result (list string) :=
    match items with
    | [] => Ok []
    | x :: items' =>
        t ← match x with
            | JUndefined | JNull => Ok ""
            | _ => text x
            end;
        ts ← elements items';
        Ok (t :: ts)
    end.

(** The conversion of a value to a text.  An object is first converted to
    a primitive by its [toString]: an own [toString] property holds JSON
    data and is not callable, [valueOf] then yields the object itself and
    the conversion throws; without one, the inherited method answers.  An
    array joins the texts of its elements. *)
Fixpoint ToString `{JSRuntime} (v : jsval) : Result string :=
  match v with
  | JUndefined => Ok "undefined"
  | JNull => Ok "null"
  | JBool true => Ok "true"
  | JBool false => Ok "false"
  | JNum x => Ok (NumberToString x)
  | JStr s => Ok s
  | JArr items =>
      texts ← element_texts ToString items;
      Ok (join_texts texts)
  | JObj props =>
      match props !! "toString" with
      | Some _ => Err (TypeError "Cannot convert object to primitive value")
      | None => Ok "[object Object]"
      end
  | JFun => Ok FunctionToString
  end.

(** The operand conversion of [%].  An object is first converted to a
    primitive: [valueOf] yields the object itself, [toString] is tried
    next.  For a plain object an own [toString] property leaves nothing to
    call, and the text of the inherited method is no number; an array is
    read through its text, whose conversion may throw. *)
Definition ToNumber `{JSRuntime} (v : jsval) : Result number :=
  match v with
  | JUndefined => Ok S754_nan
  | JNull => Ok (S754_zero false)
  | JBool true => Ok (S754_finite false 1 0)
  | JBool false => Ok (S754_zero false)
  | JNum x => Ok x
  | JStr s => Ok (StringToNumber s)
  | JArr items => text ← ToString (JArr items); Ok (StringToNumber text)
  | JObj props =>
      match props !! "toString" with
      | Some _ => Err (TypeError "Cannot convert object to primitive value")
      | None => Ok S754_nan
      end
  | JFun => Ok S754_nan
  end.

(** ** Store rows and index documents *)

Record IMemberIdentity := {
  platform : string;
  username : string
}.

Record IMemberOrganization := {
  org_id : string;
  org_logo : option string;
  org_displayName : string
}.

Record IMemberTag := {
  tag_id : string;
  tag_name : string
}.

(** Modelled from the spec: the row type [IDbMemberSyncData] is declared in
    the repository module [member.data], which is not among the sources.
    One row per (member, segment) pair, with "identity fields (id, tenantId,
    displayName, emails, score, timestamps, reach counters), a free-form
    attribute bag keyed by attribute name, identity list, merge-relation id
    lists, and segment-scoped aggregates"; the fields are the ones
    [prefixData] reads.  [emails] may be null ([data.emails || []]). *)
Record IDbMemberSyncData := {
  m_id : string;
  m_tenantId : string;
  m_segmentId : string;
  m_displayName : string;
  m_attributes : gmap string jsval;
  m_emails : option (list string);
  m_score : number;
  m_lastEnriched : option timestamp;
  m_joinedAt : timestamp;
  m_totalReach : number;
  m_numberOfOpenSourceContributions : number;
  m_identities : list IMemberIdentity;
  m_toMergeIds : list string;
  m_noMergeIds : list string;
  m_organizations : list IMemberOrganization;
  m_tags : list IMemberTag;
  m_activeOn : list string;
  m_activityCount : number;
  m_activityTypes : list string;
  m_activeDaysCount : number;
  m_lastActive : option timestamp;
  m_averageSentiment : number
}.

Module Identity.
Record doc := {
  string_platform : string;
  string_username : string
}.
End Identity.

Module Organization.
Record doc := {
  uuid_id : string;
  string_logo : option string;
  string_displayName : string
}.
End Organization.

Module Tag.
Record doc := {
  uuid_id : string;
  string_name : string
}.
End Tag.

Module Segment.
Record doc := {
  uuid_segmentId : string;
  obj_arr_organizations : list Organization.doc;
  obj_arr_tags : list Tag.doc;
  string_arr_activeOn : list string;
  int_activityCount : number;
  string_arr_activityTypes : list string;
  int_activeDaysCount : number;
  date_lastActive : option timestamp;
  float_averageSentiment : number
}.
End Segment.

(** A field of [obj_attributes]: the text [JSON.stringify(v)] of a SPECIAL
    attribute, kept as the value it serialises, or the nested object of a
    typed attribute. *)
Inductive attr_field :=
| Serialized (v : jsval)
| Nested (p_data : gmap string jsval).

(** The object [p] that [prefixData] returns. *)
Record Document := {
  uuid_memberId : string;
  uuid_tenantId : string;
  string_displayName : string;
  obj_attributes : gmap string attr_field;
  string_arr_emails : list string;
  int_score : number;
  date_lastEnriched : option timestamp;
  date_joinedAt : timestamp;
  int_totalReach : number;
  int_numberOfOpenSourceContributions : number;
  obj_arr_identities : list Identity.doc;
  uuid_arr_toMergeIds : list string;
  uuid_arr_noMergeIds : list string;
  obj_arr_segments : list Segment.doc
}.

(** ** The flattener *)

Definition attributeTypeToOpenSearchPrefix `{JSRuntime}
    (defValue : jsval) (type : MemberAttributeType) : Result string :=
  match type with
  | BOOLEAN => Ok "bool"
  | NUMBER =>
      n ← ToNumber defValue;
      if js_strict_eq_0 (js_rem_1 n) then Ok "int" else Ok "float"
  | EMAIL => Ok "string"
  | STRING => Ok "string"
  | URL => Ok "string"
  | DATE => Ok "date"
  | MULTI_SELECT => Ok "string_arr"
  | SPECIAL => Ok "string"
  | OTHER _ => Err (MappingError type)
  end.

(** [arr.push(x)] *)
Definition push {A} (arr : list A) (x : A) : list A := arr ++ [x].

(** A [for ... of] loop whose body may throw. *)
Fixpoint for_of {A S} (body : S → A → Result S) (s : S) (l : list A)
  : Result S :=
  match l with
  | [] => Ok s
  | x :: l' => s' ← body s x; for_of body s' l'
  end.

(** The inner loop [p_data[`${prefix}_${key}`] = attData[name][key]]. *)
Definition prefix_keys (prefix : string) (entries : list (string * jsval))
  : gmap string jsval :=
  foldl (λ p_data kv, <[prefix +:+ "_" +:+ kv.1 := kv.2]> p_data) ∅ entries.

(** The body of the loop over the attribute definitions. *)
Definition prefix_attribute `{JSRuntime} (attData : gmap string jsval)
    (p_attributes : gmap string attr_field) (attribute : IMemberAttribute)
  : Result (gmap string attr_field) :=
  let name := attr_name attribute in
  if js_in name attData then
    match attr_type attribute with
    | SPECIAL =>
        Ok (<["string_" +:+ name := Serialized (js_get attData name)]>
              p_attributes)
    | type =>
        defValue ← get_default (js_get attData name);
        prefix ← attributeTypeToOpenSearchPrefix defValue type;
        let p_data := prefix_keys prefix (Object_entries (js_get attData name)) in
        Ok (<["obj_" +:+ name := Nested p_data]> p_attributes)
    end
  else Ok p_attributes.

Definition prefix_segment (segData : IDbMemberSyncData) : Segment.doc :=
  let p_organizations :=
    foldl (λ acc organization,
             push acc {| Organization.uuid_id := org_id organization;
                         Organization.string_logo := org_logo organization;
                         Organization.string_displayName :=
                           org_displayName organization |})
          [] (m_organizations segData) in
  let p_tags :=
    foldl (λ acc tag,
             push acc {| Tag.uuid_id := tag_id tag;
                         Tag.string_name := tag_name tag |})
          [] (m_tags segData) in
  {| Segment.uuid_segmentId := m_segmentId segData;
     Segment.obj_arr_organizations := p_organizations;
     Segment.obj_arr_tags := p_tags;
     Segment.string_arr_activeOn := m_activeOn segData;
     Segment.int_activityCount := m_activityCount segData;
     Segment.string_arr_activityTypes := m_activityTypes segData;
     Segment.int_activeDaysCount := m_activeDaysCount segData;
     Segment.date_lastActive := m_lastActive segData;
     Segment.float_averageSentiment := m_averageSentiment segData |}.

Definition prefixData `{JSRuntime}
    (segmentedMembers : list IDbMemberSyncData)
    (attributes : list IMemberAttribute) : Result Document :=
  match segmentedMembers with
  | [] => Err (TypeError "Cannot read properties of undefined")
  | data :: _ =>
      p_attributes ← for_of (prefix_attribute (m_attributes data)) ∅ attributes;
      let p_identities :=
        foldl (λ acc identity,
                 push acc {| Identity.string_platform := platform identity;
                             Identity.string_username := username identity |})
              [] (m_identities data) in
      let p_segments :=
        foldl (λ acc segData, push acc (prefix_segment segData))
              [] segmentedMembers in
      Ok {| uuid_memberId := m_id data;
            uuid_tenantId := m_tenantId data;
            string_displayName := m_displayName data;
            obj_attributes := p_attributes;
            string_arr_emails := default [] (m_emails data);
            int_score := m_score data;
            date_lastEnriched := m_lastEnriched data;
            date_joinedAt := m_joinedAt data;
            int_totalReach := m_totalReach data;
            int_numberOfOpenSourceContributions :=
              m_numberOfOpenSourceContributions data;
            obj_arr_identities := p_identities;
            uuid_arr_toMergeIds := m_toMergeIds data;
            uuid_arr_noMergeIds := m_noMergeIds data;
            obj_arr_segments := p_segments |}
  end.

(** ** The world the service runs in *)

(** Modelled from the spec: [ISearchHit] and [IIndexRequest] are declared
    in the module [opensearch.data], which is not among the sources; "hits
    [{id, source}]", here with the one projected field, and "[{id, body}]". *)
Record ISearchHit := {
  _id : string;
  _source_date_joinedAt : timestamp
}.

Record IIndexRequest := {
  req_id : string;
  req_body : Document
}.

(** One entry per completed call to a collaborator, with its arguments and
    its answer; [EvFailed] for a call that threw. *)
Inductive Event :=
| EvSearch (tenantId : string) (pageSize : nat)
           (searchAfter : option timestamp) (hits : list ISearchHit)
| EvCheckMembersExists (tenantId : string) (ids dbIds : list string)
| EvRemoveFromIndex (id : string)
| EvSetTenanMembersForSync (tenantId : string)
| EvGetTenantMemberAttributes (tenantId : string)
| EvGetTenantMembersForSync (tenantId : string) (page perPage : nat)
                            (ids : list string)
| EvGetMemberData (ids : list string) (rows : list IDbMemberSyncData)
| EvBulkIndex (prepared : list IIndexRequest)
| EvIndex (id : string) (body : Document)
| EvMarkSynced (ids : list string)
| EvTimeout (ms : nat)
| EvFailed (call : string).

(** The relational store, the members index, the time, and what has
    happened so far.  [db_snapshots] gives the snapshot rows a read at a
    given time sees (replication may lag); [faults] tells, for each position
    of the trace, whether the collaborator call made there throws. *)
Record World := {
  db_members : list (string * string);
  db_snapshots : nat → list IDbMemberSyncData;
  db_attributes : string → list IMemberAttribute;
  db_pending : gmap string (list string);
  os_members : gmap string Document;
  clock : nat;
  faults : nat → bool;
  trace : list Event
}.

Definition with_pending (q : gmap string (list string)) (w : World) : World :=
  {| db_members := db_members w; db_snapshots := db_snapshots w;
     db_attributes := db_attributes w; db_pending := q;
     os_members := os_members w; clock := clock w; faults := faults w;
     trace := trace w |}.

Definition with_index (idx : gmap string Document) (w : World) : World :=
  {| db_members := db_members w; db_snapshots := db_snapshots w;
     db_attributes := db_attributes w; db_pending := db_pending w;
     os_members := idx; clock := clock w; faults := faults w;
     trace := trace w |}.

Definition with_clock (t : nat) (w : World) : World :=
  {| db_members := db_members w; db_snapshots := db_snapshots w;
     db_attributes := db_attributes w; db_pending := db_pending w;
     os_members := os_members w; clock := t; faults := faults w;
     trace := trace w |}.

Definition log (ev : Event) (w : World) : World :=
  {| db_members := db_members w; db_snapshots := db_snapshots w;
     db_attributes := db_attributes w; db_pending := db_pending w;
     os_members := os_members w; clock := clock w; faults := faults w;
     trace := trace w ++ [ev] |}.

(** ** The monad of the service methods

    An [async] method either returns, throws, or (for the embedding of a
    [while] loop) runs out of fuel. *)
Inductive Outcome (A : Type) :=
| Returned (a : A)
| Thrown (e : exn)
| OutOfFuel.
Arguments Returned {A} a.
Arguments Thrown {A} e.
Arguments OutOfFuel {A}.

Definition M (A : Type) : Type := World → Outcome A * World.

#[global] Instance M_ret : MRet M := λ A a w, (Returned a, w).
#[global] Instance M_bind : MBind M := λ A B f m w,
  match m w with
  | (Returned a, w') => f a w'
  | (Thrown e, w') => (Thrown e, w')
  | (OutOfFuel, w') => (OutOfFuel, w')
  end.

Definition out_of_fuel {A} : M A := λ w, (OutOfFuel, w).

(** A pure computation that may throw, run inside a method. *)
Definition lift {A} (r : Result A) : M A := λ w,
  match r with
  | Ok a => (Returned a, w)
  | Err e => (Thrown e, w)
  end.

(** A call to a collaborator: it throws when the world says so, and
    otherwise acts on the world; either way the trace records it. *)
Definition collaborator {A} (call : string) (op : World → A * World)
    (ev : A → Event) : M A := λ w,
  if faults w (length (trace w)) then
    (Thrown (CollaboratorError call), log (EvFailed call) w)
  else
    let '(a, w') := op w in (Returned a, log (ev a) w').

(** Modelled from the spec: [timeout] of the common library is not among
    the sources; "wait a fixed delay": time passes. *)
Definition timeout (ms : nat) : M unit := λ w,
  (Returned (), log (EvTimeout ms) (with_clock (clock w + ms) w)).

(** ** The member repository *)

(** Modelled from the spec: the class [MemberRepository] is not among the
    sources.  "[existingIds(tenantId, ids)] → subset that still exist". *)
Definition checkMembersExists (tenantId : string) (ids : list string)
  : M (list string) :=
  collaborator "checkMembersExists"
    (λ w, (filter (λ id, (tenantId, id) ∈ db_members w) ids, w))
    (EvCheckMembersExists tenantId ids).

(** Modelled from the spec: "replace the tenant's pending queue with all
    member ids for that tenant". *)
Definition setTenanMembersForSync (tenantId : string) : M unit :=
  collaborator "setTenanMembersForSync"
    (λ w, ((), with_pending
                 (<[tenantId :=
                      (filter (λ m, m.1 = tenantId) (db_members w)).*2]>
                    (db_pending w)) w))
    (λ _, EvSetTenanMembersForSync tenantId).

(** Modelled from the spec: "[fetchAttributeSchema(tenantId)] →
    AttributeDefinition[]". *)
Definition getTenantMemberAttributes (tenantId : string)
  : M (list IMemberAttribute) :=
  collaborator "getTenantMemberAttributes"
    (λ w, (db_attributes w tenantId, w))
    (λ _, EvGetTenantMemberAttributes tenantId).

(** Modelled from the spec: "[claimPending(tenantId, page, pageSize)] →
    ids", a page of the tenant's ordered pending queue; pages count
    from 1. *)
Definition getTenantMembersForSync (tenantId : string) (page perPage : nat)
  : M (list string) :=
  collaborator "getTenantMembersForSync"
    (λ w, (take perPage (drop ((page - 1) * perPage)
                               (default [] (db_pending w !! tenantId))), w))
    (EvGetTenantMembersForSync tenantId page perPage).

(** Modelled from the spec: "[fetchSnapshots(ids)] → grouped-by-id sequence
    of SegmentMemberSnapshot": the rows of the given members that the store
    shows now. *)
Definition getMemberData (ids : list string) : M (list IDbMemberSyncData) :=
  collaborator "getMemberData"
    (λ w, (filter (λ r, m_id r ∈ ids) (db_snapshots w (clock w)), w))
    (EvGetMemberData ids).

(** Modelled from the spec: "consumed ids are marked synced — an idempotent
    operation": the ids leave the pending queue. *)
Definition markSynced (ids : list string) : M unit :=
  collaborator "markSynced"
    (λ w, ((), with_pending (filter (λ id, id ∉ ids) <$> db_pending w) w))
    (λ _, EvMarkSynced ids).

(** ** The index client, on the members index *)

(** The cursor of a search: hits strictly after the given sort value. *)
Definition after (searchAfter : option timestamp) (t : timestamp) : Prop :=
  match searchAfter with
  | None => True
  | Some c => (c < t)%Z
  end.

#[global] Instance after_dec c t : Decision (after c t).
Proof. destruct c; simpl; apply _. Defined.

Definition hit_of (kv : string * Document) : ISearchHit :=
  {| _id := kv.1; _source_date_joinedAt := date_joinedAt kv.2 |}.

Definition hit_le (h1 h2 : ISearchHit) : Prop :=
  (_source_date_joinedAt h1 ≤ _source_date_joinedAt h2)%Z.

#[global] Instance hit_le_dec h1 h2 : Decision (hit_le h1 h2).
Proof. unfold hit_le; apply _. Defined.

(** Modelled from the spec: the class [OpenSearchService] is not among the
    sources.  "[search(query, pageSize, sort, cursor?, projectedFields?)] →
    hits", for the one request the service sends: "boolean filter on
    uuid_tenantId, sorted ascending by date_joinedAt, ... projecting only
    date_joinedAt"; the answer is the first [pageSize] matching documents
    after the cursor, in ascending order of the sort key. *)
Definition search_hits (idx : gmap string Document) (tenantId : string)
    (pageSize : nat) (searchAfter : option timestamp) : list ISearchHit :=
  take pageSize
    (merge_sort hit_le
       (hit_of <$>
          filter (λ kv, uuid_tenantId kv.2 = tenantId
                        ∧ after searchAfter (date_joinedAt kv.2))
                 (map_to_list idx))).

Definition search (tenantId : string) (pageSize : nat)
    (searchAfter : option timestamp) : M (list ISearchHit) :=
  collaborator "search"
    (λ w, (search_hits (os_members w) tenantId pageSize searchAfter, w))
    (EvSearch tenantId pageSize searchAfter).

(** Modelled from the spec: "[delete(id, indexName)]". *)
Definition removeFromIndex (id : string) : M unit :=
  collaborator "removeFromIndex"
    (λ w, ((), with_index (delete id (os_members w)) w))
    (λ _, EvRemoveFromIndex id).

(** Modelled from the spec: "[write(id, indexName, body)]"; "documents are
    fully replaced (not patched) on each sync". *)
Definition index (id : string) (body : Document) : M unit :=
  collaborator "index"
    (λ w, ((), with_index (<[id := body]> (os_members w)) w))
    (λ _, EvIndex id body).

(** Modelled from the spec: "[bulkWrite(indexName, [{id, body}])]". *)
Definition bulkIndex (prepared : list IIndexRequest) : M unit :=
  collaborator "bulkIndex"
    (λ w, ((), with_index
                 (foldl (λ idx r, <[req_id r := req_body r]> idx)
                        (os_members w) prepared) w))
    (λ _, EvBulkIndex prepared).

(** Modelled from the spec: [groupBy] of the common library, "an explicit
    ordered map from id to ordered sequence of snapshots": keys in the order
    of their first row, each group in row order. *)
Fixpoint group_add {A} (key : string) (x : A) (g : list (string * list A))
  : list (string * list A) :=
  match g with
  | [] => [(key, [x])]
  | (k, xs) :: g' =>
      if bool_decide (k = key) then (k, push xs x) :: g'
      else (k, xs) :: group_add key x g'
  end.

Definition groupBy {A} (l : list A) (f : A → string)
  : list (string * list A) :=
  foldl (λ g x, group_add (f x) x g) [] l.

(** [grouped.get(key)] *)
Definition Map_get {A} (g : list (string * list A)) (key : string)
  : option (list A) :=
  (λ ikv, ikv.2.2) <$> list_find (λ kv, kv.1 = key) g.

(** ** The service *)

(** A [for ... of] loop of awaited calls. *)
Fixpoint for_await {A} (body : A → M unit) (l : list A) : M unit :=
  match l with
  | [] => mret ()
  | x :: l' => body x;; for_await body l'
  end.

Section MemberSyncService.
Context `{JSRuntime}.

Definition removeMember (memberId : string) : M unit :=
  removeFromIndex memberId.

(** The [while (results.length > 0)] loop of [cleanupMemberIndex]; the
    value returned is [processed], which the method logs. *)
Fixpoint cleanup_loop (fuel : nat) (tenantId : string) (pageSize : nat)
    (results : list ISearchHit) (processed : nat) : M nat :=
  match results with
  | [] => mret processed
  | _ :: _ =>
      match fuel with
      | O => out_of_fuel
      | S fuel' =>
          let ids := _id <$> results in
          dbIds ← checkMembersExists tenantId ids;
          let toRemove := filter (λ id, id ∉ dbIds) ids in
          (if bool_decide (0 < length toRemove)
           then for_await removeMember toRemove
           else mret ());;
          let processed := processed + length results in
          match last results with
          | None => lift (Err (TypeError "Cannot read properties of undefined"))
          | Some r =>
              let lastJoinedAt := _source_date_joinedAt r in
              results ← search tenantId pageSize (Some lastJoinedAt);
              cleanup_loop fuel' tenantId pageSize results processed
          end
      end
  end.

Definition cleanupMemberIndex (fuel : nat) (tenantId : string) : M nat :=
  let pageSize := 500 in
  results ← search tenantId pageSize None;
  cleanup_loop fuel tenantId pageSize results 0.

(** The body of the loop over the grouped ids: one index request per
    member. *)
Definition prepare (grouped : list (string * list IDbMemberSyncData))
    (attributes : list IMemberAttribute)
    (prepared : list IIndexRequest) (memberId : string)
  : Result (list IIndexRequest) :=
  let members := default [] (Map_get grouped memberId) in
  body ← prefixData members attributes;
  Ok (push prepared {| req_id := memberId; req_body := body |}).

(** The [while (memberIds.length > 0)] loop of [syncTenantMembers]; the
    value returned is [count], which the method logs. *)
Fixpoint sync_loop (fuel : nat) (tenantId : string) (batchSize : nat)
    (attributes : list IMemberAttribute) (memberIds : list string)
    (count : nat) : M nat :=
  match memberIds with
  | [] => mret count
  | _ :: _ =>
      match fuel with
      | O => out_of_fuel
      | S fuel' =>
          allMembers ← getMemberData memberIds;
          let grouped := groupBy allMembers m_id in
          count ←
            (if bool_decide (0 < length grouped) then
               let ids := grouped.*1 in
               prepared ← lift (for_of (prepare grouped attributes) [] ids);
               bulkIndex prepared;;
               let count := count + length ids in
               markSynced ids;;
               mret count
             else mret count);
          memberIds ← getTenantMembersForSync tenantId 1 batchSize;
          sync_loop fuel' tenantId batchSize attributes memberIds count
      end
  end.

Definition syncTenantMembers (fuel : nat) (tenantId : string)
    (reset : bool) (batchSize : nat) : M nat :=
  (if reset then setTenanMembersForSync tenantId else mret ());;
  attributes ← getTenantMemberAttributes tenantId;
  memberIds ← getTenantMembersForSync tenantId 1 batchSize;
  sync_loop fuel tenantId batchSize attributes memberIds 0.

(** [syncMember] calls itself with [++retries] while [retries < 5]: at
    most [5 - retries] nested calls, which is the recursion budget. *)
Fixpoint syncMember_from (budget : nat) (memberId : string) (retries : nat)
  : M unit :=
  members ← getMemberData [memberId];
  match members with
  | member0 :: _ =>
      attributes ← getTenantMemberAttributes (m_tenantId member0);
      prepared ← lift (prefixData members attributes);
      index memberId prepared;;
      markSynced [memberId]
  | [] =>
      if bool_decide (retries < 5) then
        timeout 100;;
        match budget with
        | S budget' => syncMember_from budget' memberId (S retries)
        | O => out_of_fuel
        end
      else
        removeFromIndex memberId
  end.

Definition syncMember (memberId : string) (retries : nat) : M unit :=
  syncMember_from (5 - retries) memberId retries.

End MemberSyncService.

(** ** Worlds and runtimes for the examples *)

(** A runtime for inputs that hold no text and no array where a number is
    expected, and whose attribute values are objects: the conversions are
    then never called. *)
Definition no_text_runtime : JSRuntime :=
  {| StringToNumber := λ _, S754_nan;
     NumberToString := λ _, "";
     FunctionToString := "";
     CodeUnits := λ s, (λ c, String c EmptyString)
                         <$> String.list_ascii_of_string s |}.

Definition blank_member (id tenantId segmentId : string)
    (joinedAt : timestamp) : IDbMemberSyncData :=
  {| m_id := id; m_tenantId := tenantId; m_segmentId := segmentId;
     m_displayName := id; m_attributes := ∅; m_emails := None;
     m_score := S754_zero false; m_lastEnriched := None;
     m_joinedAt := joinedAt; m_totalReach := S754_zero false;
     m_numberOfOpenSourceContributions := S754_zero false;
     m_identities := []; m_toMergeIds := []; m_noMergeIds := [];
     m_organizations := []; m_tags := []; m_activeOn := [];
     m_activityCount := S754_zero false; m_activityTypes := [];
     m_activeDaysCount := S754_zero false; m_lastActive := None;
     m_averageSentiment := S754_zero false |}.

Definition with_bag (bag : gmap string jsval) (m : IDbMemberSyncData)
  : IDbMemberSyncData :=
  {| m_id := m_id m; m_tenantId := m_tenantId m;
     m_segmentId := m_segmentId m; m_displayName := m_displayName m;
     m_attributes := bag; m_emails := m_emails m; m_score := m_score m;
     m_lastEnriched := m_lastEnriched m; m_joinedAt := m_joinedAt m;
     m_totalReach := m_totalReach m;
     m_numberOfOpenSourceContributions :=
       m_numberOfOpenSourceContributions m;
     m_identities := m_identities m; m_toMergeIds := m_toMergeIds m;
     m_noMergeIds := m_noMergeIds m; m_organizations := m_organizations m;
     m_tags := m_tags m; m_activeOn := m_activeOn m;
     m_activityCount := m_activityCount m;
     m_activityTypes := m_activityTypes m;
     m_activeDaysCount := m_activeDaysCount m;
     m_lastActive := m_lastActive m;
     m_averageSentiment := m_averageSentiment m |}.

Definition five : number := S754_finite false 5 0.
Definition five_and_a_half : number := S754_finite false 11 (-1).

(** ** Predicates of the statements *)

(** [p_data] holds every entry under its key renamed with [prefix], with
    its value unchanged, and holds nothing else. *)
Definition renamed_with (prefix : string) (entries : list (string * jsval))
    (p_data : gmap string jsval) : Prop :=
  (∀ key v, (key, v) ∈ entries → p_data !! (prefix +:+ key) = Some v)
  ∧ (∀ field v, p_data !! field = Some v →
       ∃ key, field = prefix +:+ key ∧ (key, v) ∈ entries).

(** The field-prefix convention of the interface table of the
    specification, read for a declared type and the default value of the
    attribute: "boolean ⇒ bool_, integer-valued number ⇒ int_, non-integer
    number ⇒ float_, email / plain string / URL ⇒ string_, date/time ⇒
    date_, multi-select ⇒ string_arr_". *)
Inductive table_prefix : MemberAttributeType → jsval → string → Prop :=
| table_boolean d : table_prefix BOOLEAN d "bool_"
| table_integer x : integer_valued x → table_prefix NUMBER (JNum x) "int_"
| table_float x : ¬ integer_valued x → table_prefix NUMBER (JNum x) "float_"
| table_email d : table_prefix EMAIL d "string_"
| table_string d : table_prefix STRING d "string_"
| table_url d : table_prefix URL d "string_"
| table_date d : table_prefix DATE d "date_"
| table_multi_select d : table_prefix MULTI_SELECT d "string_arr_".

(** Reading the bag for a definition does not throw: the value of the
    attribute is neither null nor undefined and, for a NUMBER, its default
    converts to a number. *)
Definition bag_readable `{JSRuntime} (attData : gmap string jsval)
    (a : IMemberAttribute) : Prop :=
  ∃ defValue, get_default (js_get attData (attr_name a)) = Ok defValue
              ∧ (attr_type a = NUMBER → ∃ n, ToNumber defValue = Ok n).

(** The body of the loop over the definitions raises no type error on
    [a]: a definition whose attribute is absent from the bag, or which is
    SPECIAL, reads nothing that can fail; for any other the bag is
    readable. *)
Definition no_type_error `{JSRuntime} (attData : gmap string jsval)
    (a : IMemberAttribute) : Prop :=
  js_in (attr_name a) attData = true →
  attr_type a ≠ SPECIAL →
  bag_readable attData a.

(** The entry of [obj_arr_segments] for one snapshot. *)
Definition segment_entry (segData : IDbMemberSyncData) : Segment.doc :=
  {| Segment.uuid_segmentId := m_segmentId segData;
     Segment.obj_arr_organizations :=
       (λ o, {| Organization.uuid_id := org_id o;
                Organization.string_logo := org_logo o;
                Organization.string_displayName := org_displayName o |})
         <$> m_organizations segData;
     Segment.obj_arr_tags :=
       (λ t, {| Tag.uuid_id := tag_id t; Tag.string_name := tag_name t |})
         <$> m_tags segData;
     Segment.string_arr_activeOn := m_activeOn segData;
     Segment.int_activityCount := m_activityCount segData;
     Segment.string_arr_activityTypes := m_activityTypes segData;
     Segment.int_activeDaysCount := m_activeDaysCount segData;
     Segment.date_lastActive := m_lastActive segData;
     Segment.float_averageSentiment := m_averageSentiment segData |}.

(** ** Sample data *)

Definition sample_bag : gmap string jsval :=
  {[ "age" := JObj {[ "default" := JNum five;
                      "github" := JNum five_and_a_half ]};
     "weight" := JObj {[ "default" := JNull; "github" := JNum five ]};
     "height" := JObj {[ "github" := JNum five ]};
     "bio" := JObj {[ "default" := JStr "x" ]} ]}.

Definition sample_schema : list IMemberAttribute :=
  [ {| attr_name := "age"; attr_type := NUMBER |};
    {| attr_name := "bio"; attr_type := SPECIAL |} ].

Definition sample_member : IDbMemberSyncData :=
  with_bag sample_bag (blank_member "A" "T" "s1" 10).

Definition sample_member_s2 : IDbMemberSyncData :=
  blank_member "A" "T" "s2" 10.

(** ** Predicates on worlds and traces *)

(** No collaborator call throws, wherever in the trace it is made. *)
Definition fault_free (w : World) : Prop := ∀ n, faults w n = false.

(** [n] fetches of a member that found nothing, each followed by the wait
    before the next attempt. *)
Fixpoint empty_attempts (memberId : string) (n : nat) : list Event :=
  match n with
  | O => []
  | S n' =>
      EvGetMemberData [memberId] [] :: EvTimeout 100
        :: empty_attempts memberId n'
  end.

(** The rows of a member that a fetch at time [t] returns. *)
Definition visible_rows (w : World) (t : nat) (memberId : string)
  : list IDbMemberSyncData :=
  filter (λ r, m_id r ∈ [memberId]) (db_snapshots w t).

(** A world with one member of tenant T, seen in two segments, pending,
    and an empty index. *)
Definition sample_world : World :=
  {| db_members := [("T", "A")];
     db_snapshots := λ _, [sample_member; sample_member_s2];
     db_attributes := λ _, sample_schema;
     db_pending := {[ "T" := ["A"] ]};
     os_members := ∅;
     clock := 0;
     faults := λ _, false;
     trace := [] |}.

(** The ids an event writes to the index, if it is a write. *)
Definition writes (ev : Event) : option (list string) :=
  match ev with
  | EvIndex id _ => Some [id]
  | EvBulkIndex prepared => Some (req_id <$> prepared)
  | _ => None
  end.

Definition is_failure (ev : option Event) : Prop :=
  ∃ call, ev = Some (EvFailed call).

(** Write-then-acknowledge, over the events of one run: a mark-synced call
    comes right after the completed index write of the same ids, and a call
    that threw is the last event of the run. *)
Definition write_then_acknowledge (evs : list Event) : Prop :=
  (∀ pre ids post, evs = pre ++ EvMarkSynced ids :: post →
     ∃ pre' write, pre = pre' ++ [write] ∧ writes write = Some ids)
  ∧ (∀ pre call post, evs = pre ++ EvFailed call :: post → post = []).

(** The same discipline, read event by event after a previous event. *)
Fixpoint ordered_after (prev : option Event) (evs : list Event) : Prop :=
  match evs with
  | [] => True
  | ev :: evs' =>
      (∀ ids, ev = EvMarkSynced ids →
         ∃ write, prev = Some write ∧ writes write = Some ids)
      ∧ ¬ is_failure prev
      ∧ ordered_after (Some ev) evs'
  end.

(** A computation whose events keep the discipline after any event that
    is not a failure, and that does not return after a failed call. *)
Definition run_ok {A} (m : M A) : Prop :=
  ∀ w, ∃ evs,
    trace (m w).2 = trace w ++ evs
    ∧ (∀ prev, ¬ is_failure prev → ordered_after prev evs)
    ∧ (∀ a, (m w).1 = Returned a → ¬ is_failure (last evs)).

Definition corrupt_schema : list IMemberAttribute :=
  [ {| attr_name := "age"; attr_type := OTHER "geo" |} ].

Definition unused_corrupt_schema : list IMemberAttribute :=
  [ {| attr_name := "location"; attr_type := OTHER "geo" |} ].

(** A schema whose first definition has a type outside the enumeration,
    followed by a definition whose attribute is null in the bag of the
    member below. *)
Definition corrupt_first_schema : list IMemberAttribute :=
  [ {| attr_name := "age"; attr_type := OTHER "geo" |};
    {| attr_name := "nickname"; attr_type := STRING |} ].

Definition null_nickname_member : IDbMemberSyncData :=
  with_bag {[ "age" := JObj {[ "default" := JNum five ]};
              "nickname" := JNull ]}
           (blank_member "A" "T" "s1" 10).

(** ** Pages *)

(** [ceil(n / b)] *)
Definition ceil_div (n b : nat) : nat := (n + b - 1) / b.

(** The batches of ids that the claims of a run returned, in order. *)
Definition claims (evs : list Event) : list (list string) :=
  omap (λ ev, match ev with
              | EvGetTenantMembersForSync _ _ _ ids => Some ids
              | _ => None
              end) evs.

(** The pending queue of a tenant. *)
Definition pending_of (w : World) (tenantId : string) : list string :=
  default [] (db_pending w !! tenantId).

(** The events a run added to the trace. *)
Definition events_since (w w' : World) : list Event :=
  drop (length (trace w)) (trace w').

(** Every id of the queue has snapshots now, and they flatten. *)
Definition flattenable `{JSRuntime} (w : World) (tenantId : string)
    (queue : list string) : Prop :=
  ∀ id, id ∈ queue →
    ∃ doc, prefixData (filter (λ r, m_id r = id) (db_snapshots w (clock w)))
             (db_attributes w tenantId) = Ok doc.

(** The queue a full resync starts from. *)
Definition initial_queue (w : World) (tenantId : string) (reset : bool)
  : list string :=
  if reset then (filter (λ m, m.1 = tenantId) (db_members w)).*2
  else pending_of w tenantId.

(** The number of claims of a run that returned a non-empty page. *)
Definition nonempty_pages (evs : list Event) : nat :=
  length (filter (λ ids, ids ≠ []) (claims evs)).

(** A computation that, when it returns, has made no claim. *)
Definition no_claims {A} (m : M A) : Prop :=
  ∀ w a w', m w = (Returned a, w') →
    ∃ evs, trace w' = trace w ++ evs ∧ claims evs = [].

(** A world with three members of tenant T, one snapshot each, nothing
    pending and an empty index. *)
Definition resync_world : World :=
  {| db_members := [("T", "A"); ("T", "B"); ("T", "C")];
     db_snapshots := λ _, [blank_member "A" "T" "s1" 10;
                           blank_member "B" "T" "s1" 20;
                           blank_member "C" "T" "s1" 30];
     db_attributes := λ _, sample_schema;
     db_pending := ∅;
     os_members := ∅;
     clock := 0;
     faults := λ _, false;
     trace := [] |}.

(** ** Cleanup *)

(** The documents a search of the tenant after a cursor matches. *)
Definition tenant_after (tenantId : string) (c : option timestamp)
    (kv : string * Document) : Prop :=
  uuid_tenantId kv.2 = tenantId ∧ after c (date_joinedAt kv.2).

#[global] Instance tenant_after_dec t c kv : Decision (tenant_after t c kv).
Proof. unfold tenant_after. apply _. Defined.

(** All the hits of the tenant after a cursor, in the order in which the
    pages of a search return them. *)
Definition hits_after (tenantId : string) (c : option timestamp)
    (idx : gmap string Document) : list ISearchHit :=
  merge_sort hit_le
    (hit_of <$> filter (tenant_after tenantId c) (map_to_list idx)).

(** An orphan: a document of the tenant whose id is no member of the
    tenant in the store. *)
Definition orphan (w : World) (tenantId : string) (kv : string * Document)
  : Prop :=
  uuid_tenantId kv.2 = tenantId ∧ (tenantId, kv.1) ∉ db_members w.

#[global] Instance orphan_dec w t kv : Decision (orphan w t kv).
Proof. unfold orphan. apply _. Defined.

(** No two documents of the tenant share a value of the sort key. *)
Definition distinct_sort_keys (tenantId : string)
    (idx : gmap string Document) : Prop :=
  NoDup ((λ kv, date_joinedAt kv.2)
           <$> filter (λ kv, uuid_tenantId kv.2 = tenantId)
                      (map_to_list idx)).

(** The same, document by document. *)
Definition sort_key_injective (tenantId : string)
    (idx : gmap string Document) : Prop :=
  ∀ i j d1 d2,
    idx !! i = Some d1 → idx !! j = Some d2 →
    uuid_tenantId d1 = tenantId → uuid_tenantId d2 = tenantId →
    date_joinedAt d1 = date_joinedAt d2 → i = j.

(** The sort keys of the documents of the tenant, in ascending order. *)
Definition sort_keys (tenantId : string) (idx : gmap string Document)
  : list timestamp :=
  merge_sort Z.le
    ((λ kv, date_joinedAt kv.2)
       <$> filter (λ kv, uuid_tenantId kv.2 = tenantId) (map_to_list idx)).

(** No two equal sort keys lie across a page boundary: in ascending order,
    the key at each position that is a multiple of the page size is later
    than the key just before it.  Keys may be equal inside a page. *)
Definition no_tie_across_pages (pageSize : nat) (keys : list timestamp)
  : Prop :=
  ∀ k t1 t2,
    0 < k →
    keys !! (k * pageSize - 1) = Some t1 →
    keys !! (k * pageSize) = Some t2 →
    (t1 < t2)%Z.

(** The ids a run removed from the index, in order. *)
Definition removed_ids (evs : list Event) : list string :=
  omap (λ ev, match ev with
              | EvRemoveFromIndex id => Some id
              | _ => None
              end) evs.

(** The events of a cleanup pass from a cursor on: a search of a page of
    500 after the cursor; if the page is empty the pass is over; otherwise
    the store is asked which of the ids of the page exist, each id absent
    from the answer is removed, one call per id, and the pass goes on from
    the sort key of the last hit of the page. *)
Inductive cleanup_pages (tenantId : string)
  : option timestamp → list Event → Prop :=
| cleanup_done c :
    cleanup_pages tenantId c [EvSearch tenantId 500 c []]
| cleanup_page c hits r dbIds evs :
    last hits = Some r →
    cleanup_pages tenantId (Some (_source_date_joinedAt r)) evs →
    cleanup_pages tenantId c
      (EvSearch tenantId 500 c hits
       :: EvCheckMembersExists tenantId (_id <$> hits) dbIds
       :: (EvRemoveFromIndex <$> filter (λ id, id ∉ dbIds) (_id <$> hits))
       ++ evs).

Definition blank_document (id tenantId : string) (joinedAt : timestamp)
  : Document :=
  {| uuid_memberId := id; uuid_tenantId := tenantId;
     string_displayName := id; obj_attributes := ∅;
     string_arr_emails := []; int_score := S754_zero false;
     date_lastEnriched := None; date_joinedAt := joinedAt;
     int_totalReach := S754_zero false;
     int_numberOfOpenSourceContributions := S754_zero false;
     obj_arr_identities := []; uuid_arr_toMergeIds := [];
     uuid_arr_noMergeIds := []; obj_arr_segments := [] |}.

(** The example of the specification: documents A, B, C, D of tenant T in
    the index, of which only A and C exist in the store. *)
Definition cleanup_world : World :=
  {| db_members := [("T", "A"); ("T", "C")];
     db_snapshots := λ _, [];
     db_attributes := λ _, [];
     db_pending := ∅;
     os_members := {[ "A" := blank_document "A" "T" 10;
                      "B" := blank_document "B" "T" 20;
                      "C" := blank_document "C" "T" 30;
                      "D" := blank_document "D" "T" 40 ]};
     clock := 0;
     faults := λ _, false;
     trace := [] |}.

(** Documents A, B and C of tenant T that joined at the same instant, of
    which only A exists in the store. *)
Definition same_instant_world : World :=
  {| db_members := [("T", "A")];
     db_snapshots := λ _, [];
     db_attributes := λ _, [];
     db_pending := ∅;
     os_members := {[ "A" := blank_document "A" "T" 0;
                      "B" := blank_document "B" "T" 0;
                      "C" := blank_document "C" "T" 0 ]};
     clock := 0;
     faults := λ _, false;
     trace := [] |}.

(** 501 documents of tenant T, none of which exists in the store; the
    documents 499 and 500 joined at the same instant. *)
Definition tie_world : World :=
  {| db_members := [];
     db_snapshots := λ _, [];
     db_attributes := λ _, [];
     db_pending := ∅;
     os_members :=
       list_to_map
         ((λ i : nat, ("m" +:+ pretty i,
                       blank_document ("m" +:+ pretty i) "T"
                         (Z.of_nat (Nat.min i 499))))
            <$> seq 0 501);
     clock := 0;
     faults := λ _, false;
     trace := [] |}.

(** ** Further predicates: the flattener *)

(** A value that the language can convert to a text: not an object with a
    [toString] entry of its own, and not an array that holds such an
    object, at any depth. *)
Fixpoint text_convertible (v : jsval) : bool :=
  match v with
  | JObj props => bool_decide (props !! "toString" = None)
  | JArr items => forallb text_convertible items
  | _ => true
  end.

(** The body of the loop over the attribute definitions does not throw on
    [attribute]: the attribute is absent from the bag, or it is SPECIAL, or
    its value is neither null nor undefined, its type is one of the
    enumeration, and, for a NUMBER, its default can be converted to a text
    (which is how [%] reads an object or an array). *)
Definition flattens (attData : gmap string jsval) (attribute : IMemberAttribute)
  : Prop :=
  js_in (attr_name attribute) attData = true →
  attr_type attribute = SPECIAL
  ∨ (js_get attData (attr_name attribute) ≠ JNull
     ∧ js_get attData (attr_name attribute) ≠ JUndefined
     ∧ (∀ raw, attr_type attribute ≠ OTHER raw)
     ∧ (attr_type attribute = NUMBER →
        ∀ props d,
          js_get attData (attr_name attribute) = JObj props →
          props !! "default" = Some d →
          text_convertible d = true)).

(** The field of the attributes object that the body of the loop writes
    for a definition whose attribute is in the bag. *)
Definition written_field (a : IMemberAttribute) : string :=
  match attr_type a with
  | SPECIAL => "string_" +:+ attr_name a
  | _ => "obj_" +:+ attr_name a
  end.

(** What a field of the attributes object can be: the field that the body
    of the loop writes for a definition of the schema whose attribute is in
    the bag. *)
Definition field_of `{JSRuntime} (attData : gmap string jsval) (a : IMemberAttribute)
    (field : string) (f : attr_field) : Prop :=
  js_in (attr_name a) attData = true
  ∧ ((attr_type a = SPECIAL
      ∧ field = "string_" +:+ attr_name a
      ∧ f = Serialized (js_get attData (attr_name a)))
     ∨ (attr_type a ≠ SPECIAL
        ∧ field = "obj_" +:+ attr_name a
        ∧ ∃ defValue prefix p_data,
            get_default (js_get attData (attr_name a)) = Ok defValue
            ∧ attributeTypeToOpenSearchPrefix defValue (attr_type a)
              = Ok prefix
            ∧ f = Nested p_data
            ∧ renamed_with (prefix +:+ "_")
                (Object_entries (js_get attData (attr_name a))) p_data)).

(** A schema that defines the attribute "age" three times: as a number,
    as a SPECIAL attribute, and as a text. *)
Definition redefining_schema : list IMemberAttribute :=
  [ {| attr_name := "age"; attr_type := NUMBER |};
    {| attr_name := "age"; attr_type := SPECIAL |};
    {| attr_name := "age"; attr_type := STRING |} ].

(** A member whose attribute "age" has for default an array that holds an
    object with a [toString] entry of its own. *)
Definition unconvertible_default_member : IDbMemberSyncData :=
  with_bag
    {[ "age" := JObj {[ "default" :=
                          JArr [JObj {[ "toString" := JNum five ]}] ]} ]}
    (blank_member "A" "T" "s1" 10).

(** A schema that defines an attribute named as a method of every object. *)
Definition inherited_name_schema : list IMemberAttribute :=
  [ {| attr_name := "toString"; attr_type := STRING |} ].

(** ** Further predicates: runs *)

(** The delays a run waited, in order. *)
Definition waits (evs : list Event) : list nat :=
  omap (λ ev, match ev with
              | EvTimeout ms => Some ms
              | _ => None
              end) evs.

(** What holds of a run of [syncMember] with [budget] retries left, from
    [w] to the outcome [o] in [w']: it has not run out of retries; the
    store is as it was; only the document and the pending mark of the member
    may have changed, and no mark if it threw; it waited [k ≤ budget] times 100 ms; it removed a
    document only after [budget + 1] fetches that found nothing; a document
    it wrote is the flattening of the rows of the member visible at the end;
    and it returned only after marking the member synced or removing it. *)
Definition member_run_facts `{JSRuntime} (memberId : string) (budget : nat)
    (w : World) (o : Outcome unit) (w' : World) : Prop :=
  o ≠ OutOfFuel
  ∧ db_snapshots w' = db_snapshots w
  ∧ db_attributes w' = db_attributes w
  ∧ (∀ id, id ≠ memberId → os_members w' !! id = os_members w !! id)
  ∧ (∀ t id, id ≠ memberId → id ∈ pending_of w' t ↔ id ∈ pending_of w t)
  ∧ (∀ e, o = Thrown e → db_pending w' = db_pending w)
  ∧ ∃ k evs,
      k ≤ budget
      ∧ trace w' = trace w ++ evs
      ∧ clock w' = clock w + 100 * k
      ∧ waits evs = replicate k 100
      ∧ (∀ rid, EvRemoveFromIndex rid ∈ evs →
           evs = empty_attempts memberId budget
                 ++ [EvGetMemberData [memberId] [];
                     EvRemoveFromIndex memberId])
      ∧ (∀ wid doc, EvIndex wid doc ∈ evs →
           wid = memberId
           ∧ ∃ member0 rest,
               visible_rows w (clock w') memberId = member0 :: rest
               ∧ prefixData (member0 :: rest)
                   (db_attributes w (m_tenantId member0)) = Ok doc)
      ∧ (o = Returned () →
           last evs = Some (EvMarkSynced [memberId])
           ∨ last evs = Some (EvRemoveFromIndex memberId)).

(** The sample world with replication lag: the rows of member A become
    visible 200 ms after the start. *)
Definition lagging_world : World :=
  {| db_members := [("T", "A")];
     db_snapshots := λ t, if t <? 200 then []
                          else [sample_member; sample_member_s2];
     db_attributes := λ _, sample_schema;
     db_pending := {[ "T" := ["A"] ]};
     os_members := ∅;
     clock := 0;
     faults := λ _, false;
     trace := [] |}.

(** ** A logic of runs *)

(** Run in a world where [P] holds, [m] ends in a world where [Q a] holds
    if it returns [a], and in a world where [E] holds if it throws or runs
    out of fuel. *)
Definition triple {A} (P : World → Prop) (m : M A)
    (Q : A → World → Prop) (E : World → Prop) : Prop :=
  ∀ w, P w → match m w with
             | (Returned a, w') => Q a w'
             | (Thrown _, w') => E w'
             | (OutOfFuel, w') => E w'
             end.

(** ** Further predicates: the full resync *)

(** [doc] is the flattening of the rows of the member [id] that the store
    of [w] shows now, against the schema of the tenant. *)
Definition current_document `{JSRuntime} (w : World) (tenantId id : string)
    (doc : Document) : Prop :=
  prefixData (filter (λ r, m_id r = id) (db_snapshots w (clock w)))
    (db_attributes w tenantId) = Ok doc.

(** The index holds the current document of the member. *)
Definition indexed_current `{JSRuntime} (w0 : World) (tenantId id : string)
    (w : World) : Prop :=
  ∃ doc, current_document w0 tenantId id doc ∧ os_members w !! id = Some doc.

(** What holds at every point of a full resync of the tenant that started
    in [w0] from the queue [queue]: time, store and the faults to come are
    as at the start;
    only ids of the queue are pending; the documents of the other ids are
    untouched; a document is what it was or the current document of its
    member; and each id of the queue is still pending or indexed with its
    current document. *)
Definition resync_state `{JSRuntime} (w0 : World) (tenantId : string)
    (queue : list string) (w : World) : Prop :=
  faults w = faults w0
  ∧ db_members w = db_members w0
  ∧ clock w = clock w0
  ∧ db_snapshots w = db_snapshots w0
  ∧ db_attributes w = db_attributes w0
  ∧ (∀ id, id ∈ pending_of w tenantId → id ∈ queue)
  ∧ (∀ id, id ∉ queue → os_members w !! id = os_members w0 !! id)
  ∧ (∀ id, os_members w !! id = os_members w0 !! id
           ∨ indexed_current w0 tenantId id w)
  ∧ (∀ id, id ∈ queue →
           id ∈ pending_of w tenantId ∨ indexed_current w0 tenantId id w).

(** A world with one member of tenant T for which the store shows no
    snapshot row. *)
Definition rowless_world : World :=
  {| db_members := [("T", "A")];
     db_snapshots := λ _, [];
     db_attributes := λ _, sample_schema;
     db_pending := ∅;
     os_members := ∅;
     clock := 0;
     faults := λ _, false;
     trace := [] |}.

(** The sample world with a schema whose definition of "age" has a type
    outside the enumeration. *)
Definition corrupt_world : World :=
  {| db_members := [("T", "A")];
     db_snapshots := λ _, [sample_member; sample_member_s2];
     db_attributes := λ _, corrupt_schema;
     db_pending := {[ "T" := ["A"] ]};
     os_members := ∅;
     clock := 0;
     faults := λ _, false;
     trace := [] |}.

(** ** Further predicates: the cleanup *)

(** What holds at every point of a cleanup pass of the tenant that started
    in [w0]: the store and the faults to come are as at the start; every id
    removed so far was the id of an orphan; the index holds no document
    that it did not hold at the start; and it still holds every document
    that is not an orphan. *)
Definition cleanup_state (w0 : World) (tenantId : string) (w : World)
  : Prop :=
  db_members w = db_members w0
  ∧ faults w = faults w0
  ∧ (∃ evs, trace w = trace w0 ++ evs
            ∧ ∀ id, id ∈ removed_ids evs →
                ∃ d, os_members w0 !! id = Some d
                     ∧ orphan w0 tenantId (id, d))
  ∧ (∀ id d, os_members w !! id = Some d → os_members w0 !! id = Some d)
  ∧ (∀ id d, os_members w0 !! id = Some d →
             ¬ orphan w0 tenantId (id, d) → os_members w !! id = Some d).

(** The searches of a run, each with the number of its hits. *)
Definition searches (evs : list Event) : list nat :=
  omap (λ ev, match ev with
              | EvSearch _ _ _ hits => Some (length hits)
              | _ => None
              end) evs.

(** The world of three members in which the sixth call of a run, the
    first call of [markSynced] of a full resync with reset, throws. *)
Definition mark_failing_world : World :=
  {| db_members := [("T", "A"); ("T", "B"); ("T", "C")];
     db_snapshots := λ _, [blank_member "A" "T" "s1" 10;
                           blank_member "B" "T" "s1" 20;
                           blank_member "C" "T" "s1" 30];
     db_attributes := λ _, sample_schema;
     db_pending := ∅;
     os_members := ∅;
     clock := 0;
     faults := λ n, n =? 5;
     trace := [] |}.

(** The ids that the calls of [markSynced] of a run were given, in order. *)
Definition marked_ids (evs : list Event) : list string :=
  concat (omap (λ ev, match ev with
                      | EvMarkSynced ids => Some ids
                      | _ => None
                      end) evs).

(** The events since [base] are [evs], of which the marks are [n] ids. *)
Definition marked_since (base : list Event) (n : nat) (w : World) : Prop :=
  ∃ evs, trace w = base ++ evs ∧ n = length (marked_ids evs).

(** * Properties of the flattener *)

(** ** Numbers *)

Lemma pow2_pos k : (0 < 2 ^ k)%Z ∨ (k < 0)%Z.
Proof. destruct (Z_lt_le_dec k 0); [right|left]; [done|]. by apply Z.pow_pos_nonneg. Qed.

(** The test of the source, [x % 1 === 0], holds exactly of the numbers
    whose value is an integer. *)
Lemma rem_1_is_zero_iff_integer (x : number) :
  js_strict_eq_0 (js_rem_1 x) = true ↔ integer_valued x.
Proof.
  unfold integer_valued. destruct x as [s|s| |s m e]; simpl.
  - split; [|done]. intros _. exists (inject_Z 0), 0%Z. split; [done|reflexivity].
  - split; [done|]. by intros (q & n & ? & _).
  - split; [done|]. by intros (q & n & ? & _).
  - destruct (Z.leb_spec 0 e) as [He|He]; simpl.
    + split; [|done]. intros _. eexists _, _. split; [done|reflexivity].
    + assert (Hp : (0 < 2 ^ (- e))%Z) by (apply Z.pow_pos_nonneg; lia).
      assert (Hd : Z.pos (Z.to_pos (2 ^ (- e))) = (2 ^ (- e))%Z)
        by (apply Z2Pos.id; lia).
      pose proof (Z.mod_pos_bound (Z.pos m) (2 ^ (- e)) Hp) as Hb.
      split.
      * intros Hz.
        assert (Hm : (Z.pos m mod 2 ^ (- e) = 0)%Z).
        { destruct (Z.pos m mod 2 ^ (- e))%Z; [done|done|lia]. }
        apply Z.mod_divide in Hm as [c Hc]; [|lia].
        exists (Qmake (if s then Z.neg m else Z.pos m) (Z.to_pos (2 ^ (- e)))),
               (if s then - c else c)%Z.
        split; [done|]. unfold Qeq. simpl. rewrite Hd.
        destruct s; lia.
      * intros (q & n & [= <-] & Hq). unfold Qeq in Hq. simpl in Hq.
        rewrite Hd in Hq.
        assert (Hm : (Z.pos m mod 2 ^ (- e) = 0)%Z).
        { apply Z.mod_divide; [lia|].
          exists (if s then - n else n)%Z. destruct s; lia. }
        by rewrite Hm.
Qed.

Example five_is_integer : js_strict_eq_0 (js_rem_1 five) = true.
Proof. reflexivity. Qed.

Example five_and_a_half_is_not :
  js_strict_eq_0 (js_rem_1 five_and_a_half) = false.
Proof. reflexivity. Qed.

(** ** Loops that push *)

Lemma foldl_push_fmap {A B} (f : A → B) (l : list A) (acc : list B) :
  foldl (λ acc x, push acc (f x)) acc l = acc ++ (f <$> l).
Proof.
  revert acc. induction l as [|x l IH]; intros acc; simpl.
  - by rewrite app_nil_r.
  - rewrite IH. unfold push. by rewrite <- app_assoc.
Qed.

Lemma for_of_app {A S} (body : S → A → Result S) s l1 l2 :
  for_of body s (l1 ++ l2) = s' ← for_of body s l1; for_of body s' l2.
Proof.
  revert s. induction l1 as [|x l1 IH]; intros s; simpl; [done|].
  destruct (body s x) as [s'|e]; simpl; [apply IH|done].
Qed.

(** ** Texts *)

Lemma obj_field_inj n1 n2 : "obj_" +:+ n1 = "obj_" +:+ n2 → n1 = n2.
Proof. cbv [String.append]. by intros [= ->]. Qed.

Lemma string_field_inj n1 n2 : "string_" +:+ n1 = "string_" +:+ n2 → n1 = n2.
Proof. cbv [String.append]. by intros [= ->]. Qed.

Lemma string_field_not_obj n1 n2 : "string_" +:+ n1 ≠ "obj_" +:+ n2.
Proof. cbv [String.append]. by intros [=]. Qed.

Lemma app_inj_l (p k1 k2 : string) : p +:+ k1 = p +:+ k2 → k1 = k2.
Proof. apply (inj (String.append p)). Qed.

Lemma append_assoc (a b c : string) : (a +:+ b) +:+ c = a +:+ b +:+ c.
Proof.
  induction a as [|x a IH]; [reflexivity|].
  change (String x ((a +:+ b) +:+ c) = String x (a +:+ b +:+ c)).
  by rewrite IH.
Qed.

(** ** The inner loop over the sub-keys of a bag *)

Lemma imap_pretty_keys_NoDup {A B} (g : A → B) (l : list A) :
  NoDup (imap (λ i x, (pretty i, g x)) l).*1.
Proof.
  rewrite fmap_imap.
  rewrite (imap_ext _ (λ i _, pretty i)); [|done].
  rewrite imap_seq_0. apply NoDup_fmap; [apply _|apply NoDup_seq].
Qed.

Lemma Object_entries_NoDup `{JSRuntime} (v : jsval) :
  NoDup (Object_entries v).*1.
Proof.
  destruct v; simpl; try apply NoDup_nil_2.
  - apply (imap_pretty_keys_NoDup JStr).
  - apply (imap_pretty_keys_NoDup id).
  - apply NoDup_fst_map_to_list.
Qed.

Lemma prefix_keys_snoc prefix entries kv :
  prefix_keys prefix (entries ++ [kv])
  = <[prefix +:+ "_" +:+ kv.1 := kv.2]> (prefix_keys prefix entries).
Proof. unfold prefix_keys. by rewrite foldl_snoc. Qed.

Lemma prefix_keys_renamed (prefix : string) (entries : list (string * jsval)) :
  NoDup entries.*1 →
  renamed_with (prefix +:+ "_") entries (prefix_keys prefix entries).
Proof.
  induction entries as [|[k x] entries IH] using rev_ind; intros Hnd.
  - split; [by intros ?? ?%elem_of_nil|]. intros field v. unfold prefix_keys. simpl. by rewrite lookup_empty.
  - rewrite fmap_app in Hnd. apply NoDup_app in Hnd as (Hnd & Hfresh & _).
    destruct (IH Hnd) as [IH1 IH2]. rewrite prefix_keys_snoc. simpl. split.
    + intros key v [Hin|[= -> ->]%list_elem_of_singleton]%elem_of_app.
      * rewrite append_assoc. rewrite lookup_insert_ne; [by rewrite <- append_assoc; apply IH1|].
        intros Heq. do 2 apply app_inj_l in Heq. subst key.
        apply (Hfresh k); [|simpl; left].
        by apply (list_elem_of_fmap_2 fst _ (k, v)).
      * by rewrite append_assoc, lookup_insert_eq.
    + intros field v. destruct (decide (prefix +:+ "_" +:+ k = field)) as [<-|Hne].
      * rewrite lookup_insert_eq. intros [= <-]. exists k.
        rewrite append_assoc. split; [done|]. apply elem_of_app. right. by left.
      * rewrite lookup_insert_ne by done. intros (key & -> & Hin)%IH2.
        exists key. split; [done|]. apply elem_of_app. by left.
Qed.

(** ** Conversions *)

(** Induction on a value through the elements of its arrays. *)
Lemma jsval_arr_ind (P : jsval → Prop) :
  (∀ items, Forall P items → P (JArr items)) →
  (∀ v, (∀ items, v ≠ JArr items) → P v) →
  ∀ v, P v.
Proof.
  intros Harr Hother. fix IH 1.
  intros [| |b|x|s|items|props|];
    try (apply Hother; intros ? [=]; fail).
  apply Harr. induction items as [|y items IHitems]; constructor.
  - apply IH.
  - exact IHitems.
Qed.

Lemma element_texts_error (text : jsval → Result string) items e :
  element_texts text items = Err e → ∃ x, x ∈ items ∧ text x = Err e.
Proof.
  induction items as [|x items IH]; [done|]. cbn [element_texts].
  destruct (match x with JUndefined | JNull => Ok "" | _ => text x end)
    as [t|e'] eqn:Hx; cbn [mbind Result_bind].
  - destruct (element_texts text items) as [ts|e'] eqn:Hl;
      cbn [mbind Result_bind]; [done|].
    intros [= ->]. destruct (IH eq_refl) as (y & Hy & He).
    exists y. split; [by right|done].
  - intros [= ->]. exists x. split; [by left|]. by destruct x.
Qed.

Lemma element_texts_ok_iff (text : jsval → Result string) items :
  (∃ ts, element_texts text items = Ok ts)
  ↔ ∀ x, x ∈ items → x ≠ JUndefined → x ≠ JNull → ∃ t, text x = Ok t.
Proof.
  induction items as [|x items IH].
  - split; [|by eexists]. intros _ x Hx. by apply elem_of_nil in Hx.
  - cbn [element_texts]. split.
    + intros [ts Hts] y Hy.
      destruct (match x with JUndefined | JNull => Ok "" | _ => text x end)
        as [t|e'] eqn:Hx; cbn [mbind Result_bind] in Hts; [|done].
      destruct (element_texts text items) as [ts'|e'] eqn:Hl;
        cbn [mbind Result_bind] in Hts; [|done].
      apply elem_of_cons in Hy as [->|Hy].
      * intros ? ?. exists t. by destruct x.
      * apply (proj1 IH); [by eexists|done].
    + intros Hall.
      assert (∃ t, match x with JUndefined | JNull => Ok "" | _ => text x end
                   = Ok t) as [t ->].
      { destruct x; try (by eexists); apply Hall; try done; by left. }
      cbn [mbind Result_bind].
      destruct (proj2 IH) as [ts ->]; [|by eexists].
      intros y Hy. apply Hall. by right.
Qed.

(** ** The loop over the attribute definitions *)

Section Flattener.
Context `{JSRuntime}.

(** Every error of a conversion is a type error. *)
Lemma ToString_error v e : ToString v = Err e → ∃ msg, e = TypeError msg.
Proof.
  revert e. induction v as [items IH|v Hv] using jsval_arr_ind; intros e.
  - cbn [ToString].
    destruct (element_texts ToString items) as [ts|e'] eqn:Hl;
      cbn [mbind Result_bind]; [done|].
    intros [= ->]. apply element_texts_error in Hl as (x & Hx & He).
    rewrite Forall_forall in IH. by apply (IH x).
  - destruct v as [| |[]| | |items|props|]; simpl; try done.
    + by destruct (Hv items).
    + destruct (props !! "toString"); [|done]. intros [= <-]. by eexists.
Qed.

Lemma ToNumber_error v e : ToNumber v = Err e → ∃ msg, e = TypeError msg.
Proof.
  destruct v as [| |[]| | |items|props|]; cbn [ToNumber]; try done.
  - destruct (ToString (JArr items)) as [s|e'] eqn:Hs;
      cbn [mbind Result_bind]; [done|].
    intros [= ->]. by apply ToString_error in Hs.
  - destruct (props !! "toString"); [|done]. intros [= <-]. by eexists.
Qed.

Lemma get_default_error v e :
  get_default v = Err e → ∃ msg, e = TypeError msg.
Proof. destruct v; simpl; try done; intros [= <-]; by eexists. Qed.

Lemma js_in_own attData name v : attData !! name = Some v → js_in name attData = true.
Proof. unfold js_in. by intros ->. Qed.

Lemma js_get_own attData name v : attData !! name = Some v → js_get attData name = v.
Proof. unfold js_get. by intros ->. Qed.

Lemma prefix_attribute_special attData pa name v :
  attData !! name = Some v →
  prefix_attribute attData pa {| attr_name := name; attr_type := SPECIAL |}
  = Ok (<["string_" +:+ name := Serialized v]> pa).
Proof.
  intros Hv. unfold prefix_attribute. simpl.
  by rewrite (js_in_own _ _ _ Hv), (js_get_own _ _ _ Hv).
Qed.

Lemma prefix_attribute_nested attData pa name type v defValue prefix :
  attData !! name = Some v →
  type ≠ SPECIAL →
  get_default v = Ok defValue →
  attributeTypeToOpenSearchPrefix defValue type = Ok prefix →
  prefix_attribute attData pa {| attr_name := name; attr_type := type |}
  = Ok (<["obj_" +:+ name := Nested (prefix_keys prefix (Object_entries v))]> pa).
Proof.
  intros Hv Hty Hd Hp. unfold prefix_attribute. cbn [attr_name attr_type].
  rewrite (js_in_own _ _ _ Hv), (js_get_own _ _ _ Hv), Hd.
  destruct type; try done; cbn [mbind Result_bind]; by rewrite Hp.
Qed.

(** What a successful step can have done to [p_attributes]. *)
Lemma prefix_attribute_inv attData pa a pa' :
  prefix_attribute attData pa a = Ok pa' →
  (js_in (attr_name a) attData = false ∧ pa' = pa)
  ∨ (attr_type a = SPECIAL
     ∧ pa' = <["string_" +:+ attr_name a :=
                 Serialized (js_get attData (attr_name a))]> pa)
  ∨ (attr_type a ≠ SPECIAL
     ∧ ∃ defValue prefix,
         get_default (js_get attData (attr_name a)) = Ok defValue
         ∧ attributeTypeToOpenSearchPrefix defValue (attr_type a) = Ok prefix
         ∧ pa' = <["obj_" +:+ attr_name a :=
                     Nested (prefix_keys prefix
                               (Object_entries (js_get attData (attr_name a))))]> pa).
Proof.
  unfold prefix_attribute.
  destruct (js_in (attr_name a) attData); [|intros [= <-]; by left].
  intros Hstep. right. revert Hstep.
  destruct (attr_type a) eqn:Hty;
    try (intros [= <-]; left; by split);
    (destruct (get_default (js_get attData (attr_name a))) as [d|e] eqn:Hd;
       cbn [mbind Result_bind]; [|done]);
    match goal with
    | |- context [attributeTypeToOpenSearchPrefix ?d ?t] =>
        destruct (attributeTypeToOpenSearchPrefix d t) as [prefix|e] eqn:Hp
    end; cbn [mbind Result_bind]; try done;
    intros [= <-]; right; (split; [done|]); by exists d, prefix.
Qed.

(** Steps for other attribute names leave the fields of [name] alone. *)
Lemma for_of_prefix_attribute_frame attData name l pa pa' :
  for_of (prefix_attribute attData) pa l = Ok pa' →
  (∀ a, a ∈ l → attr_name a ≠ name) →
  pa' !! ("obj_" +:+ name) = pa !! ("obj_" +:+ name)
  ∧ pa' !! ("string_" +:+ name) = pa !! ("string_" +:+ name).
Proof.
  revert pa. induction l as [|a l IH]; intros pa; simpl.
  - by intros [= <-] _.
  - destruct (prefix_attribute attData pa a) as [pa1|e] eqn:Hstep; [|done].
    simpl. intros Hrest Hnames.
    destruct (IH pa1 Hrest) as [-> ->].
    { intros a' Ha'. apply Hnames. by right. }
    assert (attr_name a ≠ name) as Hne by (apply Hnames; by left).
    apply prefix_attribute_inv in Hstep
      as [[_ ->]|[[_ ->]|[_ (d & prefix & _ & _ & ->)]]]; [done| |].
    + rewrite !lookup_insert_ne; [done| |].
      * intros ?%string_field_inj. done.
      * apply string_field_not_obj.
    + rewrite !lookup_insert_ne; [done| |].
      * intros Heq. symmetry in Heq. by apply string_field_not_obj in Heq.
      * intros ?%obj_field_inj. done.
Qed.

End Flattener.

(** ** The claims about the flattener *)

(** C4. For each declared attribute type, flattening an attribute of that
    type present in the bag names its sub-fields with exactly the prefix of
    the interface table: BOOLEAN gives [bool_], NUMBER with an integer
    default value [int_], NUMBER with a non-integer default value [float_],
    EMAIL, STRING and URL [string_], DATE [date_], MULTI_SELECT
    [string_arr_]; a SPECIAL attribute gives one [string_]-prefixed
    serialised field. *)
Theorem prefix_follows_interface_table `{JSRuntime}
    (attData : gmap string jsval) (pa : gmap string attr_field)
    (name : string) (v : jsval) :
  attData !! name = Some v →
  (∀ type defValue prefix,
     get_default v = Ok defValue →
     table_prefix type defValue prefix →
     ∃ p_data,
       prefix_attribute attData pa {| attr_name := name; attr_type := type |}
       = Ok (<["obj_" +:+ name := Nested p_data]> pa)
       ∧ renamed_with prefix (Object_entries v) p_data)
  ∧ prefix_attribute attData pa {| attr_name := name; attr_type := SPECIAL |}
    = Ok (<["string_" +:+ name := Serialized v]> pa).
Proof.
  intros Hv. split; [|by apply prefix_attribute_special].
  intros type defValue prefix Hd Htable.
  assert (∃ p, attributeTypeToOpenSearchPrefix defValue type = Ok p
               ∧ prefix = p +:+ "_" ∧ type ≠ SPECIAL) as (p & Hp & -> & Hty).
  { destruct Htable as [d|x Hx|x Hx|d|d|d|d|d]; simpl;
      try (eexists; split; [reflexivity|by split]).
    - apply rem_1_is_zero_iff_integer in Hx. rewrite Hx.
      eexists; split; [reflexivity|by split].
    - destruct (js_strict_eq_0 (js_rem_1 x)) eqn:Ht.
      + by apply rem_1_is_zero_iff_integer in Ht.
      + eexists; split; [reflexivity|by split]. }
  eexists. split; [by eapply prefix_attribute_nested|].
  apply prefix_keys_renamed, Object_entries_NoDup.
Qed.

Lemma prefix_follows_interface_table_witness :
  let props : gmap string jsval :=
    {[ "default" := JNum five; "github" := JNum five_and_a_half ]} in
  let attData : gmap string jsval := {[ "age" := JObj props ]} in
  attData !! "age" = Some (JObj props)
  ∧ get_default (JObj props) = Ok (JNum five)
  ∧ ∃ p_data,
      prefix_attribute (H := no_text_runtime) attData ∅
        {| attr_name := "age"; attr_type := NUMBER |}
      = Ok (<["obj_age" := Nested p_data]> ∅)
      ∧ renamed_with "int_"
          (Object_entries (H := no_text_runtime) (JObj props)) p_data.
Proof.
  intros props attData.
  split; [reflexivity|]. split; [reflexivity|].
  refine (proj1 (@prefix_follows_interface_table no_text_runtime
                   attData ∅ "age" (JObj props) _) NUMBER (JNum five) "int_" _ _).
  - reflexivity.
  - reflexivity.
  - apply table_integer, rem_1_is_zero_iff_integer. reflexivity.
Defined.

(** The fields of one attribute after the whole loop, when no other
    definition bears its name. *)
Lemma for_of_prefix_attribute_at `{JSRuntime} attData attributes pa a :
  NoDup (attr_name <$> attributes) →
  a ∈ attributes →
  for_of (prefix_attribute attData) ∅ attributes = Ok pa →
  ∃ pa0 pa1,
    pa0 !! ("obj_" +:+ attr_name a) = None
    ∧ pa0 !! ("string_" +:+ attr_name a) = None
    ∧ prefix_attribute attData pa0 a = Ok pa1
    ∧ pa !! ("obj_" +:+ attr_name a) = pa1 !! ("obj_" +:+ attr_name a)
    ∧ pa !! ("string_" +:+ attr_name a) = pa1 !! ("string_" +:+ attr_name a).
Proof.
  intros Hnd (l1 & l2 & ->)%list_elem_of_split Hfor.
  rewrite fmap_app, fmap_cons in Hnd.
  apply NoDup_app in Hnd as (_ & Hl1 & Hl2). apply NoDup_cons in Hl2 as [Hl2 _].
  rewrite for_of_app in Hfor.
  destruct (for_of (prefix_attribute attData) ∅ l1) as [pa0|e] eqn:H1; [|done].
  simpl in Hfor.
  destruct (prefix_attribute attData pa0 a) as [pa1|e] eqn:Ha; [|done].
  simpl in Hfor.
  destruct (for_of_prefix_attribute_frame _ (attr_name a) _ _ _ H1) as [E1 E2].
  { intros a' Ha' Heq. apply (Hl1 (attr_name a')).
    - by apply list_elem_of_fmap_2.
    - rewrite Heq. by left. }
  destruct (for_of_prefix_attribute_frame _ (attr_name a) _ _ _ Hfor) as [E3 E4].
  { intros a' Ha' Heq. apply Hl2. rewrite <- Heq. by apply list_elem_of_fmap_2. }
  exists pa0, pa1. rewrite E1, E2, !lookup_empty. done.
Qed.



(** C8. For a non-empty sequence of snapshots of one member, the identity
    and scalar fields of the document, its identities, its merge-id lists
    and its attributes are taken from the first snapshot only, and
    [obj_arr_segments] has exactly one entry per input snapshot, in input
    order, each with the organizations, tags, activity metrics and
    sentiment of that snapshot. *)
Theorem first_snapshot_fields_and_one_segment_each `{JSRuntime}
    (data : IDbMemberSyncData) (rest : list IDbMemberSyncData)
    (attributes : list IMemberAttribute) (p : Document) :
  prefixData (data :: rest) attributes = Ok p →
  (uuid_memberId p = m_id data
   ∧ uuid_tenantId p = m_tenantId data
   ∧ string_displayName p = m_displayName data
   ∧ string_arr_emails p = default [] (m_emails data)
   ∧ int_score p = m_score data
   ∧ date_lastEnriched p = m_lastEnriched data
   ∧ date_joinedAt p = m_joinedAt data
   ∧ int_totalReach p = m_totalReach data
   ∧ int_numberOfOpenSourceContributions p
     = m_numberOfOpenSourceContributions data
   ∧ obj_arr_identities p
     = (λ i, {| Identity.string_platform := platform i;
                Identity.string_username := username i |})
         <$> m_identities data
   ∧ uuid_arr_toMergeIds p = m_toMergeIds data
   ∧ uuid_arr_noMergeIds p = m_noMergeIds data
   ∧ for_of (prefix_attribute (m_attributes data)) ∅ attributes
     = Ok (obj_attributes p))
  ∧ length (obj_arr_segments p) = length (data :: rest)
  ∧ obj_arr_segments p = segment_entry <$> data :: rest.
Proof.
  unfold prefixData.
  destruct (for_of (prefix_attribute (m_attributes data)) ∅ attributes)
    as [pa|e]; [|done].
  cbn [mbind Result_bind]. intros [= <-]. cbn -[foldl].
  assert (Hseg : ∀ segData, prefix_segment segData = segment_entry segData).
  { intros segData. unfold prefix_segment, segment_entry.
    by rewrite !foldl_push_fmap. }
  rewrite !foldl_push_fmap. rewrite !app_nil_l.
  repeat split; try done.
  - simpl. by rewrite length_fmap.
  - simpl. rewrite Hseg. f_equal. apply list_fmap_ext. intros. apply Hseg.
Qed.

Lemma first_snapshot_fields_and_one_segment_each_witness :
  ∃ p,
    prefixData (H := no_text_runtime) [sample_member; sample_member_s2]
      sample_schema = Ok p
    ∧ uuid_memberId p = "A"
    ∧ length (obj_arr_segments p) = 2
    ∧ obj_arr_segments p = [segment_entry sample_member;
                            segment_entry sample_member_s2].
Proof.
  eexists. split; [vm_compute; reflexivity|].
  pose proof (@first_snapshot_fields_and_one_segment_each no_text_runtime
                sample_member [sample_member_s2] sample_schema _
                ltac:(vm_compute; reflexivity)) as (Hfields & Hlen & Hsegs).
  split; [apply Hfields|]. split; [apply Hlen|apply Hsegs].
Defined.

(** C10 (as amended). For a NUMBER attribute whose bag is an object of the
    first snapshot, the choice between [int_] and [float_] is exactly the
    test [default % 1 === 0] on the "default" sub-key after the numeric
    conversion of the language.  If the sub-key is absent, or its value
    converts to NaN, every sub-key is prefixed [float_] and no error is
    raised; a value that is not a number but converts to an integer (null,
    true, false) gives [int_]. *)
Theorem number_prefix_is_the_remainder_test `{JSRuntime}
    (attData : gmap string jsval) (pa : gmap string attr_field)
    (name : string) (props : gmap string jsval) :
  attData !! name = Some (JObj props) →
  let flattened_with prefix :=
    ∃ p_data,
      prefix_attribute attData pa {| attr_name := name; attr_type := NUMBER |}
      = Ok (<["obj_" +:+ name := Nested p_data]> pa)
      ∧ renamed_with prefix (map_to_list props) p_data in
  (∀ n, ToNumber (js_get props "default") = Ok n →
        flattened_with (if js_strict_eq_0 (js_rem_1 n)
                        then "int_" else "float_"))
  ∧ (props !! "default" = None → flattened_with "float_")
  ∧ (∀ d, props !! "default" = Some d → ToNumber d = Ok S754_nan →
          flattened_with "float_")
  ∧ (∀ d, props !! "default" = Some d → d = JNull ∨ (∃ b, d = JBool b) →
          flattened_with "int_").
Proof.
  intros Hv flattened_with.
  assert (Hmain : ∀ n, ToNumber (js_get props "default") = Ok n →
            flattened_with (if js_strict_eq_0 (js_rem_1 n)
                            then "int_" else "float_")).
  { intros n Hn. eexists. split.
    - eapply (prefix_attribute_nested _ _ _ NUMBER (JObj props)
                (js_get props "default")
                (if js_strict_eq_0 (js_rem_1 n) then "int" else "float"));
        [exact Hv|done|reflexivity|].
      simpl. rewrite Hn. simpl. by destruct (js_strict_eq_0 (js_rem_1 n)).
    - destruct (js_strict_eq_0 (js_rem_1 n)).
      + exact (prefix_keys_renamed "int" _ (Object_entries_NoDup (JObj props))).
      + exact (prefix_keys_renamed "float" _ (Object_entries_NoDup (JObj props))). }
  split; [done|]. split; [|split].
  - intros Hnone. apply (Hmain S754_nan).
    unfold js_get. rewrite Hnone. done.
  - intros d Hd Hnan. apply (Hmain S754_nan).
    unfold js_get. by rewrite Hd.
  - intros d Hd [->|[b ->]].
    + apply (Hmain (S754_zero false)). unfold js_get. by rewrite Hd.
    + destruct b.
      * apply (Hmain (S754_finite false 1 0)). unfold js_get. by rewrite Hd.
      * apply (Hmain (S754_zero false)). unfold js_get. by rewrite Hd.
Qed.

Lemma number_prefix_is_the_remainder_test_witness :
  let props : gmap string jsval := {[ "github" := JNum five ]} in
  sample_bag !! "height" = Some (JObj props)
  ∧ props !! "default" = None
  ∧ ∃ p_data,
      prefix_attribute (H := no_text_runtime) sample_bag ∅
        {| attr_name := "height"; attr_type := NUMBER |}
      = Ok (<["obj_height" := Nested p_data]> ∅)
      ∧ renamed_with "float_" (map_to_list props) p_data.
Proof.
  intros props. split; [reflexivity|]. split; [reflexivity|].
  refine (proj1 (proj2 (@number_prefix_is_the_remainder_test no_text_runtime
                          sample_bag ∅ "height" props _)) _);
    reflexivity.
Defined.

(** The claim as it was stated fails: a default that is not a number, here
    null, converts to the integer 0, and the sub-keys are prefixed [int_],
    not [float_]. *)
Lemma null_default_is_prefixed_int :
  ∃ p_data,
    prefix_attribute (H := no_text_runtime) sample_bag ∅
      {| attr_name := "weight"; attr_type := NUMBER |}
    = Ok {[ "obj_weight" := Nested p_data ]}
    ∧ p_data !! "int_default" = Some JNull
    ∧ p_data !! "int_github" = Some (JNum five)
    ∧ p_data !! "float_default" = None
    ∧ p_data !! "float_github" = None.
Proof. eexists. split; [vm_compute; reflexivity|]. by vm_compute. Qed.

(** * Properties of the incremental sync *)

(** ** Running one call *)

Lemma bind_run {A B} (m : M A) (f : A → M B) (w : World) :
  (m ≫= f) w
  = match m w with
    | (Returned a, w') => f a w'
    | (Thrown e, w') => (Thrown e, w')
    | (OutOfFuel, w') => (OutOfFuel, w')
    end.
Proof. reflexivity. Qed.

Lemma collaborator_run {A} call (op : World → A * World) ev w :
  faults w (length (trace w)) = false →
  collaborator call op ev w = (Returned (op w).1, log (ev (op w).1) (op w).2).
Proof. unfold collaborator. intros ->. by destruct (op w). Qed.

Lemma collaborator_fault {A} call (op : World → A * World) ev w :
  faults w (length (trace w)) = true →
  collaborator call op ev w
  = (Thrown (CollaboratorError call), log (EvFailed call) w).
Proof. unfold collaborator. by intros ->. Qed.

Lemma getMemberData_run w ids :
  fault_free w →
  getMemberData ids w
  = (Returned (filter (λ r, m_id r ∈ ids) (db_snapshots w (clock w))),
     log (EvGetMemberData ids
            (filter (λ r, m_id r ∈ ids) (db_snapshots w (clock w)))) w).
Proof. intros Hf. unfold getMemberData. by rewrite collaborator_run. Qed.

Section IncrementalSync.
Context `{JSRuntime}.

(** The not-found path, from any attempt number. *)
Lemma syncMember_from_not_found memberId budget retries w :
  budget = 5 - retries →
  fault_free w →
  (∀ k, k ≤ budget → visible_rows w (clock w + 100 * k) memberId = []) →
  ∃ w',
    syncMember_from budget memberId retries w = (Returned (), w')
    ∧ trace w' = trace w ++ empty_attempts memberId budget
                 ++ [EvGetMemberData [memberId] []; EvRemoveFromIndex memberId]
    ∧ clock w' = clock w + 100 * budget
    ∧ os_members w' = delete memberId (os_members w)
    ∧ db_pending w' = db_pending w.
Proof.
  revert retries w. induction budget as [|budget IH]; intros retries w Hb Hf Hrows.
  - assert (Hnow := Hrows 0 (le_n _)). rewrite Nat.mul_0_r, Nat.add_0_r in Hnow.
    unfold visible_rows in Hnow.
    eexists. cbn [syncMember_from]. rewrite bind_run, getMemberData_run by done.
    rewrite Hnow. rewrite bool_decide_false by lia.
    unfold removeFromIndex. rewrite collaborator_run by apply Hf.
    split; [reflexivity|]. simpl.
    rewrite <- app_assoc. repeat split; try done; try lia.
  - assert (Hnow := Hrows 0 (Nat.le_0_l _)).
    rewrite Nat.mul_0_r, Nat.add_0_r in Hnow. unfold visible_rows in Hnow.
    cbn [syncMember_from]. rewrite bind_run, getMemberData_run by done.
    rewrite Hnow. rewrite bool_decide_true by lia.
    rewrite bind_run. unfold timeout at 1.
    set (w1 := log (EvTimeout 100) _).
    destruct (IH (S retries) w1) as (w' & Hrun & Htr & Hclk & Hidx & Hpend).
    + lia.
    + intros n. apply Hf.
    + intros k Hk. subst w1. unfold visible_rows.
      cbn [log with_clock clock db_snapshots].
      specialize (Hrows (S k) ltac:(lia)). unfold visible_rows in Hrows.
      replace (clock w + 100 + 100 * k) with (clock w + 100 * S k) by lia.
      done.
    + exists w'. split; [exact Hrun|]. subst w1.
      cbn [log with_clock clock trace os_members db_pending] in *.
      rewrite Htr, Hclk, Hidx, Hpend. rewrite <- !app_assoc.
      cbn [empty_attempts app].
      repeat split; try done; try lia.
Qed.

End IncrementalSync.

(** C2. For a member id whose snapshot fetch returns nothing on the first
    try and on every retry, incremental sync waits the fixed delay between
    attempts, retries at most 5 times beyond the first try (the attempt
    counter starts at 0), and, once the retries are used up, deletes the id
    from the index instead of raising an error: the id ends absent from the
    index. *)
Theorem syncMember_not_found_removes `{JSRuntime}
    (memberId : string) (retries : nat) (w : World) :
  fault_free w →
  (∀ k, k ≤ 5 - retries →
        visible_rows w (clock w + 100 * k) memberId = []) →
  ∃ w',
    syncMember memberId retries w = (Returned (), w')
    ∧ trace w' = trace w ++ empty_attempts memberId (5 - retries)
                 ++ [EvGetMemberData [memberId] []; EvRemoveFromIndex memberId]
    ∧ clock w' = clock w + 100 * (5 - retries)
    ∧ os_members w' !! memberId = None
    ∧ (∀ id, id ≠ memberId → os_members w' !! id = os_members w !! id).
Proof.
  intros Hf Hrows.
  destruct (syncMember_from_not_found memberId (5 - retries) retries w
              eq_refl Hf Hrows) as (w' & Hrun & Htr & Hclk & Hidx & _).
  exists w'. split; [exact Hrun|]. split; [exact Htr|]. split; [exact Hclk|].
  rewrite Hidx. split; [apply lookup_delete_eq|].
  intros id Hid. by apply lookup_delete_ne.
Qed.

Lemma syncMember_not_found_removes_witness :
  fault_free sample_world
  ∧ (∀ k, k ≤ 5 - 0 →
          visible_rows sample_world (clock sample_world + 100 * k) "B" = [])
  ∧ ∃ w',
      syncMember (H := no_text_runtime) "B" 0 sample_world = (Returned (), w')
      ∧ trace w' = trace sample_world ++ empty_attempts "B" (5 - 0)
                   ++ [EvGetMemberData ["B"] []; EvRemoveFromIndex "B"]
      ∧ clock w' = clock sample_world + 100 * (5 - 0)
      ∧ os_members w' !! "B" = None
      ∧ (∀ id, id ≠ "B" → os_members w' !! id = os_members sample_world !! id).
Proof.
  assert (Hf : fault_free sample_world) by (intros n; reflexivity).
  assert (Hrows : ∀ k, k ≤ 5 - 0 →
            visible_rows sample_world (clock sample_world + 100 * k) "B" = [])
    by (intros k _; reflexivity).
  split; [exact Hf|]. split; [exact Hrows|].
  exact (@syncMember_not_found_removes no_text_runtime "B" 0 sample_world
           Hf Hrows).
Defined.

(** C7. For a member whose snapshot fetch returns a non-empty result, an
    incremental sync call fetches the snapshots of the member, flattens them
    with the attribute schema of the tenant, writes a single document to the
    index and marks the member id as synced; it ends in the SYNCED state,
    with the document equal to the flattening of the snapshots the store
    shows. *)
Theorem syncMember_found_writes_and_marks `{JSRuntime}
    (memberId : string) (retries : nat) (w : World)
    (member0 : IDbMemberSyncData) (rest : list IDbMemberSyncData)
    (doc : Document) :
  fault_free w →
  visible_rows w (clock w) memberId = member0 :: rest →
  prefixData (member0 :: rest) (db_attributes w (m_tenantId member0)) = Ok doc →
  ∃ w',
    syncMember memberId retries w = (Returned (), w')
    ∧ trace w' = trace w
                 ++ [EvGetMemberData [memberId] (member0 :: rest);
                     EvGetTenantMemberAttributes (m_tenantId member0);
                     EvIndex memberId doc;
                     EvMarkSynced [memberId]]
    ∧ os_members w' = <[memberId := doc]> (os_members w)
    ∧ (∀ tenantId queue, db_pending w' !! tenantId = Some queue →
                         memberId ∉ queue)
    ∧ clock w' = clock w.
Proof.
  intros Hf Hrows Hdoc. unfold visible_rows in Hrows.
  assert (Hrun : ∀ budget,
            syncMember_from budget memberId retries w
            = (members ← getMemberData [memberId];
               match members with
               | member0 :: _ =>
                   attributes ← getTenantMemberAttributes (m_tenantId member0);
                   prepared ← lift (prefixData members attributes);
                   index memberId prepared;;
                   markSynced [memberId]
               | [] => mret ()
               end) w).
  { intros budget. destruct budget; cbn [syncMember_from];
      rewrite !bind_run, getMemberData_run by done; by rewrite Hrows. }
  unfold syncMember. rewrite Hrun. clear Hrun.
  rewrite bind_run, getMemberData_run by done. rewrite Hrows.
  rewrite bind_run. unfold getTenantMemberAttributes.
  rewrite collaborator_run by apply Hf. cbn [fst snd].
  rewrite bind_run. unfold lift at 1. cbn [log db_attributes]. rewrite Hdoc.
  rewrite bind_run. unfold index. rewrite collaborator_run by apply Hf.
  unfold markSynced. rewrite collaborator_run by apply Hf.
  eexists. split; [reflexivity|].
  cbn [log with_index with_pending trace os_members db_pending clock fst snd].
  rewrite <- !app_assoc. repeat split; try done.
  intros tenantId queue. rewrite lookup_fmap.
  destruct (db_pending w !! tenantId) as [q|]; [|done].
  intros [= <-] [Hnot _]%list_elem_of_filter. apply Hnot. by left.
Qed.

Lemma syncMember_found_writes_and_marks_witness :
  ∃ doc,
    fault_free sample_world
    ∧ visible_rows sample_world (clock sample_world) "A"
      = [sample_member; sample_member_s2]
    ∧ prefixData (H := no_text_runtime) [sample_member; sample_member_s2]
        (db_attributes sample_world (m_tenantId sample_member)) = Ok doc
    ∧ ∃ w',
        syncMember (H := no_text_runtime) "A" 0 sample_world = (Returned (), w')
        ∧ trace w' = trace sample_world
                     ++ [EvGetMemberData ["A"] [sample_member; sample_member_s2];
                         EvGetTenantMemberAttributes (m_tenantId sample_member);
                         EvIndex "A" doc;
                         EvMarkSynced ["A"]]
        ∧ os_members w' = <["A" := doc]> (os_members sample_world)
        ∧ (∀ tenantId queue, db_pending w' !! tenantId = Some queue →
                             "A" ∉ queue)
        ∧ clock w' = clock sample_world.
Proof.
  assert (Hf : fault_free sample_world) by (intros n; reflexivity).
  eexists. split; [exact Hf|]. split; [reflexivity|].
  split; [vm_compute; reflexivity|].
  refine (@syncMember_found_writes_and_marks no_text_runtime "A" 0
            sample_world sample_member [sample_member_s2] _ Hf _ _).
  - reflexivity.
  - vm_compute; reflexivity.
Defined.

(** * Write-then-acknowledge ordering *)

Lemma ordered_after_app prev evs1 evs2 :
  ordered_after prev evs1 →
  ordered_after (from_option Some prev (last evs1)) evs2 →
  ordered_after prev (evs1 ++ evs2).
Proof.
  revert prev. induction evs1 as [|ev evs1 IH]; intros prev; [done|].
  intros (Hack & Hprev & Hrest) H2. split; [done|]. split; [done|].
  apply IH; [done|]. destruct evs1 as [|ev' evs1]; [done|].
  rewrite last_cons_cons in H2.
  destruct (last (ev' :: evs1)) eqn:E; [done|]. by apply last_None in E.
Qed.

Lemma ordered_after_mark prev pre ids post :
  ordered_after prev (pre ++ EvMarkSynced ids :: post) →
  ∃ write, from_option Some prev (last pre) = Some write
           ∧ writes write = Some ids.
Proof.
  revert prev. induction pre as [|ev pre IH]; intros prev; simpl.
  - intros (Hack & _). by apply Hack.
  - intros (_ & _ & Hrest). destruct (IH _ Hrest) as (write & Hlast & Hw).
    exists write. split; [|done].
    destruct pre as [|ev' pre]; [done|]. rewrite last_cons_cons.
    destruct (last (ev' :: pre)) eqn:E; [done|]. by apply last_None in E.
Qed.

Lemma ordered_after_failure prev pre call post :
  ordered_after prev (pre ++ EvFailed call :: post) → post = [].
Proof.
  revert prev. induction pre as [|ev pre IH]; intros prev; simpl.
  - intros (_ & _ & Hrest). destruct post as [|ev post]; [done|].
    destruct Hrest as (_ & Hnot & _). exfalso. apply Hnot. by exists call.
  - intros (_ & _ & Hrest). by eapply IH.
Qed.

Lemma ordered_after_write_then_acknowledge evs :
  ordered_after None evs → write_then_acknowledge evs.
Proof.
  intros Hord. split.
  - intros pre ids post ->.
    destruct (ordered_after_mark _ _ _ _ Hord) as (write & Hlast & Hw).
    destruct pre as [|ev pre _] using rev_ind; [done|].
    rewrite last_snoc in Hlast. injection Hlast as ->. by exists pre, write.
  - intros pre call post ->. by eapply ordered_after_failure.
Qed.

(** ** The discipline is kept by each call and by sequencing *)

Lemma not_failure_None : ¬ is_failure None.
Proof. by intros [call ?]. Qed.

Lemma run_ok_ret {A} (a : A) : run_ok (mret a).
Proof.
  intros w. exists []. rewrite app_nil_r. repeat split; try done.
  intros _ _. apply not_failure_None.
Qed.

Lemma run_ok_out_of_fuel {A} : run_ok (@out_of_fuel A).
Proof. intros w. exists []. rewrite app_nil_r. by repeat split. Qed.

Lemma run_ok_lift {A} (r : Result A) : run_ok (lift r).
Proof.
  intros w. exists []. unfold lift. destruct r; rewrite app_nil_r;
    repeat split; try done.
  intros _ _. apply not_failure_None.
Qed.

Lemma run_ok_timeout ms : run_ok (timeout ms).
Proof.
  intros w. exists [EvTimeout ms]. split; [done|]. split.
  - intros prev Hprev. by repeat split.
  - simpl. by intros _ _ [call ?].
Qed.

(** A collaborator call other than [markSynced]. *)
Lemma run_ok_collaborator {A} call (op : World → A * World) ev :
  (∀ w, trace (op w).2 = trace w) →
  (∀ a ids, ev a ≠ EvMarkSynced ids) →
  (∀ a call', ev a ≠ EvFailed call') →
  run_ok (collaborator call op ev).
Proof.
  intros Hop Hev Hnf w. unfold collaborator.
  destruct (faults w (length (trace w))).
  - exists [EvFailed call]. split; [done|]. split; [|done].
    intros prev Hprev. by repeat split.
  - destruct (op w) as [a w'] eqn:Hw. exists [ev a].
    specialize (Hop w). rewrite Hw in Hop. simpl in *. rewrite Hop.
    split; [done|]. split.
    + intros prev Hprev. repeat split; [|done].
      intros ids Hids. by apply Hev in Hids.
    + intros _ _ [call' [= Hc]]. by apply Hnf in Hc.
Qed.

Lemma run_ok_bind {A B} (m : M A) (f : A → M B) :
  run_ok m → (∀ a, run_ok (f a)) → run_ok (m ≫= f).
Proof.
  intros Hm Hf w. rewrite bind_run.
  destruct (Hm w) as (evs1 & Htr1 & Hord1 & Hret1).
  destruct (m w) as [[a|e|] w1] eqn:Hmw; simpl in *.
  - destruct (Hf a w1) as (evs2 & Htr2 & Hord2 & Hret2).
    exists (evs1 ++ evs2). rewrite Htr2, Htr1, app_assoc.
    assert (Hlast1 : ¬ is_failure (last evs1)) by by eapply Hret1.
    split; [done|split].
    + intros prev Hprev. apply ordered_after_app; [by apply Hord1|].
      apply Hord2. destruct (last evs1); [done|]. done.
    + intros b Hb. destruct evs2 as [|ev evs2 _] using rev_ind.
      * by rewrite app_nil_r.
      * rewrite app_assoc, last_snoc. specialize (Hret2 b Hb).
        by rewrite last_snoc in Hret2.
  - exists evs1. repeat split; done.
  - exists evs1. repeat split; done.
Qed.

Lemma run_ok_lift_bind {A B} (r : Result A) (f : A → M B) :
  (∀ a, r = Ok a → run_ok (f a)) → run_ok (lift r ≫= f).
Proof.
  intros Hf w. rewrite bind_run. unfold lift. destruct r as [a|e].
  - by apply Hf.
  - exists []. rewrite app_nil_r. by repeat split.
Qed.

(** An index write followed by the acknowledgement of the same ids. *)
Lemma run_ok_write_then_mark {A B} call (op : World → A * World) ev ids
    (k : M B) :
  (∀ w, trace (op w).2 = trace w) →
  (∀ a, writes (ev a) = Some ids) →
  run_ok k →
  run_ok (collaborator call op ev ≫= λ _, markSynced ids ≫= λ _, k).
Proof.
  intros Hop Hev Hk w. rewrite bind_run.
  destruct (faults w (length (trace w))) eqn:Hfault.
  { rewrite collaborator_fault by done.
    exists [EvFailed call]. split; [done|]. split; [|done].
    intros prev Hprev. by repeat split. }
  rewrite collaborator_run by done.
  destruct (op w) as [a w1] eqn:Hw. specialize (Hop w). rewrite Hw in Hop.
  cbn [fst snd] in *. rewrite bind_run. unfold markSynced.
  assert (Hnot_mark : ∀ ids', ev a ≠ EvMarkSynced ids').
  { intros ids' Hids. specialize (Hev a). by rewrite Hids in Hev. }
  assert (Hnot_failed : ¬ is_failure (Some (ev a))).
  { intros [call' [= Hc]]. specialize (Hev a). by rewrite Hc in Hev. }
  destruct (faults (log (ev a) w1) (length (trace (log (ev a) w1))))
    eqn:Hfault2.
  { rewrite collaborator_fault by done.
    exists [ev a; EvFailed "markSynced"]. cbn [log trace snd].
    rewrite Hop, <- app_assoc. split; [done|]. split; [|done].
    intros prev Hprev. repeat split; try done.
    intros ids' Hids. by apply Hnot_mark in Hids. }
  rewrite collaborator_run by done. cbn [fst snd].
  set (w2 := log (EvMarkSynced ids) _).
  destruct (Hk w2) as (evs & Htr & Hord & Hret).
  exists ([ev a; EvMarkSynced ids] ++ evs). rewrite Htr. subst w2.
  cbn [log with_pending trace]. rewrite Hop, <- !app_assoc.
  split; [done|]. split.
  - intros prev Hprev. apply ordered_after_app.
    + repeat split; try done.
      * intros ids' Hids. by apply Hnot_mark in Hids.
      * intros ids' [= <-]. by exists (ev a).
    + apply Hord. by intros [call' ?].
  - intros b Hb. specialize (Hret b Hb).
    destruct evs as [|ev' evs _] using rev_ind.
    + simpl. by intros [call' ?].
    + rewrite app_assoc, last_snoc. by rewrite last_snoc in Hret.
Qed.

Lemma run_ok_ext {A} (m m' : M A) :
  (∀ w, m w = m' w) → run_ok m → run_ok m'.
Proof. intros Heq Hm w. rewrite <- Heq. apply Hm. Qed.

Lemma bind_ret_run {A} (m : M A) w : (m ≫= mret) w = m w.
Proof. rewrite bind_run. by destruct (m w) as [[a|e|] w']. Qed.

Section Ordering.
Context `{JSRuntime}.

Lemma run_ok_getMemberData ids : run_ok (getMemberData ids).
Proof. by apply run_ok_collaborator. Qed.

Lemma run_ok_getTenantMemberAttributes t : run_ok (getTenantMemberAttributes t).
Proof. by apply run_ok_collaborator. Qed.

Lemma run_ok_getTenantMembersForSync t page perPage :
  run_ok (getTenantMembersForSync t page perPage).
Proof. by apply run_ok_collaborator. Qed.

Lemma run_ok_setTenanMembersForSync t : run_ok (setTenanMembersForSync t).
Proof. by apply run_ok_collaborator. Qed.

Lemma run_ok_removeFromIndex id : run_ok (removeFromIndex id).
Proof. by apply run_ok_collaborator. Qed.

Lemma run_ok_syncMember_from budget memberId retries :
  run_ok (syncMember_from budget memberId retries).
Proof.
  revert retries. induction budget as [|budget IH]; intros retries;
    cbn [syncMember_from].
  - apply run_ok_bind; [apply run_ok_getMemberData|]. intros [|member0 rest].
    + case_bool_decide; [|apply run_ok_removeFromIndex].
      apply run_ok_bind; [apply run_ok_timeout|]. intros _.
      apply run_ok_out_of_fuel.
    + apply run_ok_bind; [apply run_ok_getTenantMemberAttributes|].
      intros attributes. apply run_ok_lift_bind. intros prepared _.
      apply (run_ok_ext (index memberId prepared ≫= λ _,
                           markSynced [memberId] ≫= λ _, mret ())).
      { intros w. rewrite !bind_run. destruct (index memberId prepared w)
          as [[[]|e|] w1]; [|done..].
        rewrite bind_run.
        by destruct (markSynced [memberId] w1) as [[[]|e|] w2]. }
      by apply run_ok_write_then_mark; [..|apply run_ok_ret].
  - apply run_ok_bind; [apply run_ok_getMemberData|]. intros [|member0 rest].
    + case_bool_decide; [|apply run_ok_removeFromIndex].
      apply run_ok_bind; [apply run_ok_timeout|]. intros _. apply IH.
    + apply run_ok_bind; [apply run_ok_getTenantMemberAttributes|].
      intros attributes. apply run_ok_lift_bind. intros prepared _.
      apply (run_ok_ext (index memberId prepared ≫= λ _,
                           markSynced [memberId] ≫= λ _, mret ())).
      { intros w. rewrite !bind_run. destruct (index memberId prepared w)
          as [[[]|e|] w1]; [|done..].
        rewrite bind_run.
        by destruct (markSynced [memberId] w1) as [[[]|e|] w2]. }
      by apply run_ok_write_then_mark; [..|apply run_ok_ret].
Qed.

Lemma for_of_prepare_ids grouped attributes acc ids prepared :
  for_of (prepare grouped attributes) acc ids = Ok prepared →
  req_id <$> prepared = (req_id <$> acc) ++ ids.
Proof.
  revert acc. induction ids as [|id ids IH]; intros acc; simpl.
  - intros [= <-]. by rewrite app_nil_r.
  - destruct (prepare grouped attributes acc id) as [acc'|e] eqn:Hp;
      simpl; [|done].
    unfold prepare in Hp.
    destruct (prefixData (default [] (Map_get grouped id)) attributes)
      as [body|e]; simpl in Hp; [|done].
    injection Hp as <-. intros Hrest%IH. rewrite Hrest. unfold push.
    rewrite fmap_app. simpl. by rewrite <- app_assoc.
Qed.

Lemma run_ok_sync_loop fuel tenantId batchSize attributes memberIds count :
  run_ok (sync_loop fuel tenantId batchSize attributes memberIds count).
Proof.
  revert memberIds count. induction fuel as [|fuel IH]; intros memberIds count;
    destruct memberIds as [|id0 ids0]; cbn [sync_loop];
    try apply run_ok_ret; try apply run_ok_out_of_fuel.
  apply run_ok_bind; [apply run_ok_getMemberData|]. intros allMembers.
  apply run_ok_bind.
  - case_bool_decide; [|apply run_ok_ret].
    apply run_ok_lift_bind. intros prepared Hprepared.
    apply for_of_prepare_ids in Hprepared. simpl in Hprepared.
    unfold bulkIndex. cbv zeta.
    apply run_ok_write_then_mark;
      [done|intros; simpl; by rewrite Hprepared|apply run_ok_ret].
  - intros count'. apply run_ok_bind;
      [apply run_ok_getTenantMembersForSync|]. intros memberIds'. apply IH.
Qed.

End Ordering.

(** C9. In every sync run, of a full resync or of an incremental sync of
    one member, a mark-synced call for a set of ids occurs only right after
    the index write (bulk or single) of the same ids has completed; if the
    write fails, the run ends there, and those ids are not marked synced in
    that run. *)
Theorem mark_synced_only_after_write `{JSRuntime} :
  (∀ memberId retries w,
     ∃ evs, trace (syncMember memberId retries w).2 = trace w ++ evs
            ∧ write_then_acknowledge evs)
  ∧ (∀ fuel tenantId reset batchSize w,
       ∃ evs,
         trace (syncTenantMembers fuel tenantId reset batchSize w).2
         = trace w ++ evs
         ∧ write_then_acknowledge evs).
Proof.
  split.
  - intros memberId retries w.
    destruct (run_ok_syncMember_from (5 - retries) memberId retries w)
      as (evs & Htr & Hord & _).
    exists evs. split; [exact Htr|].
    apply ordered_after_write_then_acknowledge, Hord, not_failure_None.
  - intros fuel tenantId reset batchSize w.
    assert (Hrun : run_ok (syncTenantMembers fuel tenantId reset batchSize)).
    { unfold syncTenantMembers. apply run_ok_bind.
      - destruct reset; [apply run_ok_setTenanMembersForSync|apply run_ok_ret].
      - intros _. apply run_ok_bind; [apply run_ok_getTenantMemberAttributes|].
        intros attributes. apply run_ok_bind;
          [apply run_ok_getTenantMembersForSync|].
        intros memberIds. apply run_ok_sync_loop. }
    destruct (Hrun w) as (evs & Htr & Hord & _).
    exists evs. split; [exact Htr|].
    apply ordered_after_write_then_acknowledge, Hord, not_failure_None.
Qed.

(** * Unknown attribute types *)

Section UnknownType.
Context `{JSRuntime}.

Lemma prefix_attribute_unknown attData pa a raw :
  attr_type a = OTHER raw →
  js_in (attr_name a) attData = true →
  ∃ e, prefix_attribute attData pa a = Err e.
Proof.
  intros Hty Hin. unfold prefix_attribute. rewrite Hin, Hty.
  destruct (get_default (js_get attData (attr_name a))) as [d|e];
    cbn [mbind Result_bind]; by eexists.
Qed.

Lemma for_of_prefix_attribute_unknown attData attributes pa a raw :
  a ∈ attributes →
  attr_type a = OTHER raw →
  js_in (attr_name a) attData = true →
  ∃ e, for_of (prefix_attribute attData) pa attributes = Err e.
Proof.
  intros Ha Hty Hin. revert pa.
  induction attributes as [|a' attributes IH]; intros pa;
    [by apply elem_of_nil in Ha|].
  simpl. apply elem_of_cons in Ha as [<-|Ha].
  - destruct (prefix_attribute_unknown attData pa a raw Hty Hin) as [e ->].
    by exists e.
  - destruct (prefix_attribute attData pa a') as [pa'|e]; simpl.
    + by apply IH.
    + by exists e.
Qed.

(** A definition that is absent from the bag, or whose type is of the
    enumeration, flattens exactly when it raises no type error, and a type
    error is all it can raise. *)
Lemma prefix_attribute_known attData pa a :
  (js_in (attr_name a) attData = true → ∀ raw, attr_type a ≠ OTHER raw) →
  (no_type_error attData a ∧ ∃ pa', prefix_attribute attData pa a = Ok pa')
  ∨ (¬ no_type_error attData a
     ∧ ∃ msg, prefix_attribute attData pa a = Err (TypeError msg)).
Proof.
  intros Hknown. unfold prefix_attribute, no_type_error, bag_readable.
  destruct (js_in (attr_name a) attData) eqn:Hin;
    [|left; split; [done|by eexists]].
  specialize (Hknown eq_refl).
  destruct (attr_type a) eqn:Hty; try (by destruct (Hknown raw));
    try (left; split; [done|by eexists]);
    (destruct (get_default (js_get attData (attr_name a))) as [d|e] eqn:Hd;
     cbn [mbind Result_bind];
     [|right; destruct (get_default_error _ _ Hd) as [msg ->];
       split; [by intros (d & ? & _)|by eexists]]);
    try (left; split; [intros _ _; exists d; by split|by eexists]).
  cbn [attributeTypeToOpenSearchPrefix].
  destruct (ToNumber d) as [n|e] eqn:Hn; cbn [mbind Result_bind].
  - left. split; [intros _ _; exists d; split; [done|]; by eexists|].
    destruct (js_strict_eq_0 (js_rem_1 n)); by eexists.
  - right. destruct (ToNumber_error _ _ Hn) as [msg ->]. split; [|by eexists].
    intros Hread. destruct (Hread eq_refl) as (d' & [= <-] & Hnum); [done|].
    destruct (Hnum eq_refl) as [n Hn']. congruence.
Qed.

(** A definition of unknown type whose attribute is in the bag raises the
    mapping error exactly when reading the bag raises no type error, and
    that type error otherwise. *)
Lemma prefix_attribute_unknown_error attData pa a raw :
  attr_type a = OTHER raw →
  js_in (attr_name a) attData = true →
  (no_type_error attData a
   ∧ prefix_attribute attData pa a = Err (MappingError (OTHER raw)))
  ∨ (¬ no_type_error attData a
     ∧ ∃ msg, prefix_attribute attData pa a = Err (TypeError msg)).
Proof.
  intros Hty Hin. unfold prefix_attribute, no_type_error, bag_readable.
  rewrite Hin, Hty.
  destruct (get_default (js_get attData (attr_name a))) as [d|e] eqn:Hd;
    cbn [mbind Result_bind].
  - left. split; [|done]. intros _ _. exists d. by split.
  - right. destruct (get_default_error _ _ Hd) as [msg ->].
    split; [|by eexists]. intros Hread. by destruct Hread as (d & ? & _).
Qed.

(** The loop up to the first definition of unknown type whose attribute is
    in the bag. *)
Lemma for_of_first_unknown attData before a raw later pa :
  (∀ b r, b ∈ before → js_in (attr_name b) attData = true →
          attr_type b ≠ OTHER r) →
  attr_type a = OTHER raw →
  js_in (attr_name a) attData = true →
  ((∀ b, b ∈ before ++ [a] → no_type_error attData b)
   ∧ for_of (prefix_attribute attData) pa (before ++ a :: later)
     = Err (MappingError (OTHER raw)))
  ∨ (¬ (∀ b, b ∈ before ++ [a] → no_type_error attData b)
     ∧ ∃ msg, for_of (prefix_attribute attData) pa (before ++ a :: later)
              = Err (TypeError msg)).
Proof.
  intros Hknown Hty Hin. revert pa Hknown.
  induction before as [|b before IH]; intros pa Hknown; cbn [app for_of].
  - destruct (prefix_attribute_unknown_error attData pa a raw Hty Hin)
      as [[Hclean ->]|[Hdirty [msg ->]]]; cbn [mbind Result_bind].
    + left. split; [|done]. by intros b ->%list_elem_of_singleton.
    + right. split; [|by eexists]. intros Hall. apply Hdirty, Hall. by left.
  - destruct (prefix_attribute_known attData pa b)
      as [[Hclean [pa' ->]]|[Hdirty [msg ->]]]; cbn [mbind Result_bind].
    + intros Hb r. apply Hknown; [by left|done].
    + destruct (IH pa') as [[Hall Herr]|[Hnot Herr]].
      * intros b' r Hb'. apply Hknown. by right.
      * left. split; [|done].
        intros b' [->|Hb']%elem_of_cons; [done|by apply Hall].
      * right. split; [|done]. intros Hall. apply Hnot.
        intros b' Hb'. apply Hall. by right.
    + right. split; [|by eexists]. intros Hall. apply Hdirty, Hall. by left.
Qed.

(** A schema with a definition of unknown type whose attribute is in the
    bag has a first such definition. *)
Lemma first_unknown_in_bag attData attributes a raw :
  a ∈ attributes →
  attr_type a = OTHER raw →
  js_in (attr_name a) attData = true →
  ∃ before a0 raw0 later,
    attributes = before ++ a0 :: later
    ∧ attr_type a0 = OTHER raw0
    ∧ js_in (attr_name a0) attData = true
    ∧ ∀ b r, b ∈ before → js_in (attr_name b) attData = true →
             attr_type b ≠ OTHER r.
Proof.
  intros Ha Hty Hin.
  induction attributes as [|b attributes IH]; [by apply elem_of_nil in Ha|].
  destruct (js_in (attr_name b) attData) eqn:Hb.
  - destruct (attr_type b) as [| | | | | | | |rawb] eqn:Htb;
      try (exists [], b, rawb, attributes; repeat (split; [done|]);
           intros ? ? ?%elem_of_nil; done);
      (apply elem_of_cons in Ha as [->|Ha]; [congruence|];
       destruct (IH Ha) as (before & a0 & raw0 & later & -> & ? & ? & Hfirst);
       exists (b :: before), a0, raw0, later;
       repeat (split; [done|]);
       intros b' r [->|Hb']%elem_of_cons ?; [congruence|by apply Hfirst]).
  - apply elem_of_cons in Ha as [->|Ha]; [congruence|].
    destruct (IH Ha) as (before & a0 & raw0 & later & -> & ? & ? & Hfirst).
    exists (b :: before), a0, raw0, later. repeat (split; [done|]).
    intros b' r [->|Hb']%elem_of_cons ?; [congruence|by apply Hfirst].
Qed.

(** A flattening error leaves [syncMember] as the thrown error, after the
    two reads and before any write. *)
Lemma syncMember_flatten_error memberId retries w member0 rest e :
  fault_free w →
  visible_rows w (clock w) memberId = member0 :: rest →
  prefixData (member0 :: rest) (db_attributes w (m_tenantId member0)) = Err e →
  ∃ w',
    syncMember memberId retries w = (Thrown e, w')
    ∧ trace w' = trace w
                 ++ [EvGetMemberData [memberId] (member0 :: rest);
                     EvGetTenantMemberAttributes (m_tenantId member0)]
    ∧ os_members w' = os_members w
    ∧ db_pending w' = db_pending w.
Proof.
  intros Hf Hrows Herr. unfold visible_rows in Hrows. unfold syncMember.
  eexists. split.
  - destruct (5 - retries); cbn [syncMember_from];
      rewrite bind_run, getMemberData_run by done; rewrite Hrows;
      rewrite bind_run; unfold getTenantMemberAttributes;
      rewrite collaborator_run by apply Hf; cbn [fst snd];
      rewrite bind_run; unfold lift at 1; cbn [log db_attributes];
      rewrite Herr; reflexivity.
  - cbn [log trace os_members db_pending]. by rewrite <- app_assoc.
Qed.

End UnknownType.

(** C3 (as amended). For a schema with an attribute definition whose type
    is outside the enumerated set and whose name is present in the
    attribute bag of the first snapshot, flattening a non-empty snapshot
    sequence against that schema raises an error and produces no document.
    The error is the mapping error of the first such definition exactly
    when no definition up to it raises a type error while the bag is read,
    and that type error otherwise; definitions after it are never reached.
    The error is propagated, not swallowed: the incremental sync throws it,
    writes nothing and marks nothing as synced. *)
Theorem unknown_type_in_bag_is_rejected `{JSRuntime}
    (data : IDbMemberSyncData) (rest : list IDbMemberSyncData)
    (attributes : list IMemberAttribute) (a : IMemberAttribute)
    (raw : string) :
  a ∈ attributes →
  attr_type a = OTHER raw →
  js_in (attr_name a) (m_attributes data) = true →
  (∃ e, prefixData (data :: rest) attributes = Err e)
  ∧ (∃ before a0 raw0 later,
       attributes = before ++ a0 :: later
       ∧ attr_type a0 = OTHER raw0
       ∧ js_in (attr_name a0) (m_attributes data) = true
       ∧ (∀ b r, b ∈ before →
                 js_in (attr_name b) (m_attributes data) = true →
                 attr_type b ≠ OTHER r)
       ∧ (prefixData (data :: rest) attributes
          = Err (MappingError (OTHER raw0))
          ↔ ∀ b, b ∈ before ++ [a0] → no_type_error (m_attributes data) b)
       ∧ (¬ (∀ b, b ∈ before ++ [a0] → no_type_error (m_attributes data) b)
          → ∃ msg, prefixData (data :: rest) attributes
                   = Err (TypeError msg)))
  ∧ (∀ memberId retries w e,
       fault_free w →
       visible_rows w (clock w) memberId = data :: rest →
       db_attributes w (m_tenantId data) = attributes →
       prefixData (data :: rest) attributes = Err e →
       ∃ w',
         syncMember memberId retries w = (Thrown e, w')
         ∧ os_members w' = os_members w
         ∧ db_pending w' = db_pending w
         ∧ ∀ ev, ev ∈ drop (length (trace w)) (trace w') →
                 writes ev = None ∧ ∀ ids, ev ≠ EvMarkSynced ids).
Proof.
  intros Ha Hty Hin.
  destruct (for_of_prefix_attribute_unknown (m_attributes data) attributes ∅
              a raw Ha Hty Hin) as [e He].
  split; [|split].
  - exists e. unfold prefixData. by rewrite He.
  - destruct (first_unknown_in_bag _ _ _ _ Ha Hty Hin)
      as (before & a0 & raw0 & later & -> & Hty0 & Hin0 & Hfirst).
    exists before, a0, raw0, later. repeat (split; [done|]).
    unfold prefixData.
    destruct (for_of_first_unknown (m_attributes data) before a0 raw0 later ∅
                Hfirst Hty0 Hin0) as [[Hall ->]|[Hnot [msg ->]]];
      cbn [mbind Result_bind].
    + split; [done|]. intros Hnot. by destruct Hnot.
    + split; [split; [done|by intros ?]|]. intros _. by exists msg.
  - intros memberId retries w e' Hf Hrows <- Herr.
    destruct (syncMember_flatten_error memberId retries w data rest e'
                Hf Hrows Herr) as (w' & Hrun & Htr & Hidx & Hpend).
    exists w'. split; [done|]. split; [done|]. split; [done|].
    intros ev. rewrite Htr, drop_app_length.
    intros [->|Hev]%elem_of_cons; [done|].
    by apply list_elem_of_singleton in Hev as ->.
Qed.

(** The mapping error is raised although a definition after the one of
    unknown type names an attribute that is null in the bag: the loop
    stops before it reads that attribute. *)
Lemma unknown_type_in_bag_is_rejected_witness :
  {| attr_name := "age"; attr_type := OTHER "geo" |} ∈ corrupt_first_schema
  ∧ js_in "age" (m_attributes null_nickname_member) = true
  ∧ ¬ no_type_error (H := no_text_runtime) (m_attributes null_nickname_member)
        {| attr_name := "nickname"; attr_type := STRING |}
  ∧ prefixData (H := no_text_runtime) [null_nickname_member]
      corrupt_first_schema
    = Err (MappingError (OTHER "geo")).
Proof.
  split; [by left|]. split; [reflexivity|]. split.
  { intros Hclean. destruct (Hclean eq_refl) as (d & Hd & _); done. }
  destruct (proj1 (proj2 (@unknown_type_in_bag_is_rejected no_text_runtime
                    null_nickname_member [] corrupt_first_schema
                    {| attr_name := "age"; attr_type := OTHER "geo" |} "geo"
                    ltac:(by left) eq_refl eq_refl)))
    as (before & a0 & raw0 & later & Hsplit & Hty0 & Hin0 & Hfirst & Hiff & _).
  destruct before as [|b before].
  - injection Hsplit as <- <-. injection Hty0 as <-.
    apply Hiff. intros b ->%list_elem_of_singleton _ _.
    exists (JNum five). by split.
  - injection Hsplit as <- _. exfalso.
    by apply (Hfirst _ "geo" ltac:(by left) eq_refl).
Defined.

(** The claim as it was stated fails: a definition of unknown type whose
    attribute is not in the bag is skipped, and the document is produced. *)
Lemma unknown_type_outside_bag_is_skipped :
  {| attr_name := "location"; attr_type := OTHER "geo" |}
    ∈ unused_corrupt_schema
  ∧ ∃ p, prefixData (H := no_text_runtime) [sample_member; sample_member_s2]
           unused_corrupt_schema = Ok p
         ∧ obj_attributes p = ∅
         ∧ length (obj_arr_segments p) = 2.
Proof.
  split; [by left|]. eexists. split; [vm_compute; reflexivity|]. by vm_compute.
Qed.

(** * Properties of the full resync *)

(** ** Grouping *)

Lemma Map_get_nil {A} key : Map_get (@nil (string * list A)) key = None.
Proof. reflexivity. Qed.

Lemma Map_get_cons {A} (k : string) (xs : list A) g key :
  Map_get ((k, xs) :: g) key
  = if decide (k = key) then Some xs else Map_get g key.
Proof.
  unfold Map_get. cbn [list_find fst].
  destruct (decide (k = key)); [reflexivity|].
  by destruct (list_find _ g) as [[i kv]|].
Qed.

Lemma Map_get_group_add {A} (g : list (string * list A)) k x key :
  Map_get (group_add k x g) key
  = if decide (k = key) then Some (default [] (Map_get g k) ++ [x])
    else Map_get g key.
Proof.
  induction g as [|[k0 xs] g IH]; simpl.
  - rewrite Map_get_cons, Map_get_nil. by destruct (decide (k = key)).
  - case_bool_decide as Hk0; rewrite !Map_get_cons.
    + subst k0. rewrite (decide_True (P := k = k)) by done.
      by destruct (decide (k = key)).
    + rewrite IH. rewrite (decide_False (P := k0 = k)) by done.
      destruct (decide (k = key)) as [<-|Hne].
      * by rewrite decide_False.
      * done.
Qed.

Lemma groupBy_snoc {A} (l : list A) (f : A → string) x :
  groupBy (l ++ [x]) f = group_add (f x) x (groupBy l f).
Proof. unfold groupBy. by rewrite foldl_snoc. Qed.

(** The group of a key is the rows of that key, in row order. *)
Lemma Map_get_groupBy {A} (l : list A) (f : A → string) key :
  Map_get (groupBy l f) key
  = match filter (λ x, f x = key) l with
    | [] => None
    | xs => Some xs
    end.
Proof.
  induction l as [|x l IH] using rev_ind; [done|].
  rewrite groupBy_snoc, Map_get_group_add, filter_app, IH.
  rewrite filter_cons, filter_nil.
  destruct (decide (f x = key)) as [<-|Hne].
  - rewrite IH. by destruct (filter _ l).
  - rewrite app_nil_r. done.
Qed.

Lemma elem_of_keys_Map_get {A} (g : list (string * list A)) key :
  key ∈ g.*1 ↔ is_Some (Map_get g key).
Proof.
  induction g as [|[k xs] g IH]; simpl.
  - rewrite Map_get_nil. split; [by intros ?%elem_of_nil|by intros [? ?]].
  - rewrite Map_get_cons, elem_of_cons.
    destruct (decide (k = key)) as [->|Hne].
    + split; [by eexists|by left].
    + rewrite <- IH. split; [intros [?|?]; [by subst|done]|by right].
Qed.

Lemma group_add_keys_NoDup {A} (g : list (string * list A)) k x :
  NoDup g.*1 → NoDup (group_add k x g).*1.
Proof.
  induction g as [|[k0 xs] g IH]; simpl.
  - intros _. apply NoDup_singleton.
  - intros [Hk0 Hg]%NoDup_cons. case_bool_decide; simpl.
    + by apply NoDup_cons.
    + apply NoDup_cons. split; [|by apply IH].
      rewrite elem_of_keys_Map_get, Map_get_group_add.
      rewrite decide_False by done.
      by rewrite <- elem_of_keys_Map_get.
Qed.

Lemma groupBy_keys_NoDup {A} (l : list A) (f : A → string) :
  NoDup (groupBy l f).*1.
Proof.
  induction l as [|x l IH] using rev_ind; [apply NoDup_nil_2|].
  rewrite groupBy_snoc. by apply group_add_keys_NoDup.
Qed.

Lemma elem_of_groupBy_keys {A} (l : list A) (f : A → string) key :
  key ∈ (groupBy l f).*1 ↔ ∃ x, x ∈ l ∧ f x = key.
Proof.
  rewrite elem_of_keys_Map_get, Map_get_groupBy. split.
  - destruct (filter _ l) as [|x xs] eqn:Hfl; [by intros [? ?]|].
    intros _. exists x.
    assert (Hx : x ∈ filter (λ x, f x = key) l) by (rewrite Hfl; by left).
    apply list_elem_of_filter in Hx as [? ?]. done.
  - intros (x & Hx & Hfx).
    assert (Hin : x ∈ filter (λ x, f x = key) l)
      by by apply list_elem_of_filter.
    destruct (filter _ l); [by apply elem_of_nil in Hin|by eexists].
Qed.

(** ** Lists without duplicates, cut in pages *)

Lemma filter_all {A} (P : A → Prop) `{!∀ x, Decision (P x)} (l : list A) :
  (∀ x, x ∈ l → P x) → filter P l = l.
Proof.
  induction l as [|x l IH]; [done|]. intros HP.
  rewrite filter_cons_True by (apply HP; by left).
  rewrite IH; [done|]. intros y Hy. apply HP. by right.
Qed.

Lemma filter_none {A} (P : A → Prop) `{!∀ x, Decision (P x)} (l : list A) :
  (∀ x, x ∈ l → ¬ P x) → filter P l = [].
Proof.
  induction l as [|x l IH]; [done|]. intros HP.
  rewrite filter_cons_False by (apply HP; by left).
  apply IH. intros y Hy. apply HP. by right.
Qed.

Lemma filter_ext_in {A} (P Q : A → Prop)
    `{!∀ x, Decision (P x), !∀ x, Decision (Q x)} (l : list A) :
  (∀ x, x ∈ l → P x ↔ Q x) → filter P l = filter Q l.
Proof.
  induction l as [|x l IH]; [done|]. intros HPQ.
  rewrite !filter_cons, IH by (intros y Hy; apply HPQ; by right).
  apply decide_ext, HPQ. by left.
Qed.

Lemma filter_not_in_take {A} `{EqDecision A} (q : list A) n :
  NoDup q → filter (λ x, x ∉ take n q) q = drop n q.
Proof.
  intros Hnd. rewrite <- (take_drop n q) in Hnd.
  apply NoDup_app in Hnd as (_ & Hdisj & _).
  transitivity (filter (λ x, x ∉ take n q) (take n q ++ drop n q));
    [by rewrite take_drop|].
  rewrite filter_app.
  rewrite filter_none by (intros x Hx Hnot; done).
  rewrite filter_all; [done|]. intros x Hx Hin. by apply (Hdisj x).
Qed.

Lemma ceil_div_0 b : ceil_div 0 b = 0.
Proof.
  unfold ceil_div. destruct b as [|b]; [done|].
  apply Nat.div_small. lia.
Qed.

Lemma ceil_div_step n b :
  0 < b → 0 < n → ceil_div n b = S (ceil_div (n - b) b).
Proof.
  intros Hb Hn. unfold ceil_div. destruct (decide (n ≤ b)) as [Hle|Hgt].
  - replace (n - b) with 0 by lia.
    replace (n + b - 1) with (1 * b + (n - 1)) by lia.
    rewrite Nat.div_add_l by lia. rewrite (Nat.div_small (n - 1)) by lia.
    rewrite (Nat.div_small (0 + b - 1)) by lia. done.
  - replace (n + b - 1) with (1 * b + (n - b + b - 1)) by lia.
    rewrite Nat.div_add_l by lia. done.
Qed.

Lemma foldl_insert_requests (idx : gmap string Document) prepared id :
  id ∈ req_id <$> prepared ∨ is_Some (idx !! id) →
  is_Some (foldl (λ idx r, <[req_id r := req_body r]> idx) idx prepared !! id).
Proof.
  revert idx. induction prepared as [|r prepared IH]; intros idx; simpl.
  - intros [?%elem_of_nil|?]; done.
  - intros Hid. apply IH. destruct (decide (req_id r = id)) as [<-|Hne].
    + right. rewrite lookup_insert_eq. by eexists.
    + destruct Hid as [Hid|Hid].
      * apply elem_of_cons in Hid as [?|?]; [done|by left].
      * right. by rewrite lookup_insert_ne.
Qed.

Section FullResync.
Context `{JSRuntime}.

Lemma for_of_prepare_ok grouped attributes acc ids :
  (∀ id, id ∈ ids →
         ∃ doc, prefixData (default [] (Map_get grouped id)) attributes
                = Ok doc) →
  ∃ prepared, for_of (prepare grouped attributes) acc ids = Ok prepared.
Proof.
  revert acc. induction ids as [|id ids IH]; intros acc Hok; simpl.
  - by eexists.
  - destruct (Hok id) as [doc Hdoc]; [by left|].
    assert (Hstep : prepare grouped attributes acc id
                    = Ok (push acc {| req_id := id; req_body := doc |})).
    { unfold prepare. by rewrite Hdoc. }
    rewrite Hstep. simpl.
    apply IH. intros id' Hid'. apply Hok. by right.
Qed.

Lemma sync_loop_nonempty fuel tenantId batchSize attributes memberIds count :
  memberIds ≠ [] →
  sync_loop (S fuel) tenantId batchSize attributes memberIds count
  = (allMembers ← getMemberData memberIds;
     let grouped := groupBy allMembers m_id in
     count ←
       (if bool_decide (0 < length grouped) then
          let ids := grouped.*1 in
          prepared ← lift (for_of (prepare grouped attributes) [] ids);
          bulkIndex prepared;;
          let count := count + length ids in
          markSynced ids;;
          mret count
        else mret count);
     memberIds ← getTenantMembersForSync tenantId 1 batchSize;
     sync_loop fuel tenantId batchSize attributes memberIds count).
Proof. by destruct memberIds. Qed.

(** One iteration of the loop on a queue whose ids all flatten: the page
    is written, acknowledged, and leaves the queue. *)
Lemma sync_loop_iteration tenantId batchSize queue w :
  fault_free w →
  0 < batchSize →
  NoDup queue →
  queue ≠ [] →
  pending_of w tenantId = queue →
  flattenable w tenantId queue →
  ∃ w2 prepared,
    (∀ fuel count,
       sync_loop (S fuel) tenantId batchSize (db_attributes w tenantId)
         (take batchSize queue) count w
       = sync_loop fuel tenantId batchSize (db_attributes w tenantId)
           (take batchSize (drop batchSize queue))
           (count + length (take batchSize queue)) w2)
    ∧ trace w2
      = trace w
        ++ [EvGetMemberData (take batchSize queue)
              (filter (λ r, m_id r ∈ take batchSize queue)
                      (db_snapshots w (clock w)));
            EvBulkIndex prepared;
            EvMarkSynced (req_id <$> prepared);
            EvGetTenantMembersForSync tenantId 1 batchSize
              (take batchSize (drop batchSize queue))]
    ∧ pending_of w2 tenantId = drop batchSize queue
    ∧ fault_free w2
    ∧ db_snapshots w2 = db_snapshots w
    ∧ clock w2 = clock w
    ∧ db_attributes w2 = db_attributes w
    ∧ db_members w2 = db_members w
    ∧ (∀ id, id ∈ take batchSize queue ∨ is_Some (os_members w !! id) →
             is_Some (os_members w2 !! id)).
Proof.
  intros Hf HB Hnd Hne Hq Hflat.
  set (memberIds := take batchSize queue).
  set (rows := filter (λ r, m_id r ∈ memberIds) (db_snapshots w (clock w))).
  set (grouped := groupBy rows m_id).
  set (attributes := db_attributes w tenantId).
  assert (Hsub : ∀ id, id ∈ memberIds → id ∈ queue).
  { intros id Hid. unfold memberIds in Hid.
    by apply (subseteq_take batchSize queue). }
  assert (Hrows_of : ∀ id, id ∈ memberIds →
            filter (λ r, m_id r = id) rows
            = filter (λ r, m_id r = id) (db_snapshots w (clock w))).
  { intros id Hid. unfold rows. apply list_filter_filter_l.
    by intros r ->. }
  assert (Hkeys : ∀ id, id ∈ grouped.*1 ↔ id ∈ memberIds).
  { intros id. unfold grouped. rewrite elem_of_groupBy_keys. split.
    - intros (r & Hr & <-). unfold rows in Hr.
      by apply list_elem_of_filter in Hr as [? _].
    - intros Hid. destruct (Hflat id (Hsub id Hid)) as [doc Hdoc].
      destruct (filter (λ r, m_id r = id) (db_snapshots w (clock w)))
        as [|r rs] eqn:Hfl; [done|].
      assert (Hr : r ∈ filter (λ r, m_id r = id) rows).
      { rewrite Hrows_of, Hfl by done. by left. }
      apply list_elem_of_filter in Hr as [? ?]. by exists r. }
  assert (Hperm : grouped.*1 ≡ₚ memberIds).
  { apply NoDup_Permutation; [apply groupBy_keys_NoDup| |done].
    unfold memberIds. eapply sublist_NoDup; [done|apply sublist_take]. }
  destruct (for_of_prepare_ok grouped attributes [] grouped.*1)
    as [prepared Hprepared].
  { intros id Hid. apply Hkeys in Hid as Hid'.
    unfold grouped at 1. rewrite Map_get_groupBy, Hrows_of by done.
    destruct (Hflat id (Hsub id Hid')) as [doc Hdoc]. exists doc.
    revert Hdoc. fold attributes.
    destruct (filter (λ r, m_id r = id) (db_snapshots w (clock w)));
      simpl; auto. }
  pose proof (for_of_prepare_ids _ _ _ _ _ Hprepared) as Hreq.
  simpl in Hreq.
  assert (Hmem : memberIds ≠ []).
  { unfold memberIds. destruct queue; [done|]. destruct batchSize; [lia|done]. }
  assert (Hglen : 0 < length grouped).
  { destruct memberIds as [|id0 ids0] eqn:Hm; [done|].
    assert (Hin : id0 ∈ grouped.*1) by (apply Hkeys; by left).
    destruct grouped; [by apply elem_of_nil in Hin|simpl; lia]. }
  assert (Hleft : filter (λ id, id ∉ grouped.*1) queue = drop batchSize queue).
  { rewrite <- (filter_not_in_take queue batchSize Hnd).
    apply filter_ext_in. intros id _. fold memberIds. by rewrite Hkeys. }
  assert (Hclaim :
    take batchSize
      (drop ((1 - 1) * batchSize)
         (default [] ((filter (λ id, id ∉ grouped.*1) <$> db_pending w)
                        !! tenantId)))
    = take batchSize (drop batchSize queue)).
  { rewrite lookup_fmap. simpl. rewrite <- Hleft, <- Hq. unfold pending_of.
    by destruct (db_pending w !! tenantId). }
  assert (Hlen : length grouped.*1 = length memberIds)
    by by rewrite Hperm.
  eexists _, prepared. split.
  { intros fuel count. rewrite sync_loop_nonempty by done.
    rewrite bind_run, getMemberData_run by done.
    fold rows. fold grouped. rewrite bind_run.
    rewrite bool_decide_true by exact Hglen.
    rewrite bind_run. unfold lift at 1. fold attributes. rewrite Hprepared.
    rewrite bind_run. unfold bulkIndex. rewrite collaborator_run by apply Hf.
    cbn [fst snd]. rewrite bind_run. unfold markSynced.
    rewrite collaborator_run by apply Hf. cbn [fst snd].
    unfold mret, M_ret.
    rewrite bind_run. unfold getTenantMembersForSync.
    rewrite collaborator_run by apply Hf. cbn [fst snd].
    cbn [log with_index with_pending db_pending].
    rewrite Hclaim, Hlen. reflexivity. }
  cbn [log with_index with_pending trace db_pending os_members db_snapshots
         clock db_attributes db_members faults].
  rewrite <- !app_assoc. rewrite Hreq. split; [done|].
  split.
  { unfold pending_of. cbn [db_pending log with_pending with_index].
    rewrite lookup_fmap.
    rewrite <- Hleft, <- Hq. unfold pending_of.
    by destruct (db_pending w !! tenantId). }
  repeat split; try done.
  intros id Hid. apply foldl_insert_requests. rewrite Hreq.
  destruct Hid as [Hid|Hid]; [left; by apply Hkeys|by right].
Qed.

(** The loop on a queue whose ids all flatten drains it in
    [ceil (length queue / batchSize)] pages. *)
Lemma sync_loop_drains fuel tenantId batchSize queue count w :
  fault_free w →
  0 < batchSize →
  NoDup queue →
  pending_of w tenantId = queue →
  flattenable w tenantId queue →
  ceil_div (length queue) batchSize ≤ fuel →
  ∃ w' evs,
    sync_loop fuel tenantId batchSize (db_attributes w tenantId)
      (take batchSize queue) count w
    = (Returned (count + length queue), w')
    ∧ trace w' = trace w ++ evs
    ∧ length (filter (λ ids, ids ≠ []) (take batchSize queue :: claims evs))
      = ceil_div (length queue) batchSize
    ∧ pending_of w' tenantId = []
    ∧ (∀ id, id ∈ queue ∨ is_Some (os_members w !! id) →
             is_Some (os_members w' !! id)).
Proof.
  revert queue count w.
  induction fuel as [|fuel IH]; intros queue count w Hf HB Hnd Hq Hflat Hfuel.
  - destruct queue as [|id0 queue].
    + exists w, []. rewrite take_nil, app_nil_r, ceil_div_0.
      simpl. rewrite Nat.add_0_r. repeat split; try done.
      by intros id [?%elem_of_nil|?].
    + rewrite ceil_div_step in Hfuel by (simpl; lia). lia.
  - destruct (decide (queue = [])) as [->|Hne].
    + exists w, []. rewrite take_nil, app_nil_r, ceil_div_0.
      simpl. rewrite Nat.add_0_r. repeat split; try done.
      by intros id [?%elem_of_nil|?].
    + destruct (sync_loop_iteration tenantId batchSize queue w
                  Hf HB Hnd Hne Hq Hflat)
        as (w2 & prepared & Hstep & Htr2 & Hq2 & Hf2 & Hsnap & Hclk & Hattr
            & Hmem & Hidx2).
      assert (Hlen : 0 < length queue) by (destruct queue; [done|simpl; lia]).
      rewrite ceil_div_step in Hfuel by done.
      destruct (IH (drop batchSize queue)
                  (count + length (take batchSize queue)) w2)
        as (w' & evs & Hrun & Htr & Hpages & Hq' & Hidx'); try done.
      * eapply sublist_NoDup; [done|apply sublist_drop].
      * intros id Hid. unfold flattenable in Hflat.
        rewrite Hsnap, Hclk, Hattr. apply Hflat.
        by apply (subseteq_drop batchSize queue).
      * rewrite length_drop. lia.
      * eexists w', _. rewrite Hstep, <- Hattr, Hrun. split.
        { f_equal. f_equal. rewrite length_take, length_drop. lia. }
        split; [by rewrite Htr, Htr2, <- app_assoc|].
        split.
        { simpl. rewrite filter_cons_True.
          - simpl. rewrite ceil_div_step by done. f_equal.
            rewrite length_drop in Hpages. exact Hpages.
          - destruct queue; [done|]. destruct batchSize; [lia|done]. }
        split; [done|].
        intros id Hid. apply Hidx'. destruct Hid as [Hid|Hid].
        -- rewrite <- (take_drop batchSize queue) in Hid.
           apply elem_of_app in Hid as [Hid|Hid]; [|by left].
           right. apply Hidx2. by left.
        -- right. apply Hidx2. by right.
Qed.

End FullResync.

(** ** The loop ends on an empty claim only *)

Lemma bind_returned {A B} (m : M A) (f : A → M B) w b w' :
  (m ≫= f) w = (Returned b, w') →
  ∃ a w1, m w = (Returned a, w1) ∧ f a w1 = (Returned b, w').
Proof.
  rewrite bind_run. destruct (m w) as [[a|e|] w1]; [|done..].
  intros Hf. by exists a, w1.
Qed.

Lemma collaborator_returned {A} call (op : World → A * World) ev w a w' :
  collaborator call op ev w = (Returned a, w') →
  a = (op w).1 ∧ w' = log (ev a) (op w).2.
Proof.
  unfold collaborator. destruct (faults w (length (trace w))); [done|].
  destruct (op w) as [a0 w0]. by intros [= <- <-].
Qed.

Lemma claims_app evs1 evs2 : claims (evs1 ++ evs2) = claims evs1 ++ claims evs2.
Proof. unfold claims. apply omap_app. Qed.

Lemma no_claims_ret {A} (a : A) : no_claims (mret a).
Proof. intros w a' w' [= <- <-]. exists []. by rewrite app_nil_r. Qed.

Lemma no_claims_lift {A} (r : Result A) : no_claims (lift r).
Proof.
  intros w a w'. unfold lift. destruct r; [|done].
  intros [= <- <-]. exists []. by rewrite app_nil_r.
Qed.

Lemma no_claims_collaborator {A} call (op : World → A * World) ev :
  (∀ w, trace (op w).2 = trace w) →
  (∀ a, claims [ev a] = []) →
  no_claims (collaborator call op ev).
Proof.
  intros Hop Hev w a w' [-> ->]%collaborator_returned.
  exists [ev (op w).1]. split; [|apply Hev]. simpl. by rewrite Hop.
Qed.

Lemma no_claims_bind {A B} (m : M A) (f : A → M B) :
  no_claims m → (∀ a, no_claims (f a)) → no_claims (m ≫= f).
Proof.
  intros Hm Hf w b w' (a & w1 & Hmw & Hfw)%bind_returned.
  destruct (Hm _ _ _ Hmw) as (evs1 & Htr1 & Hc1).
  destruct (Hf _ _ _ _ Hfw) as (evs2 & Htr2 & Hc2).
  exists (evs1 ++ evs2). rewrite Htr2, Htr1, claims_app, Hc1, Hc2.
  by rewrite <- app_assoc.
Qed.

Section EmptyClaim.
Context `{JSRuntime}.

Lemma sync_loop_nil fuel tenantId batchSize attributes count w :
  sync_loop fuel tenantId batchSize attributes [] count w
  = (Returned count, w).
Proof. by destruct fuel. Qed.

Lemma sync_loop_returns fuel tenantId batchSize attributes memberIds count
    w n w' :
  sync_loop fuel tenantId batchSize attributes memberIds count w
  = (Returned n, w') →
  ∃ evs,
    trace w' = trace w ++ evs
    ∧ (memberIds = [] → evs = [])
    ∧ (memberIds ≠ [] →
       ∃ pages, claims evs = pages ++ [[]]
                ∧ Forall (λ ids, ids ≠ []) pages
                ∧ last evs
                  = Some (EvGetTenantMembersForSync tenantId 1 batchSize [])).
Proof.
  revert memberIds count w.
  induction fuel as [|fuel IH]; intros memberIds count w;
    (destruct (decide (memberIds = [])) as [->|Hne];
     [rewrite sync_loop_nil; intros [= <- <-]; exists [];
      by rewrite app_nil_r|]).
  - by destruct memberIds.
  - rewrite sync_loop_nonempty by done.
    intros (allMembers & w1 & Hget & Hrest)%bind_returned.
    apply bind_returned in Hrest as (count' & w2 & Hbody & Hrest).
    apply bind_returned in Hrest as (memberIds' & w3 & Hclaim & Hloop).
    assert (Hget' : ∃ evs, trace w1 = trace w ++ evs ∧ claims evs = []).
    { revert Hget. by apply no_claims_collaborator. }
    assert (Hbody' : ∃ evs, trace w2 = trace w1 ++ evs ∧ claims evs = []).
    { revert Hbody. generalize count' w2. generalize w1.
      change (no_claims
        (if bool_decide (0 < length (groupBy allMembers m_id)) then
           prepared ← lift (for_of (prepare (groupBy allMembers m_id)
                                      attributes) []
                              (groupBy allMembers m_id).*1);
           bulkIndex prepared;;
           markSynced (groupBy allMembers m_id).*1;;
           mret (count + length (groupBy allMembers m_id).*1)
         else mret count)).
      case_bool_decide; [|apply no_claims_ret].
      apply no_claims_bind; [apply no_claims_lift|]. intros prepared.
      apply no_claims_bind; [by apply no_claims_collaborator|]. intros _.
      apply no_claims_bind; [by apply no_claims_collaborator|]. intros _.
      apply no_claims_ret. }
    apply collaborator_returned in Hclaim as [Hids ->]. simpl in Hids.
    destruct Hget' as (evs1 & Htr1 & Hc1).
    destruct Hbody' as (evs2 & Htr2 & Hc2).
    destruct (IH _ _ _ Hloop) as (evs4 & Htr4 & Hempty & Hpages).
    set (claim := EvGetTenantMembersForSync tenantId 1 batchSize memberIds').
    exists (evs1 ++ evs2 ++ [claim] ++ evs4).
    split; [|split; [done|]].
    { rewrite Htr4. cbn [log trace snd]. rewrite Htr2, Htr1.
      rewrite <- !app_assoc. subst claim. by rewrite Hids. }
    intros _. rewrite !claims_app, Hc1, Hc2. cbn [app].
    destruct (decide (memberIds' = [])) as [Hnil|Hnonnil].
    + rewrite (Hempty Hnil). exists []. subst claim. rewrite Hnil. simpl.
      split; [done|]. split; [done|].
      by rewrite !last_app.
    + destruct (Hpages Hnonnil) as (pages & Hc4 & Hall & Hlast).
      exists (memberIds' :: pages). rewrite Hc4. simpl. split; [done|].
      split; [by apply Forall_cons|].
      by rewrite !last_app, last_cons, Hlast.
Qed.

End EmptyClaim.

(** C6. The full-resync loop ends exactly when a claim of pending ids
    returns an empty batch, and on nothing else: a run that returns has
    made claims that were all non-empty except the last one, the empty
    claim it ends on, so a claim of fewer than [batchSize] ids, but more
    than zero, does not end the loop.  When every claimed id has snapshots
    that flatten and is marked synced (no call throws), claiming in pages
    of size [batchSize] ends after [ceil (count / batchSize)] non-empty
    pages. *)
Theorem full_resync_ends_on_empty_claim `{JSRuntime}
    (fuel : nat) (tenantId : string) (reset : bool) (batchSize : nat)
    (w : World) :
  (∀ memberIds count,
     sync_loop fuel tenantId batchSize (db_attributes w tenantId) memberIds
       count w = (Returned count, w)
     ↔ memberIds = [])
  ∧ (∀ n w',
       syncTenantMembers fuel tenantId reset batchSize w = (Returned n, w') →
       ∃ pages,
         claims (events_since w w') = pages ++ [[]]
         ∧ Forall (λ ids, ids ≠ []) pages
         ∧ last (trace w')
           = Some (EvGetTenantMembersForSync tenantId 1 batchSize []))
  ∧ (let queue := initial_queue w tenantId reset in
     fault_free w →
     0 < batchSize →
     NoDup queue →
     flattenable w tenantId queue →
     ceil_div (length queue) batchSize ≤ fuel →
     ∃ w',
       syncTenantMembers fuel tenantId reset batchSize w
       = (Returned (length queue), w')
       ∧ nonempty_pages (events_since w w')
         = ceil_div (length queue) batchSize
       ∧ pending_of w' tenantId = []
       ∧ ∀ id, id ∈ queue → is_Some (os_members w' !! id)).
Proof.
  split; [|split].
  - intros memberIds count. split; [|intros ->; apply sync_loop_nil].
    intros Hrun. destruct (decide (memberIds = [])) as [|Hne]; [done|].
    destruct (sync_loop_returns _ _ _ _ _ _ _ _ _ Hrun)
      as (evs & Htr & _ & Hpages).
    destruct (Hpages Hne) as (pages & Hclaims & _).
    assert (evs = []) as ->.
    { apply (f_equal length) in Htr. rewrite length_app in Htr.
      destruct evs; [done|simpl in Htr; lia]. }
    by destruct pages.
  - intros n w' Hrun. unfold syncTenantMembers in Hrun.
    apply bind_returned in Hrun as ([] & w0 & Hset & Hrun).
    apply bind_returned in Hrun as (attributes & w1 & Hattr & Hrun).
    apply bind_returned in Hrun as (memberIds & w2 & Hclaim & Hloop).
    assert (Hnc : no_claims (if reset then setTenanMembersForSync tenantId
                             else mret ())).
    { destruct reset; [by apply no_claims_collaborator|apply no_claims_ret]. }
    destruct (Hnc _ _ _ Hset) as (evs0 & Htr0 & Hc0).
    apply collaborator_returned in Hattr as [_ ->].
    apply collaborator_returned in Hclaim as [Hids ->].
    cbn [fst snd] in *.
    destruct (sync_loop_returns _ _ _ _ _ _ _ _ _ Hloop)
      as (evs4 & Htr4 & Hempty & Hpages).
    cbn [log trace] in Htr4.
    set (claim := EvGetTenantMembersForSync tenantId 1 batchSize memberIds)
      in *.
    assert (Htr : trace w'
                  = trace w ++ evs0
                    ++ [EvGetTenantMemberAttributes tenantId; claim] ++ evs4).
    { rewrite Htr4, Htr0. by rewrite <- !app_assoc. }
    unfold events_since. rewrite Htr, drop_app_length, !claims_app, Hc0.
    cbn [app claims omap]. fold (claims evs4).
    destruct (decide (memberIds = [])) as [Hnil|Hnonnil].
    + rewrite (Hempty Hnil). exists []. subst claim. rewrite Hnil.
      split; [done|]. split; [done|]. by rewrite !last_app.
    + destruct (Hpages Hnonnil) as (pages & Hc4 & Hall & Hlast).
      exists (memberIds :: pages). subst claim. simpl. rewrite Hc4.
      split; [done|]. split; [by apply Forall_cons|].
      by rewrite !last_app, !last_cons, Hlast.
  - intros queue Hf HB Hnd Hflat Hfuel. unfold syncTenantMembers.
    set (w0 := if reset
               then log (EvSetTenanMembersForSync tenantId)
                      (with_pending
                         (<[tenantId :=
                              (filter (λ m, m.1 = tenantId) (db_members w)).*2]>
                            (db_pending w)) w)
               else w).
    assert (Hset : (if reset then setTenanMembersForSync tenantId
                    else mret ()) w = (Returned (), w0)).
    { subst w0. destruct reset; [|done]. unfold setTenanMembersForSync.
      by rewrite collaborator_run by apply Hf. }
    assert (Hq0 : pending_of w0 tenantId = queue).
    { subst w0 queue. unfold initial_queue, pending_of.
      destruct reset; [|done]. cbn [log with_pending db_pending].
      by rewrite lookup_insert_eq. }
    assert (Hw0 : fault_free w0 ∧ db_snapshots w0 = db_snapshots w
                  ∧ clock w0 = clock w ∧ db_attributes w0 = db_attributes w
                  ∧ os_members w0 = os_members w
                  ∧ ∃ evs0, trace w0 = trace w ++ evs0 ∧ claims evs0 = []).
    { subst w0. destruct reset; repeat split; try done.
      - by eexists [_].
      - exists []. by rewrite app_nil_r. }
    destruct Hw0 as (Hf0 & Hsnap0 & Hclk0 & Hattr0 & Hidx0 & evs0 & Htr0 & Hc0).
    rewrite bind_run, Hset. rewrite bind_run.
    unfold getTenantMemberAttributes. rewrite collaborator_run by apply Hf0.
    cbn [fst snd]. rewrite bind_run. unfold getTenantMembersForSync.
    rewrite collaborator_run by apply Hf0. cbn [fst snd log db_pending].
    fold (pending_of w0 tenantId). rewrite Hq0.
    change ((1 - 1) * batchSize) with 0. rewrite drop_0.
    set (w2 := log _ (log _ w0)).
    destruct (sync_loop_drains fuel tenantId batchSize queue 0 w2)
      as (w' & evs & Hrun & Htr & Hpages & Hq' & Hidx); try done.
    { intros id Hid. subst w2. cbn [log db_snapshots clock db_attributes].
      rewrite Hsnap0, Hclk0, Hattr0. by apply Hflat. }
    exists w'. subst w2. cbn [log db_attributes] in Hrun. rewrite Hrun.
    split; [done|]. split; [|split; [done|]].
    + unfold nonempty_pages, events_since. rewrite Htr. cbn [log trace].
      rewrite Htr0, <- !app_assoc, drop_app_length, !claims_app, Hc0.
      exact Hpages.
    + intros id Hid. apply Hidx. by left.
Qed.

Lemma full_resync_ends_on_empty_claim_witness :
  let queue := initial_queue resync_world "T" true in
  fault_free resync_world
  ∧ 0 < 2
  ∧ NoDup queue
  ∧ flattenable (H := no_text_runtime) resync_world "T" queue
  ∧ ceil_div (length queue) 2 ≤ 5
  ∧ ∃ w',
      syncTenantMembers (H := no_text_runtime) 5 "T" true 2 resync_world
      = (Returned 3, w')
      ∧ nonempty_pages (events_since resync_world w') = 2
      ∧ pending_of w' "T" = []
      ∧ ∀ id, id ∈ queue → is_Some (os_members w' !! id).
Proof.
  intros queue.
  assert (Hqueue : queue = ["A"; "B"; "C"]) by reflexivity.
  assert (Hf : fault_free resync_world) by (intros n; reflexivity).
  assert (Hnd : NoDup queue) by (rewrite Hqueue; compute_done).
  assert (Hflat : flattenable (H := no_text_runtime) resync_world "T" queue).
  { intros id Hid. rewrite Hqueue in Hid.
    repeat (apply elem_of_cons in Hid as [->|Hid]);
      [eexists; vm_compute; reflexivity..|by apply elem_of_nil in Hid]. }
  assert (Hfuel : ceil_div (length queue) 2 ≤ 5)
    by (rewrite Hqueue; vm_compute; lia).
  split; [exact Hf|]. split; [lia|]. split; [exact Hnd|].
  split; [exact Hflat|]. split; [exact Hfuel|].
  exact (proj2 (proj2 (@full_resync_ends_on_empty_claim no_text_runtime
                         5 "T" true 2 resync_world))
           Hf ltac:(lia) Hnd Hflat Hfuel).
Defined.

(** * Properties of the cleanup *)

#[local] Instance hit_le_total : Total hit_le.
Proof. intros h1 h2. unfold hit_le. lia. Qed.

#[local] Instance hit_le_transitive : Transitive hit_le.
Proof. intros h1 h2 h3. unfold hit_le. lia. Qed.

(** ** Removing a list of ids *)

Lemma lookup_delete_all (m : gmap string Document) (l : list string) i :
  foldl (λ m id, delete id m) m l !! i
  = if decide (i ∈ l) then None else m !! i.
Proof.
  revert m. induction l as [|id l IH]; intros m.
  - destruct (decide (i ∈ [])) as [Hi|Hi]; [by apply elem_of_nil in Hi|done].
  - cbn [foldl]. rewrite IH.
    destruct (decide (i ∈ l)) as [Hil|Hil];
      destruct (decide (i ∈ id :: l)) as [Hi|Hi]; try done.
    + exfalso. apply Hi. by right.
    + apply elem_of_cons in Hi as [->|?]; [|done]. apply lookup_delete_eq.
    + apply lookup_delete_ne. intros ->. apply Hi. by left.
Qed.

Lemma remove_all_run (l : list string) (w : World) :
  fault_free w →
  ∃ w',
    for_await removeMember l w = (Returned (), w')
    ∧ os_members w' = foldl (λ m id, delete id m) (os_members w) l
    ∧ trace w' = trace w ++ (EvRemoveFromIndex <$> l)
    ∧ fault_free w'
    ∧ db_members w' = db_members w.
Proof.
  revert w. induction l as [|id l IH]; intros w Hf; simpl.
  - exists w. by rewrite app_nil_r.
  - rewrite bind_run. unfold removeMember at 1, removeFromIndex.
    rewrite collaborator_run by apply Hf. cbn [fst snd].
    set (w1 := log _ _).
    destruct (IH w1) as (w' & Hrun & Hidx & Htr & Hf' & Hmem).
    { intros n. apply Hf. }
    exists w'. split; [exact Hrun|]. subst w1.
    cbn [log with_index os_members trace db_members] in *.
    rewrite Hidx, Htr, <- app_assoc. by repeat split.
Qed.

(** ** A page of a search *)

Lemma search_hits_unfold idx tenantId pageSize c :
  search_hits idx tenantId pageSize c
  = take pageSize
      (merge_sort hit_le
         (hit_of <$> filter (tenant_after tenantId c) (map_to_list idx))).
Proof. reflexivity. Qed.

Section Page.
Context (idx : gmap string Document) (tenantId : string)
        (c : option timestamp).

Let sorted : list ISearchHit :=
  merge_sort hit_le
    (hit_of <$> filter (tenant_after tenantId c) (map_to_list idx)).

Lemma elem_of_sorted h :
  h ∈ sorted ↔
  ∃ id d, h = hit_of (id, d) ∧ idx !! id = Some d
          ∧ tenant_after tenantId c (id, d).
Proof.
  unfold sorted. rewrite merge_sort_Permutation, list_elem_of_fmap. split.
  - intros ([id d] & -> & Hin). apply list_elem_of_filter in Hin as [Hp Hin].
    apply elem_of_map_to_list in Hin. by exists id, d.
  - intros (id & d & -> & Hlook & Hp). exists (id, d). split; [done|].
    apply list_elem_of_filter. split; [done|]. by apply elem_of_map_to_list.
Qed.

Lemma sorted_StronglySorted : StronglySorted hit_le sorted.
Proof. apply StronglySorted_merge_sort; apply _. Qed.

Lemma sorted_ids_NoDup : NoDup (_id <$> sorted).
Proof.
  unfold sorted. rewrite merge_sort_Permutation, <- list_fmap_compose.
  eapply sublist_NoDup; [apply (NoDup_fst_map_to_list idx)|].
  apply fmap_sublist, sublist_filter.
Qed.

Lemma sorted_NoDup : NoDup sorted.
Proof. apply (NoDup_fmap_1 _id), sorted_ids_NoDup. Qed.

Lemma sorted_keys_StronglySorted :
  StronglySorted Z.le (_source_date_joinedAt <$> sorted).
Proof.
  apply (StronglySorted_fmap _ hit_le); [done|apply sorted_StronglySorted].
Qed.

(** Without a tie across the boundary, the page holds exactly the matching
    documents up to the sort key of its last hit. *)
Lemma page_spec_untied pageSize r h :
  no_tie_across_pages pageSize (_source_date_joinedAt <$> sorted) →
  last (take pageSize sorted) = Some r →
  h ∈ take pageSize sorted ↔
  h ∈ sorted ∧ (_source_date_joinedAt h ≤ _source_date_joinedAt r)%Z.
Proof.
  intros Huntied Hlast.
  assert (Hr : r ∈ take pageSize sorted) by by apply last_Some_elem_of.
  pose proof sorted_StronglySorted as Hsorted.
  rewrite <- (take_drop pageSize sorted) in Hsorted.
  split.
  - intros Hh. split; [by apply (subseteq_take pageSize sorted)|].
    apply last_Some in Hlast as [init Hinit].
    apply StronglySorted_app_1_l in Hsorted. rewrite Hinit in Hsorted, Hh.
    apply elem_of_app in Hh as [Hh|Hh%list_elem_of_singleton].
    + apply (StronglySorted_app_1_elem_of hit_le _ _ h r Hsorted Hh).
      by apply list_elem_of_singleton.
    + subst h. lia.
  - intros [Hh Hle].
    rewrite <- (take_drop pageSize sorted) in Hh.
    apply elem_of_app in Hh as [Hh|Hh]; [done|]. exfalso.
    destruct (drop pageSize sorted) as [|h0 tl] eqn:Hdrop;
      [by apply elem_of_nil in Hh|].
    assert (Hlen : pageSize < length sorted).
    { apply (f_equal length) in Hdrop. rewrite length_drop in Hdrop.
      simpl in Hdrop. lia. }
    assert (Hpos : 0 < pageSize).
    { destruct pageSize; [by apply elem_of_nil in Hr|lia]. }
    assert (H0 : sorted !! pageSize = Some h0).
    { rewrite <- (Nat.add_0_r pageSize), <- lookup_drop. by rewrite Hdrop. }
    assert (H1 : sorted !! (pageSize - 1) = Some r).
    { rewrite last_lookup, length_take_le in Hlast by lia.
      rewrite lookup_take_lt in Hlast by lia.
      by replace (pageSize - 1) with (pred pageSize) by lia. }
    assert (Hlt : (_source_date_joinedAt r < _source_date_joinedAt h0)%Z).
    { apply (Huntied 1); [lia| |]; rewrite list_lookup_fmap.
      - replace (1 * pageSize - 1) with (pageSize - 1) by lia.
        by rewrite H1.
      - replace (1 * pageSize) with pageSize by lia. by rewrite H0. }
    assert (Hge : hit_le h0 h).
    { apply StronglySorted_app_1_r in Hsorted.
      apply elem_of_cons in Hh as [->|Hh]; [unfold hit_le; lia|].
      apply StronglySorted_inv in Hsorted as [_ Hall].
      rewrite Forall_forall in Hall. by apply Hall. }
    unfold hit_le in Hge. lia.
Qed.

Hypothesis Hdistinct : sort_key_injective tenantId idx.

Lemma sorted_key_inj h1 h2 :
  h1 ∈ sorted → h2 ∈ sorted →
  _source_date_joinedAt h1 = _source_date_joinedAt h2 → h1 = h2.
Proof using Hdistinct.
  intros (i & d1 & -> & Hl1 & [Ht1 _])%elem_of_sorted
         (j & d2 & -> & Hl2 & [Ht2 _])%elem_of_sorted Hkey.
  simpl in *. assert (i = j) as -> by by eapply Hdistinct.
  by simplify_eq.
Qed.

(** The page holds exactly the matching documents up to the sort key of
    its last hit. *)
Lemma page_spec pageSize r h :
  last (take pageSize sorted) = Some r →
  h ∈ take pageSize sorted ↔
  h ∈ sorted ∧ (_source_date_joinedAt h ≤ _source_date_joinedAt r)%Z.
Proof using Hdistinct.
  intros Hlast.
  assert (Hr : r ∈ take pageSize sorted) by by apply last_Some_elem_of.
  pose proof sorted_StronglySorted as Hsorted.
  pose proof sorted_NoDup as Hnd.
  rewrite <- (take_drop pageSize sorted) in Hsorted, Hnd.
  split.
  - intros Hh. split; [by apply (subseteq_take pageSize sorted)|].
    apply last_Some in Hlast as [init Hinit].
    apply StronglySorted_app_1_l in Hsorted. rewrite Hinit in Hsorted, Hh.
    apply elem_of_app in Hh as [Hh|Hh%list_elem_of_singleton].
    + apply (StronglySorted_app_1_elem_of hit_le _ _ h r Hsorted Hh).
      by apply list_elem_of_singleton.
    + subst h. lia.
  - intros [Hh Hle].
    rewrite <- (take_drop pageSize sorted) in Hh.
    apply elem_of_app in Hh as [Hh|Hh]; [done|].
    pose proof (StronglySorted_app_1_elem_of hit_le _ _ r h Hsorted Hr Hh)
      as Hrh.
    unfold hit_le in Hrh.
    assert (h = r) as ->.
    { apply sorted_key_inj; [|by apply (subseteq_take pageSize sorted)|lia].
      by apply (subseteq_drop pageSize sorted). }
    apply NoDup_app in Hnd as (_ & Hdisj & _). by destruct (Hdisj r).
Qed.

End Page.

Lemma after_mono c x y : after c x → (x ≤ y)%Z → after c y.
Proof. destruct c; simpl; [lia|done]. Qed.

(** ** Pages without a tie across their boundary *)

Lemma StronglySorted_lookup_lt {A} (R : relation A) (l : list A) i j x y :
  StronglySorted R l → i < j → l !! i = Some x → l !! j = Some y → R x y.
Proof.
  intros Hsorted Hij Hi Hj. rewrite <- (take_drop j l) in Hsorted.
  apply (StronglySorted_app_1_elem_of R _ _ x y Hsorted).
  - apply (list_elem_of_lookup_2 _ i). by rewrite lookup_take_lt.
  - apply (list_elem_of_lookup_2 _ 0). by rewrite lookup_drop, Nat.add_0_r.
Qed.

Lemma no_tie_across_pages_drop pageSize keys :
  no_tie_across_pages pageSize keys →
  no_tie_across_pages pageSize (drop pageSize keys).
Proof.
  intros Huntied k t1 t2 Hk. rewrite !lookup_drop. intros H1 H2.
  apply (Huntied (S k)); [lia| |].
  - replace (S k * pageSize - 1) with (pageSize + (k * pageSize - 1));
      [done|]. nia.
  - replace (S k * pageSize) with (pageSize + k * pageSize); [done|]. lia.
Qed.

(** Distinct sort keys leave no tie anywhere. *)
Lemma distinct_keys_untied tenantId c idx pageSize :
  0 < pageSize →
  sort_key_injective tenantId idx →
  no_tie_across_pages pageSize
    (_source_date_joinedAt <$> hits_after tenantId c idx).
Proof.
  intros Hpos Hinj k t1 t2 Hk. rewrite !list_lookup_fmap.
  destruct (hits_after tenantId c idx !! (k * pageSize - 1)) as [h1|] eqn:H1;
    [|done].
  destruct (hits_after tenantId c idx !! (k * pageSize)) as [h2|] eqn:H2;
    [|done].
  intros [= <-] [= <-].
  assert (Hlt : k * pageSize - 1 < k * pageSize) by nia.
  pose proof (StronglySorted_lookup_lt hit_le _ _ _ _ _
                (sorted_StronglySorted idx tenantId c) Hlt H1 H2) as Hle.
  unfold hit_le in Hle.
  destruct (decide (_source_date_joinedAt h1 = _source_date_joinedAt h2))
    as [Heq|Hne]; [|lia].
  apply (sorted_key_inj idx tenantId c Hinj) in Heq;
    [|by eapply list_elem_of_lookup_2..].
  subst h2.
  pose proof (NoDup_lookup _ _ _ _ (sorted_NoDup idx tenantId c) H1 H2). lia.
Qed.

(** The sort keys a search goes through are the sort keys of the tenant. *)
Lemma hits_after_None_keys tenantId idx :
  _source_date_joinedAt <$> hits_after tenantId None idx
  = sort_keys tenantId idx.
Proof.
  apply (StronglySorted_unique Z.le).
  - apply sorted_keys_StronglySorted.
  - apply StronglySorted_merge_sort; apply _.
  - unfold hits_after, sort_keys. rewrite !merge_sort_Permutation.
    rewrite <- list_fmap_compose.
    rewrite (list_filter_iff (tenant_after tenantId None)
               (λ kv, uuid_tenantId kv.2 = tenantId));
      [done|]. intros kv. unfold tenant_after. simpl. tauto.
Qed.

(** After a page without a tie at its end and the removal of some of its
    documents, the search from the sort key of its last hit goes through
    the documents that were left after the page. *)
Lemma next_page_hits idx idx1 tenantId c r (toRemove : list string) :
  no_tie_across_pages 500
    (_source_date_joinedAt <$> hits_after tenantId c idx) →
  last (take 500 (hits_after tenantId c idx)) = Some r →
  (∀ id, idx1 !! id = if decide (id ∈ toRemove) then None else idx !! id) →
  (∀ id, id ∈ toRemove → id ∈ _id <$> take 500 (hits_after tenantId c idx)) →
  hits_after tenantId (Some (_source_date_joinedAt r)) idx1
  ≡ₚ drop 500 (hits_after tenantId c idx).
Proof.
  intros Huntied Hlast Hlook1 Hsub.
  pose proof (sorted_NoDup idx tenantId c) as Hnd. fold (hits_after tenantId c idx) in Hnd.
  assert (Hr : r ∈ hits_after tenantId c idx)
    by (eapply (subseteq_take 500), last_Some_elem_of, Hlast).
  apply elem_of_sorted in Hr as (idr & dr & -> & Hlookr & [_ Hcr]).
  cbn [hit_of _source_date_joinedAt snd] in *.
  assert (Hpage : ∀ h, h ∈ take 500 (hits_after tenantId c idx) ↔
            h ∈ hits_after tenantId c idx
            ∧ (_source_date_joinedAt h ≤ date_joinedAt dr)%Z).
  { intros h. apply (page_spec_untied idx tenantId c 500 _ h Huntied Hlast). }
  apply NoDup_Permutation.
  - apply sorted_NoDup.
  - eapply sublist_NoDup; [exact Hnd|apply sublist_drop].
  - intros h.
    assert (Hdrop : h ∈ drop 500 (hits_after tenantId c idx) ↔
              h ∈ hits_after tenantId c idx
              ∧ h ∉ take 500 (hits_after tenantId c idx)).
    { rewrite <- (take_drop 500 (hits_after tenantId c idx)) in Hnd.
      apply NoDup_app in Hnd as (_ & Hdisj & _). split.
      - intros Hh. split; [by apply (subseteq_drop 500)|].
        intros Hin. by apply (Hdisj h).
      - intros [Hh Hnot].
        rewrite <- (take_drop 500 (hits_after tenantId c idx)) in Hh.
        by apply elem_of_app in Hh as [?|?]. }
    rewrite Hdrop. unfold hits_after at 1. rewrite elem_of_sorted. split.
    + intros (id & d & -> & Hlook & [Ht Hd]). simpl in Ht, Hd.
      rewrite Hlook1 in Hlook.
      destruct (decide (id ∈ toRemove)); [done|]. split.
      * apply elem_of_sorted. exists id, d. repeat (split; [done|]).
        simpl. eapply after_mono; [exact Hcr|lia].
      * intros [_ Hle]%Hpage. simpl in Hle. lia.
    + intros [Hh Hnot].
      pose proof Hh as Hh'.
      apply elem_of_sorted in Hh' as (id & d & -> & Hlook & [Ht Hc]).
      simpl in Ht, Hc.
      exists id, d. split; [done|]. split.
      * rewrite Hlook1. rewrite decide_False; [done|].
        intros (h' & Hid & Hh')%Hsub%list_elem_of_fmap.
        pose proof Hh' as Hin'. apply (subseteq_take 500) in Hin'.
        apply elem_of_sorted in Hin' as (id' & d' & -> & Hlook' & _).
        simpl in Hid. subst id'. by simplify_eq.
      * split; [done|]. simpl.
        destruct (decide (date_joinedAt d ≤ date_joinedAt dr)%Z) as [Hle|?];
          [|lia].
        exfalso. apply Hnot, Hpage. by split.
Qed.

Lemma next_page_untied idx idx1 tenantId c r (toRemove : list string) :
  no_tie_across_pages 500
    (_source_date_joinedAt <$> hits_after tenantId c idx) →
  last (take 500 (hits_after tenantId c idx)) = Some r →
  (∀ id, idx1 !! id = if decide (id ∈ toRemove) then None else idx !! id) →
  (∀ id, id ∈ toRemove → id ∈ _id <$> take 500 (hits_after tenantId c idx)) →
  no_tie_across_pages 500
    (_source_date_joinedAt
       <$> hits_after tenantId (Some (_source_date_joinedAt r)) idx1).
Proof.
  intros Huntied Hlast Hlook1 Hsub.
  assert (_source_date_joinedAt
            <$> hits_after tenantId (Some (_source_date_joinedAt r)) idx1
          = drop 500 (_source_date_joinedAt <$> hits_after tenantId c idx))
    as ->; [|by apply no_tie_across_pages_drop].
  apply (StronglySorted_unique Z.le).
  - apply sorted_keys_StronglySorted.
  - pose proof (sorted_keys_StronglySorted idx tenantId c) as Hsorted.
    fold (hits_after tenantId c idx) in Hsorted.
    rewrite <- (take_drop 500 (_ <$> _)) in Hsorted.
    by apply StronglySorted_app_1_r in Hsorted.
  - rewrite <- fmap_drop. apply fmap_Permutation.
    by apply (next_page_hits idx idx1 tenantId c r toRemove).
Qed.

Lemma removed_ids_app evs1 evs2 :
  removed_ids (evs1 ++ evs2) = removed_ids evs1 ++ removed_ids evs2.
Proof. unfold removed_ids. apply omap_app. Qed.

Lemma removed_ids_removes l : removed_ids (EvRemoveFromIndex <$> l) = l.
Proof. induction l as [|id l IH]; [done|]. simpl. f_equal. apply IH. Qed.

Lemma for_await_guarded {A} (body : A → M unit) (l : list A) :
  (if bool_decide (0 < length l) then for_await body l else mret ())
  = for_await body l.
Proof. destruct l; [done|]. rewrite bool_decide_true; [done|simpl; lia]. Qed.

Lemma cleanup_loop_nil fuel tenantId pageSize processed w :
  cleanup_loop fuel tenantId pageSize [] processed w = (Returned processed, w).
Proof. by destruct fuel. Qed.

(** One page: the check, the removals, and the next search. *)
Lemma cleanup_loop_step fuel tenantId results r processed w :
  fault_free w →
  last results = Some r →
  let ids := _id <$> results in
  let dbIds := filter (λ id, (tenantId, id) ∈ db_members w) ids in
  let toRemove := filter (λ id, id ∉ dbIds) ids in
  let idx1 := foldl (λ m id, delete id m) (os_members w) toRemove in
  let c' := Some (_source_date_joinedAt r) in
  ∃ w3,
    cleanup_loop (S fuel) tenantId 500 results processed w
    = cleanup_loop fuel tenantId 500 (search_hits idx1 tenantId 500 c')
        (processed + length results) w3
    ∧ os_members w3 = idx1
    ∧ trace w3
      = trace w
        ++ EvCheckMembersExists tenantId ids dbIds
           :: (EvRemoveFromIndex <$> toRemove)
        ++ [EvSearch tenantId 500 c' (search_hits idx1 tenantId 500 c')]
    ∧ fault_free w3
    ∧ db_members w3 = db_members w.
Proof.
  intros Hf Hlast ids dbIds toRemove idx1 c'.
  destruct results as [|h results]; [done|].
  cbn [cleanup_loop]. rewrite Hlast.
  rewrite bind_run. unfold checkMembersExists.
  rewrite collaborator_run by apply Hf. cbn [fst snd].
  fold ids. fold dbIds. fold toRemove.
  rewrite bind_run, for_await_guarded.
  destruct (remove_all_run toRemove
              (log (EvCheckMembersExists tenantId ids dbIds) w))
    as (w2 & Hrun & Hidx & Htr & Hf2 & Hmem); [intros n; apply Hf|].
  rewrite Hrun. rewrite bind_run. unfold search.
  rewrite collaborator_run by apply Hf2. cbn [fst snd].
  rewrite Hidx. cbn [log os_members]. fold idx1.
  eexists. split; [reflexivity|].
  cbn [log os_members trace db_members faults].
  rewrite Hidx, Htr, Hmem. cbn [log os_members trace db_members].
  rewrite <- !app_assoc. repeat split; try done.
Qed.

(** The scan from a cursor on, when no two equal sort keys lie across a
    page boundary: it ends, follows the page protocol, and removes exactly
    the orphans after the cursor. *)
Lemma cleanup_loop_spec_untied fuel tenantId c processed w :
  fault_free w →
  no_tie_across_pages 500
    (_source_date_joinedAt <$> hits_after tenantId c (os_members w)) →
  size (filter (tenant_after tenantId c) (os_members w)) ≤ fuel →
  ∃ n w' evs,
    cleanup_loop fuel tenantId 500
      (search_hits (os_members w) tenantId 500 c) processed w
    = (Returned n, w')
    ∧ trace w' = trace w ++ evs
    ∧ cleanup_pages tenantId c
        (EvSearch tenantId 500 c (search_hits (os_members w) tenantId 500 c)
         :: evs)
    ∧ os_members w'
      = filter (λ kv, ¬ (tenant_after tenantId c kv
                         ∧ (tenantId, kv.1) ∉ db_members w))
               (os_members w)
    ∧ NoDup (removed_ids evs)
    ∧ (∀ id, id ∈ removed_ids evs ↔
             ∃ d, os_members w !! id = Some d
                  ∧ tenant_after tenantId c (id, d)
                  ∧ (tenantId, id) ∉ db_members w).
Proof.
  revert c processed w.
  induction fuel as [|fuel IH]; intros c processed w Hf Hdist Hsize;
    set (idx := os_members w) in *;
    set (page := search_hits idx tenantId 500 c);
    (destruct (last page) as [r|] eqn:Hlast;
     [|apply last_None in Hlast]).
  2,4: (* the page is empty *)
    assert (Hnone : ∀ id d, idx !! id = Some d →
              ¬ tenant_after tenantId c (id, d));
    [ intros id d Hlook Hp;
      assert (Hin : hit_of (id, d)
                    ∈ merge_sort hit_le
                        (hit_of <$> filter (tenant_after tenantId c)
                                      (map_to_list idx)))
        by (apply elem_of_sorted; by exists id, d);
      unfold page in Hlast; rewrite search_hits_unfold in Hlast;
      apply take_nil_inv in Hlast as [?|Hnil]; [done|];
      rewrite Hnil in Hin; by apply elem_of_nil in Hin
    | rewrite Hlast, cleanup_loop_nil; exists processed, w, [];
      rewrite app_nil_r; split; [done|]; split; [done|];
      split; [apply cleanup_done|]; split;
      [ symmetry; apply map_filter_id; intros id d Hlook [Hp _];
        by apply (Hnone id d)
      | split; [apply NoDup_nil_2|]; intros id; split;
        [ by intros ?%elem_of_nil
        | intros (d & Hlook & Hp & _); by destruct (Hnone id d) ] ] ].
  all: pose proof Hlast as Hlast';
    unfold page in Hlast'; rewrite search_hits_unfold in Hlast';
    assert (Hr : r ∈ merge_sort hit_le
                     (hit_of <$> filter (tenant_after tenantId c)
                                   (map_to_list idx)))
      by (eapply (subseteq_take 500), last_Some_elem_of, Hlast');
    apply elem_of_sorted in Hr as (idr & dr & -> & Hlookr & Hpr).
  - (* no fuel, yet a document to scan *)
    exfalso. apply Nat.le_0_r in Hsize. apply map_size_empty_iff in Hsize.
    assert (Hin : filter (tenant_after tenantId c) idx !! idr = Some dr)
      by by apply map_lookup_filter_Some.
    by rewrite Hsize, lookup_empty in Hin.
  - destruct (cleanup_loop_step fuel tenantId page (hit_of (idr, dr))
                processed w Hf Hlast)
      as (w3 & Hstep & Hidx3 & Htr3 & Hf3 & Hmem3).
    cbn [hit_of _source_date_joinedAt snd] in *.
    set (ids := _id <$> page) in *.
    set (dbIds := filter (λ id, (tenantId, id) ∈ db_members w) ids) in *.
    set (toRemove := filter (λ id, id ∉ dbIds) ids) in *.
    set (idx1 := foldl (λ m id, delete id m) (os_members w) toRemove) in *.
    set (c' := Some (date_joinedAt dr)) in *.
    fold idx in idx1.
    (* the ids of the page *)
    assert (Hids_1 : ∀ id, id ∈ ids →
              ∃ d, idx !! id = Some d ∧ tenant_after tenantId c (id, d)
                   ∧ (date_joinedAt d ≤ date_joinedAt dr)%Z).
    { intros id (h & -> & Hh)%list_elem_of_fmap. unfold page in Hh.
      rewrite search_hits_unfold in Hh.
      apply (page_spec_untied idx tenantId c 500 _ h Hdist Hlast') in Hh
        as [Hh Hle].
      apply elem_of_sorted in Hh as (id & d & -> & Hlook & Hp).
      by exists d. }
    assert (Hids_2 : ∀ id d, idx !! id = Some d →
              tenant_after tenantId c (id, d) →
              (date_joinedAt d ≤ date_joinedAt dr)%Z → id ∈ ids).
    { intros id d Hlook Hp Hle. apply list_elem_of_fmap.
      exists (hit_of (id, d)). split; [done|]. unfold page.
      rewrite search_hits_unfold.
      apply (page_spec_untied idx tenantId c 500 _ _ Hdist Hlast').
      split; [|done]. apply elem_of_sorted. by exists id, d. }
    assert (Hrem : ∀ id, id ∈ toRemove ↔
              id ∈ ids ∧ (tenantId, id) ∉ db_members w).
    { intros id. unfold toRemove, dbIds. rewrite list_elem_of_filter. split.
      - intros [Hn Hin]. split; [done|]. intros Hm. apply Hn.
        by apply list_elem_of_filter.
      - intros [Hin Hnm]. split; [|done].
        by intros [Hm _]%list_elem_of_filter. }
    assert (Hlook1 : ∀ id, idx1 !! id
                           = if decide (id ∈ toRemove) then None
                             else idx !! id)
      by (intros id; apply lookup_delete_all).
    assert (Hafter : ∀ d, after c' (date_joinedAt d) →
              after c (date_joinedAt d)
              ∧ ¬ (date_joinedAt d ≤ date_joinedAt dr)%Z).
    { intros d Hd. destruct Hpr as [_ Hc]. simpl in Hd, Hc.
      split; [eapply after_mono; [exact Hc|lia]|lia]. }
    (* the induction hypothesis, on the index after the removals *)
    destruct (IH c' (processed + length page) w3)
      as (n & w' & evs & Hrun & Htr & Hprot & Hidx' & Hnd & Hiff).
    { exact Hf3. }
    { rewrite Hidx3.
      apply (next_page_untied idx idx1 tenantId c (hit_of (idr, dr))
               toRemove Hdist Hlast' Hlook1).
      intros id [Hin _]%Hrem. exact Hin. }
    { rewrite Hidx3.
      assert (Hsub : filter (tenant_after tenantId c') idx1
                     ⊆ delete idr (filter (tenant_after tenantId c) idx)).
      { apply map_subseteq_spec. intros i d.
        rewrite map_lookup_filter_Some, Hlook1.
        destruct (decide (i ∈ toRemove)); [by intros [? _]|].
        intros [Hi [Ht Hd]]. simpl in Ht, Hd.
        destruct (Hafter d Hd) as [Hc Hnle].
        rewrite lookup_delete_ne.
        - by apply map_lookup_filter_Some.
        - intros <-. rewrite Hi in Hlookr. injection Hlookr as ->. lia. }
      apply map_subseteq_size in Hsub.
      rewrite map_size_delete_Some in Hsub
        by (eexists; by apply map_lookup_filter_Some).
      lia. }
    rewrite Hidx3, Hmem3 in *.
    exists n, w',
      (EvCheckMembersExists tenantId ids dbIds
       :: (EvRemoveFromIndex <$> toRemove)
       ++ EvSearch tenantId 500 c' (search_hits idx1 tenantId 500 c')
       :: evs).
    split; [by rewrite Hstep|].
    split.
    { rewrite Htr, Htr3. rewrite <- !app_assoc. simpl.
      by rewrite <- !app_assoc. }
    split.
    { by apply (cleanup_page tenantId c page (hit_of (idr, dr)) dbIds). }
    split.
    { rewrite Hidx'. apply map_eq. intros id. apply option_eq. intros d.
      rewrite !map_lookup_filter_Some, Hlook1. simpl. split.
      - destruct (decide (id ∈ toRemove)) as [|Hnot]; [by intros [? _]|].
        intros [Hlook Hkeep]. split; [done|]. intros [[Ht Hc] Hnm].
        destruct (decide (date_joinedAt d ≤ date_joinedAt dr)%Z) as [Hle|Hgt].
        + apply Hnot, Hrem. split; [|done]. by apply (Hids_2 id d).
        + apply Hkeep. split; [|done]. split; [done|]. simpl. lia.
      - intros [Hlook Hkeep]. destruct (decide (id ∈ toRemove)) as [Hin|_].
        + exfalso. apply Hrem in Hin as [Hin Hnm].
          destruct (Hids_1 id Hin) as (d' & Hlook' & Hp & _).
          apply Hkeep. split; [|done]. by simplify_eq.
        + split; [done|]. intros [[Ht Hd] Hnm]. simpl in Hd.
          apply Hkeep. split; [|done]. split; [done|]. by apply Hafter. }
    assert (Hremoved :
      removed_ids
        (EvCheckMembersExists tenantId ids dbIds
         :: (EvRemoveFromIndex <$> toRemove)
         ++ EvSearch tenantId 500 c' (search_hits idx1 tenantId 500 c')
         :: evs)
      = toRemove ++ removed_ids evs).
    { change (removed_ids ((EvRemoveFromIndex <$> toRemove)
                           ++ EvSearch tenantId 500 c'
                                (search_hits idx1 tenantId 500 c') :: evs)
              = toRemove ++ removed_ids evs).
      by rewrite removed_ids_app, removed_ids_removes. }
    rewrite Hremoved. split.
    { apply NoDup_app. split; [|split; [|done]].
      - unfold toRemove. apply NoDup_filter. unfold ids, page.
        rewrite search_hits_unfold.
        eapply sublist_NoDup; [apply (sorted_ids_NoDup idx tenantId c)|].
        apply fmap_sublist, sublist_take.
      - intros id Hin (d & Hlook & _)%Hiff.
        rewrite Hlook1, decide_True in Hlook by done. done. }
    intros id. rewrite elem_of_app, Hrem, Hiff. split.
    + intros [[Hin Hnm]|(d & Hlook & [Ht Hd] & Hnm)].
      * destruct (Hids_1 id Hin) as (d & Hlook & Hp & _). by exists d.
      * rewrite Hlook1 in Hlook.
        destruct (decide (id ∈ toRemove)); [done|].
        exists d. split; [done|]. split; [|done]. split; [done|].
        simpl in Hd. by apply Hafter.
    + intros (d & Hlook & [Ht Hc] & Hnm). simpl in Hc.
      destruct (decide (date_joinedAt d ≤ date_joinedAt dr)%Z) as [Hle|Hgt].
      * left. split; [|done]. by apply (Hids_2 id d).
      * right. exists d. rewrite Hlook1. split; [|split; [|done]].
        -- rewrite decide_False; [done|]. intros [Hin _]%Hrem.
           destruct (Hids_1 id Hin) as (d' & Hlook' & _ & Hle).
           simplify_eq. lia.
        -- split; [done|]. simpl. lia.
Qed.

(** The same scan when the sort keys of the tenant are distinct. *)
Lemma cleanup_loop_spec fuel tenantId c processed w :
  fault_free w →
  sort_key_injective tenantId (os_members w) →
  size (filter (tenant_after tenantId c) (os_members w)) ≤ fuel →
  ∃ n w' evs,
    cleanup_loop fuel tenantId 500
      (search_hits (os_members w) tenantId 500 c) processed w
    = (Returned n, w')
    ∧ trace w' = trace w ++ evs
    ∧ cleanup_pages tenantId c
        (EvSearch tenantId 500 c (search_hits (os_members w) tenantId 500 c)
         :: evs)
    ∧ os_members w'
      = filter (λ kv, ¬ (tenant_after tenantId c kv
                         ∧ (tenantId, kv.1) ∉ db_members w))
               (os_members w)
    ∧ NoDup (removed_ids evs)
    ∧ (∀ id, id ∈ removed_ids evs ↔
             ∃ d, os_members w !! id = Some d
                  ∧ tenant_after tenantId c (id, d)
                  ∧ (tenantId, id) ∉ db_members w).
Proof.
  intros Hf Hinj Hsize. apply cleanup_loop_spec_untied; [done| |done].
  apply distinct_keys_untied; [lia|done].
Qed.

Lemma NoDup_fmap_inj_on {A B} (f : A → B) (l : list A) x y :
  NoDup (f <$> l) → x ∈ l → y ∈ l → f x = f y → x = y.
Proof.
  induction l as [|z l IH]; [by intros _ ?%elem_of_nil|].
  rewrite fmap_cons, NoDup_cons.
  intros [Hz Hnd] [->|Hx]%elem_of_cons [->|Hy]%elem_of_cons Hf; [done| | |].
  - exfalso. apply Hz. rewrite Hf. by apply list_elem_of_fmap_2.
  - exfalso. apply Hz. rewrite <- Hf. by apply list_elem_of_fmap_2.
  - by apply IH.
Qed.

Lemma distinct_sort_keys_injective tenantId idx :
  distinct_sort_keys tenantId idx → sort_key_injective tenantId idx.
Proof.
  intros Hnd i j d1 d2 Hi Hj Ht1 Ht2 Hkey.
  assert (Heq : (i, d1) = (j, d2)); [|by injection Heq].
  apply (NoDup_fmap_inj_on _ _ (i, d1) (j, d2) Hnd); [| |done];
    (apply list_elem_of_filter; split; [done|by apply elem_of_map_to_list]).
Qed.

(** C1 (as amended). For a tenant in whose index no two equal
    [date_joinedAt] values lie across a page boundary (in ascending order
    of the tenant's documents, the value at each position that is a
    multiple of 500 is later than the one just before it; values may be
    equal inside a page), with N index documents of which M ids no longer
    exist in the store, a cleanup pass scans the index in ascending
    [date_joinedAt] order in pages of 500, asks the store for each page
    which of the returned ids still exist, deletes exactly the ids absent
    from that answer, one call per id, moves the cursor to the sort key of
    the last hit of the page, and ends when a page has no hit: it removes
    exactly the M orphan documents and leaves the other N-M untouched. *)
Theorem cleanup_removes_exactly_the_orphans
    (fuel : nat) (tenantId : string) (w : World) :
  fault_free w →
  no_tie_across_pages 500 (sort_keys tenantId (os_members w)) →
  size (os_members w) ≤ fuel →
  ∃ n w',
    cleanupMemberIndex fuel tenantId w = (Returned n, w')
    ∧ cleanup_pages tenantId None (events_since w w')
    ∧ os_members w'
      = filter (λ kv, ¬ orphan w tenantId kv) (os_members w)
    ∧ NoDup (removed_ids (events_since w w'))
    ∧ (∀ id, id ∈ removed_ids (events_since w w') ↔
             ∃ d, os_members w !! id = Some d ∧ orphan w tenantId (id, d))
    ∧ length (removed_ids (events_since w w'))
      = size (filter (orphan w tenantId) (os_members w)).
Proof.
  intros Hf Hdist Hfuel. rewrite <- hits_after_None_keys in Hdist.
  unfold cleanupMemberIndex. cbv zeta.
  set (hits := search_hits (os_members w) tenantId 500 None).
  set (w0 := log (EvSearch tenantId 500 None hits) w).
  destruct (cleanup_loop_spec_untied fuel tenantId None 0 w0)
    as (n & w' & evs & Hrun & Htr & Hprot & Hidx & Hnd & Hiff);
    [intros k; apply Hf|exact Hdist| |].
  { etrans; [apply map_size_filter|exact Hfuel]. }
  exists n, w'. rewrite bind_run. unfold search.
  rewrite collaborator_run by apply Hf. cbn [fst snd]. fold hits. fold w0.
  split; [exact Hrun|].
  assert (Hevs : events_since w w' = EvSearch tenantId 500 None hits :: evs).
  { unfold events_since. rewrite Htr. subst w0. cbn [log trace].
    by rewrite <- app_assoc, drop_app_length. }
  rewrite Hevs.
  change (removed_ids (EvSearch tenantId 500 None hits :: evs))
    with (removed_ids evs).
  assert (Hiff' : ∀ id, id ∈ removed_ids evs ↔
            ∃ d, os_members w !! id = Some d ∧ orphan w tenantId (id, d)).
  { intros id. rewrite Hiff. unfold tenant_after, orphan. simpl.
    split; intros (d & Hlook & Hrest); exists d; (split; [done|]);
      tauto. }
  split; [exact Hprot|]. split; [|split; [exact Hnd|split; [exact Hiff'|]]].
  - rewrite Hidx. apply map_filter_ext. intros id d _.
    unfold tenant_after, orphan. simpl. tauto.
  - rewrite <- length_map_to_list.
    rewrite <- (length_fmap fst (map_to_list _)).
    apply Permutation_length, NoDup_Permutation;
      [exact Hnd|apply NoDup_fst_map_to_list|].
    intros id. rewrite Hiff', list_elem_of_fmap. split.
    + intros (d & Hlook & Horphan). exists (id, d). split; [done|].
      apply elem_of_map_to_list. by apply map_lookup_filter_Some.
    + intros ([id' d] & -> & Hin). apply elem_of_map_to_list in Hin.
      apply map_lookup_filter_Some in Hin as [? ?]. by exists d.
Qed.

(** Three documents that joined at the same instant lie inside one page:
    the pass removes exactly the two orphans among them. *)
Lemma cleanup_removes_exactly_the_orphans_witness :
  fault_free same_instant_world
  ∧ no_tie_across_pages 500 (sort_keys "T" (os_members same_instant_world))
  ∧ ¬ distinct_sort_keys "T" (os_members same_instant_world)
  ∧ size (os_members same_instant_world) ≤ 5
  ∧ ∃ n w',
      cleanupMemberIndex 5 "T" same_instant_world = (Returned n, w')
      ∧ cleanup_pages "T" None (events_since same_instant_world w')
      ∧ os_members w'
        = filter (λ kv, ¬ orphan same_instant_world "T" kv)
                 (os_members same_instant_world)
      ∧ NoDup (removed_ids (events_since same_instant_world w'))
      ∧ (∀ id, id ∈ removed_ids (events_since same_instant_world w') ↔
               ∃ d, os_members same_instant_world !! id = Some d
                    ∧ orphan same_instant_world "T" (id, d))
      ∧ length (removed_ids (events_since same_instant_world w'))
        = size (filter (orphan same_instant_world "T")
                       (os_members same_instant_world)).
Proof.
  assert (Hf : fault_free same_instant_world) by (intros n; reflexivity).
  assert (Hkeys : sort_keys "T" (os_members same_instant_world)
                  = [0; 0; 0]%Z) by (vm_compute; reflexivity).
  assert (Huntied : no_tie_across_pages 500
                      (sort_keys "T" (os_members same_instant_world))).
  { rewrite Hkeys. intros k t1 t2 Hk H1 _.
    apply lookup_lt_Some in H1. simpl in H1. lia. }
  assert (Hsize : size (os_members same_instant_world) ≤ 5)
    by (apply (bool_decide_unpack _); vm_compute; exact I).
  split; [exact Hf|]. split; [exact Huntied|]. split.
  { apply (bool_decide_unpack _). vm_compute. exact I. }
  split; [exact Hsize|].
  exact (cleanup_removes_exactly_the_orphans 5 "T" same_instant_world
           Hf Huntied Hsize).
Defined.

(** Distinct sort keys leave no tie across a page boundary. *)
Lemma distinct_sort_keys_no_tie tenantId idx :
  distinct_sort_keys tenantId idx →
  no_tie_across_pages 500 (sort_keys tenantId idx).
Proof.
  intros Hdist%distinct_sort_keys_injective.
  rewrite <- hits_after_None_keys. apply distinct_keys_untied; [lia|done].
Qed.

(** The pass on three documents that joined at the same instant, run: B
    and C are removed and A stays. *)
Example cleanup_of_same_instant :
  ∃ w',
    cleanupMemberIndex 5 "T" same_instant_world = (Returned 3, w')
    ∧ removed_ids (trace w') = ["B"; "C"]
    ∧ dom (os_members w') = {[ "A" ]}.
Proof.
  eexists. split; [vm_compute; reflexivity|]. split; [reflexivity|].
  by vm_compute.
Qed.

(** The example of the specification, run: B and D are removed, in that
    order, and A and C stay. *)
Example cleanup_of_the_example :
  ∃ w',
    cleanupMemberIndex 5 "T" cleanup_world = (Returned 4, w')
    ∧ removed_ids (trace w') = ["B"; "D"]
    ∧ dom (os_members w') = {[ "A"; "C" ]}.
Proof.
  eexists. split; [vm_compute; reflexivity|]. split; [reflexivity|].
  by vm_compute.
Qed.

(** The claim as it was stated fails when two documents that share a
    [date_joinedAt] value lie across a page boundary: of 501 orphans, the
    last two joined at the same instant, the first page takes 500, the
    cursor moves to the shared value, the next page is empty, and one
    orphan stays in the index. *)
Lemma tie_at_page_boundary_leaves_an_orphan :
  size (os_members tie_world) = 501
  ∧ size (filter (orphan tie_world "T") (os_members tie_world)) = 501
  ∧ ∃ n w' d,
      cleanupMemberIndex 5 "T" tie_world = (Returned n, w')
      ∧ length (removed_ids (trace w')) = 500
      ∧ os_members w' !! "m500" = Some d
      ∧ orphan tie_world "T" ("m500", d).
Proof.
  split; [by vm_compute|]. split; [by vm_compute|].
  eexists _, _, _. split; [vm_compute; reflexivity|].
  split; [by vm_compute|]. split; [vm_compute; reflexivity|].
  split; [reflexivity|]. apply not_elem_of_nil.
Qed.

(** In that index the sort keys at positions 499 and 500 are equal: the
    tie lies across the first page boundary. *)
Example tie_world_has_a_tie_across_pages :
  ¬ no_tie_across_pages 500 (sort_keys "T" (os_members tie_world)).
Proof.
  intros Huntied.
  assert (499 < 499)%Z; [|lia].
  apply (Huntied 1); [lia| |]; vm_compute; reflexivity.
Qed.

(** * Further properties of the flattener *)

Section FlattenerMore.
Context `{JSRuntime}.

Lemma prefix_attribute_absent attData pa a :
  js_in (attr_name a) attData = false → prefix_attribute attData pa a = Ok pa.
Proof. unfold prefix_attribute. by intros ->. Qed.

Lemma for_of_prefix_attribute_filter attData pa attributes :
  for_of (prefix_attribute attData) pa
    (filter (λ a, js_in (attr_name a) attData = true) attributes)
  = for_of (prefix_attribute attData) pa attributes.
Proof.
  revert pa. induction attributes as [|a l IH]; intros pa; [done|].
  rewrite filter_cons. case_decide as Hin.
  - simpl. destruct (prefix_attribute attData pa a); simpl; [apply IH|done].
  - simpl. rewrite prefix_attribute_absent.
    + simpl. apply IH.
    + by destruct (js_in (attr_name a) attData).
Qed.

Lemma prefix_attribute_fields attData pa a pa' field f :
  prefix_attribute attData pa a = Ok pa' →
  pa' !! field = Some f →
  pa !! field = Some f ∨ field_of attData a field f.
Proof.
  intros Hstep Hf.
  destruct (js_in (attr_name a) attData) eqn:Hin.
  2:{ rewrite prefix_attribute_absent in Hstep by done.
      injection Hstep as <-. by left. }
  apply prefix_attribute_inv in Hstep
    as [[Hno _]|[[Hty ->]|[Hty (d & prefix & Hd & Hp & ->)]]].
  - congruence.
  - destruct (decide (field = "string_" +:+ attr_name a)) as [->|Hne].
    + rewrite lookup_insert_eq in Hf. injection Hf as <-.
      right. split; [done|]. left. done.
    + rewrite lookup_insert_ne in Hf by done. by left.
  - destruct (decide (field = "obj_" +:+ attr_name a)) as [->|Hne].
    + rewrite lookup_insert_eq in Hf. injection Hf as <-.
      right. split; [done|]. right. split; [done|]. split; [done|].
      eexists d, prefix, _. repeat (split; [done|]).
      apply prefix_keys_renamed, Object_entries_NoDup.
    + rewrite lookup_insert_ne in Hf by done. by left.
Qed.

Lemma for_of_prefix_attribute_fields attData attributes pa pa' field f :
  for_of (prefix_attribute attData) pa attributes = Ok pa' →
  pa' !! field = Some f →
  pa !! field = Some f
  ∨ ∃ a, a ∈ attributes ∧ field_of attData a field f.
Proof.
  revert pa. induction attributes as [|a l IH]; intros pa; simpl.
  - intros [= <-] ?. by left.
  - destruct (prefix_attribute attData pa a) as [pa1|e] eqn:Hstep; [|done].
    simpl. intros Hrest Hf.
    destruct (IH pa1 Hrest Hf) as [Hf1|(a' & Ha' & Hfield)].
    + destruct (prefix_attribute_fields _ _ _ _ _ _ Hstep Hf1) as [?|?].
      * by left.
      * right. exists a. split; [by left|done].
    + right. exists a'. split; [by right|done].
Qed.

End FlattenerMore.

(** ** Definitions for attributes that the member does not have *)

(** X1. Definitions of the schema whose attribute is absent from the bag of
    the first snapshot have no effect on flattening: leaving them out of
    the schema gives the same result, document or error. *)
Theorem definitions_outside_the_bag_are_ignored `{JSRuntime}
    (data : IDbMemberSyncData) (rest : list IDbMemberSyncData)
    (attributes : list IMemberAttribute) :
  prefixData (data :: rest)
    (filter (λ a, js_in (attr_name a) (m_attributes data) = true) attributes)
  = prefixData (data :: rest) attributes.
Proof.
  unfold prefixData. by rewrite for_of_prefix_attribute_filter.
Qed.

(** X2. Every field of [obj_attributes] is the field of a definition of the
    schema whose attribute is in the bag of the first snapshot:
    [string_<name>] with the serialised value for a SPECIAL definition,
    [obj_<name>] with the renamed sub-keys otherwise.  An entry of the bag
    that the schema does not define is not copied to the document. *)
Theorem attribute_fields_come_from_the_schema `{JSRuntime}
    (data : IDbMemberSyncData) (rest : list IDbMemberSyncData)
    (attributes : list IMemberAttribute) (p : Document)
    (field : string) (f : attr_field) :
  prefixData (data :: rest) attributes = Ok p →
  obj_attributes p !! field = Some f →
  ∃ a, a ∈ attributes ∧ field_of (m_attributes data) a field f.
Proof.
  unfold prefixData.
  destruct (for_of (prefix_attribute (m_attributes data)) ∅ attributes)
    as [pa|e] eqn:Hfor; [|done].
  cbn [mbind Result_bind]. intros [= <-]. cbn [obj_attributes]. intros Hf.
  destruct (for_of_prefix_attribute_fields _ _ _ _ _ _ Hfor Hf) as [Hf0|?];
    [|done].
  by rewrite lookup_empty in Hf0.
Qed.

Lemma attribute_fields_come_from_the_schema_witness :
  ∃ p f,
    prefixData (H := no_text_runtime) [sample_member; sample_member_s2]
      sample_schema = Ok p
    ∧ obj_attributes p !! "string_bio" = Some f
    ∧ ∃ a, a ∈ sample_schema
           ∧ field_of (H := no_text_runtime) (m_attributes sample_member) a
               "string_bio" f.
Proof.
  eexists _, _. split; [reflexivity|]. split; [reflexivity|].
  eapply (attribute_fields_come_from_the_schema (H := no_text_runtime)
            sample_member [sample_member_s2] sample_schema);
    reflexivity.
Defined.

(** ** A name defined more than once *)

Lemma renamed_with_unique prefix entries (m1 m2 : gmap string jsval) :
  renamed_with prefix entries m1 → renamed_with prefix entries m2 → m1 = m2.
Proof.
  assert (∀ m m' : gmap string jsval,
            renamed_with prefix entries m → renamed_with prefix entries m' →
            ∀ k v, m !! k = Some v → m' !! k = Some v) as Hsub.
  { intros m m' [_ Hm] [Hm' _] k v Hk.
    apply Hm in Hk as (key & -> & Hin). by apply Hm'. }
  intros H1 H2. apply map_eq. intros k. apply option_eq. intros v.
  split; by apply Hsub.
Qed.

Section LastWriter.
Context `{JSRuntime}.

Lemma field_of_written attData a field f :
  field_of attData a field f →
  field = written_field a ∧ js_in (attr_name a) attData = true.
Proof.
  intros [Hin [(Hty & -> & _)|(Hty & -> & _)]]; (split; [|done]);
    unfold written_field.
  - by rewrite Hty.
  - by destruct (attr_type a).
Qed.

Lemma field_of_unique attData a field f f' :
  field_of attData a field f → field_of attData a field f' → f = f'.
Proof.
  intros [_ [(Hty & _ & ->)|(Hty & _ & d & prefix & p_data & Hd & Hp & -> & Hren)]]
         [_ [(Hty' & _ & ->)|(Hty' & _ & d' & prefix' & p_data' & Hd' & Hp' & -> & Hren')]];
    try done.
  assert (d' = d) as -> by congruence.
  assert (prefix' = prefix) as -> by congruence.
  f_equal. by eapply renamed_with_unique.
Qed.

(** A step on a definition whose attribute is in the bag writes the field
    of the definition and leaves every other field as it was. *)
Lemma prefix_attribute_written attData pa a pa' :
  prefix_attribute attData pa a = Ok pa' →
  js_in (attr_name a) attData = true →
  (∃ f, pa' !! written_field a = Some f
        ∧ field_of attData a (written_field a) f)
  ∧ ∀ field, field ≠ written_field a → pa' !! field = pa !! field.
Proof.
  intros Hstep Hin.
  apply prefix_attribute_inv in Hstep
    as [[Hno _]|[[Hty ->]|[Hty (d & prefix & Hd & Hp & ->)]]].
  - congruence.
  - assert (written_field a = "string_" +:+ attr_name a) as ->
      by (unfold written_field; by rewrite Hty).
    split.
    + eexists. split; [apply lookup_insert_eq|]. split; [done|]. by left.
    + intros field Hne. by rewrite lookup_insert_ne.
  - assert (written_field a = "obj_" +:+ attr_name a) as ->
      by (unfold written_field; by destruct (attr_type a)).
    split.
    + eexists. split; [apply lookup_insert_eq|]. split; [done|]. right.
      split; [done|]. split; [done|].
      eexists d, prefix, _. repeat (split; [done|]).
      apply prefix_keys_renamed, Object_entries_NoDup.
    + intros field Hne. by rewrite lookup_insert_ne.
Qed.

(** Steps that do not write a field leave it as it was. *)
Lemma for_of_prefix_attribute_keeps attData l pa pa' field :
  for_of (prefix_attribute attData) pa l = Ok pa' →
  (∀ a, a ∈ l → js_in (attr_name a) attData = true →
        written_field a ≠ field) →
  pa' !! field = pa !! field.
Proof.
  revert pa. induction l as [|a l IH]; intros pa; simpl.
  - by intros [= <-] _.
  - destruct (prefix_attribute attData pa a) as [pa1|e] eqn:Hstep; [|done].
    simpl. intros Hrest Hother. rewrite (IH pa1 Hrest).
    2:{ intros a' Ha'. apply Hother. by right. }
    destruct (js_in (attr_name a) attData) eqn:Hin.
    + apply (prefix_attribute_written _ _ _ _ Hstep Hin).
      intros ->. apply (Hother a); [by left|done..].
    + rewrite prefix_attribute_absent in Hstep by done.
      by injection Hstep as <-.
Qed.

(** Where a field of the result comes from: it was there before the loop
    and no step wrote it, or it is the field of the last definition that
    wrote it. *)
Lemma for_of_prefix_attribute_last attData attributes pa0 pa field f :
  for_of (prefix_attribute attData) pa0 attributes = Ok pa →
  pa !! field = Some f →
  (pa0 !! field = Some f
   ∧ ∀ a, a ∈ attributes → js_in (attr_name a) attData = true →
          written_field a ≠ field)
  ∨ ∃ earlier a later,
      attributes = earlier ++ a :: later
      ∧ field_of attData a field f
      ∧ ∀ a', a' ∈ later → js_in (attr_name a') attData = true →
              written_field a' ≠ field.
Proof.
  revert pa0. induction attributes as [|a l IH]; intros pa0; simpl.
  - intros [= <-] Hf. left. split; [done|]. by intros a ?%elem_of_nil.
  - destruct (prefix_attribute attData pa0 a) as [pa1|e] eqn:Hstep; [|done].
    simpl. intros Hrest Hf.
    destruct (IH pa1 Hrest Hf)
      as [[Hf1 Hnone]|(earlier & a0 & later & -> & Hfield & Hlater)].
    2:{ right. by exists (a :: earlier), a0, later. }
    destruct (js_in (attr_name a) attData) eqn:Hin.
    + destruct (prefix_attribute_written _ _ _ _ Hstep Hin)
        as [(f' & Hf' & Hfield) Hkeep].
      destruct (decide (field = written_field a)) as [->|Hne].
      * right. exists [], a, l. split; [done|]. split; [|done].
        by assert (f = f') as -> by congruence.
      * left. rewrite <- (Hkeep field Hne). split; [done|].
        intros a' [->|Ha']%elem_of_cons ?; [done|by apply Hnone].
    + rewrite prefix_attribute_absent in Hstep by done.
      injection Hstep as <-. left. split; [done|].
      intros a' [->|Ha']%elem_of_cons ?; [congruence|by apply Hnone].
Qed.

End LastWriter.

(** X3. When several definitions of the schema write the same field of
    [obj_attributes], the field holds what the last of them wrote: the
    fields of the document are exactly the fields of the definitions whose
    attribute is in the bag and whose field no later such definition writes
    again.  A definition writes [string_<name>] if it is SPECIAL and
    [obj_<name>] otherwise: a later definition of a name overwrites the
    field of an earlier one of the same kind, and leaves the field of an
    earlier one of the other kind in the document. *)
Theorem last_definition_writing_a_field_wins `{JSRuntime}
    (data : IDbMemberSyncData) (rest : list IDbMemberSyncData)
    (attributes : list IMemberAttribute) (p : Document)
    (field : string) (f : attr_field) :
  prefixData (data :: rest) attributes = Ok p →
  obj_attributes p !! field = Some f
  ↔ ∃ earlier a later,
      attributes = earlier ++ a :: later
      ∧ field_of (m_attributes data) a field f
      ∧ ∀ a', a' ∈ later →
              js_in (attr_name a') (m_attributes data) = true →
              written_field a' ≠ field.
Proof.
  unfold prefixData.
  destruct (for_of (prefix_attribute (m_attributes data)) ∅ attributes)
    as [pa|e] eqn:Hfor; [|done].
  cbn [mbind Result_bind]. intros [= <-]. cbn [obj_attributes]. split.
  - intros Hf.
    destruct (for_of_prefix_attribute_last _ _ _ _ _ _ Hfor Hf)
      as [[Hf0 _]|?]; [|done].
    by rewrite lookup_empty in Hf0.
  - intros (earlier & a & later & -> & Hfield & Hlater).
    rewrite for_of_app in Hfor.
    destruct (for_of (prefix_attribute (m_attributes data)) ∅ earlier)
      as [pa0|e] eqn:H0; [|done].
    cbn [mbind Result_bind for_of] in Hfor.
    destruct (prefix_attribute (m_attributes data) pa0 a) as [pa1|e] eqn:Ha;
      [|done].
    cbn [mbind Result_bind] in Hfor.
    rewrite (for_of_prefix_attribute_keeps _ _ _ _ _ Hfor Hlater).
    destruct (field_of_written _ _ _ _ Hfield) as [-> Hin].
    destruct (prefix_attribute_written _ _ _ _ Ha Hin)
      as [(f' & Hf' & Hfield') _].
    by rewrite (field_of_unique _ _ _ _ _ Hfield Hfield').
Qed.

(** With "age" defined as a number, then SPECIAL, then as a text, the
    document keeps [string_age] from the SPECIAL definition, which the
    later definition as a text does not overwrite. *)
Lemma last_definition_writing_a_field_wins_witness :
  ∃ p,
    prefixData (H := no_text_runtime) [sample_member; sample_member_s2]
      redefining_schema = Ok p
    ∧ obj_attributes p !! "string_age"
      = Some (Serialized (JObj {[ "default" := JNum five;
                                  "github" := JNum five_and_a_half ]})).
Proof.
  eexists. split; [vm_compute; reflexivity|].
  refine (proj2 (@last_definition_writing_a_field_wins no_text_runtime
                   sample_member [sample_member_s2] redefining_schema _
                   "string_age" _ _) _).
  - vm_compute; reflexivity.
  - exists [ {| attr_name := "age"; attr_type := NUMBER |} ],
           {| attr_name := "age"; attr_type := SPECIAL |},
           [ {| attr_name := "age"; attr_type := STRING |} ].
    split; [reflexivity|]. split.
    + split; [reflexivity|]. left. by repeat split.
    + intros a' ->%list_elem_of_singleton _. by vm_compute.
Defined.

(** The same schema, run: [obj_age] holds the sub-keys renamed for the
    last definition that is not SPECIAL, the one as a text. *)
Example redefined_attribute_fields :
  ∃ p,
    prefixData (H := no_text_runtime) [sample_member; sample_member_s2]
      redefining_schema = Ok p
    ∧ dom (obj_attributes p) = {[ "string_age"; "obj_age" ]}
    ∧ obj_attributes p !! "obj_age"
      = Some (Nested {[ "string_default" := JNum five;
                        "string_github" := JNum five_and_a_half ]}).
Proof.
  eexists. split; [vm_compute; reflexivity|]. split; by vm_compute.
Qed.

(** ** Names that every object inherits *)

(** X4. The presence test [name in attData] also finds the members that
    every object inherits.  A definition whose name is one of them (such as
    "toString") counts as present although the bag has no entry of that
    name: for a definition that is not SPECIAL, flattening writes an empty
    nested object [obj_<name>]. *)
Theorem inherited_name_gives_an_empty_object `{JSRuntime}
    (data : IDbMemberSyncData) (rest : list IDbMemberSyncData)
    (attributes : list IMemberAttribute) (p : Document)
    (a : IMemberAttribute) :
  prefixData (data :: rest) attributes = Ok p →
  NoDup (attr_name <$> attributes) →
  a ∈ attributes →
  attr_type a ≠ SPECIAL →
  m_attributes data !! attr_name a = None →
  attr_name a = "__proto__" ∨ attr_name a ∈ Object_prototype_functions →
  obj_attributes p !! ("obj_" +:+ attr_name a) = Some (Nested ∅).
Proof.
  unfold prefixData.
  destruct (for_of (prefix_attribute (m_attributes data)) ∅ attributes)
    as [pa|e] eqn:Hfor; [|done].
  cbn [mbind Result_bind]. intros [= <-] Hnd Ha Hty Hown Hname.
  cbn [obj_attributes].
  destruct (for_of_prefix_attribute_at _ _ _ _ Hnd Ha Hfor)
    as (pa0 & pa1 & _ & _ & Hstep & -> & _).
  assert (js_in (attr_name a) (m_attributes data) = true) as Hin.
  { unfold js_in. rewrite Hown.
    destruct Hname as [->|Hname]; [done|].
    rewrite (bool_decide_eq_true_2 _ Hname). apply orb_true_r. }
  assert (Object_entries (js_get (m_attributes data) (attr_name a)) = [])
    as Hkeys.
  { unfold js_get. rewrite Hown.
    destruct Hname as [->|Hname]; [done|].
    case_bool_decide; [done|].
    by rewrite (bool_decide_eq_true_2 _ Hname). }
  apply prefix_attribute_inv in Hstep
    as [[Hno _]|[[? _]|[_ (d & prefix & _ & _ & ->)]]];
    [congruence|done|].
  rewrite lookup_insert_eq, Hkeys. done.
Qed.

Lemma inherited_name_gives_an_empty_object_witness :
  ∃ p,
    prefixData (H := no_text_runtime) [sample_member; sample_member_s2]
      inherited_name_schema = Ok p
    ∧ m_attributes sample_member !! "toString" = None
    ∧ obj_attributes p !! "obj_toString" = Some (Nested ∅).
Proof.
  eexists. split; [vm_compute; reflexivity|]. split; [reflexivity|].
  refine (@inherited_name_gives_an_empty_object no_text_runtime
            sample_member [sample_member_s2] inherited_name_schema _
            {| attr_name := "toString"; attr_type := STRING |} _ _ _ _ _ _).
  - vm_compute; reflexivity.
  - compute_done.
  - left.
  - done.
  - reflexivity.
  - right. compute_done.
Defined.

(** ** When flattening returns a document *)

Section FlattensIff.
Context `{JSRuntime}.

Lemma get_default_ok_iff v :
  (∃ d, get_default v = Ok d) ↔ v ≠ JNull ∧ v ≠ JUndefined.
Proof.
  split.
  - intros [d Hd]. destruct v; simpl in Hd; done.
  - intros [? ?]. destruct v; simpl; try done; by eexists.
Qed.

Lemma ToString_ok_iff v :
  (∃ s, ToString v = Ok s) ↔ text_convertible v = true.
Proof.
  induction v as [items IH|v Hv] using jsval_arr_ind.
  - cbn [ToString text_convertible]. rewrite forallb_forall.
    rewrite Forall_forall in IH. split.
    + intros [s Hs] x Hx%list_elem_of_In.
      destruct (element_texts ToString items) as [ts|e'] eqn:Hl;
        cbn [mbind Result_bind] in Hs; [|done].
      apply (IH x Hx).
      destruct x; try (by eexists);
        (apply (proj1 (element_texts_ok_iff ToString items));
           [by eexists|done..]).
    + intros Hall.
      destruct (proj2 (element_texts_ok_iff ToString items)) as [ts ->];
        [|by eexists].
      intros x Hx _ _. apply (IH x Hx). apply Hall. by apply list_elem_of_In.
  - destruct v as [| |[]| | |items|props|]; simpl;
      try (split; [done|by eexists]).
    + by destruct (Hv items).
    + destruct (props !! "toString") eqn:Hp.
      * split; [by intros [? ?]|]. by intros ?%bool_decide_eq_true.
      * split; [|by eexists]. intros _. by apply bool_decide_eq_true.
Qed.

Lemma ToNumber_ok_iff d :
  (∃ n, ToNumber d = Ok n) ↔ text_convertible d = true.
Proof.
  destruct d as [| |[]| | |items|props|];
    try (split; [done|by eexists]).
  - rewrite <- ToString_ok_iff. cbn [ToNumber]. split.
    + intros [n Hn]. destruct (ToString (JArr items)); [by eexists|done].
    + intros [s ->]. by eexists.
  - simpl. destruct (props !! "toString") eqn:Hp.
    + split; [by intros [? ?]|]. by intros ?%bool_decide_eq_true.
    + split; [|by eexists]. intros _. by apply bool_decide_eq_true.
Qed.

Lemma get_default_source v d :
  get_default v = Ok d →
  d = JUndefined ∨ ∃ props, v = JObj props ∧ props !! "default" = Some d.
Proof.
  destruct v as [| | | | | |props|]; simpl; try done;
    try (intros [= <-]; by left).
  unfold js_get. destruct (props !! "default") as [d'|] eqn:Hd.
  - intros [= <-]. right. by exists props.
  - simpl. intros [= <-]. by left.
Qed.

Lemma prefix_attribute_ok_iff attData pa a :
  (∃ pa', prefix_attribute attData pa a = Ok pa') ↔ flattens attData a.
Proof.
  unfold flattens. split.
  - intros [pa' Hstep] Hin.
    apply prefix_attribute_inv in Hstep
      as [[Hno _]|[[Hty _]|[Hty (d & prefix & Hd & Hp & _)]]].
    + congruence.
    + by left.
    + right.
      destruct (proj1 (get_default_ok_iff _) (ex_intro _ d Hd)) as [? ?].
      repeat (split; [done|]). split.
      * intros raw Hraw. rewrite Hraw in Hp. done.
      * intros Hnum props d' Hv Hdef.
        rewrite Hv in Hd. simpl in Hd. unfold js_get in Hd.
        rewrite Hdef in Hd. injection Hd as ->.
        rewrite Hnum in Hp. simpl in Hp.
        apply ToNumber_ok_iff.
        destruct (ToNumber d); [by eexists|done].
  - intros Hfl. unfold prefix_attribute.
    destruct (js_in (attr_name a) attData) eqn:Hin; [|by eexists].
    destruct (Hfl eq_refl) as [->|(Hnull & Hundef & Hdecl & Hnum)];
      [by eexists|].
    destruct (proj2 (get_default_ok_iff _) (conj Hnull Hundef)) as [d Hd].
    rewrite Hd. cbn [mbind Result_bind].
    destruct (attr_type a) eqn:Hty; try (by eexists).
    + simpl.
      destruct (proj2 (ToNumber_ok_iff d)) as [n ->].
      { destruct (get_default_source _ _ Hd)
          as [->|(props & Hv & Hdef)]; [done|].
        by apply (Hnum eq_refl props d). }
      cbn [mbind Result_bind]. destruct (js_strict_eq_0 _); by eexists.
    + by destruct (Hdecl raw).
Qed.

Lemma for_of_prefix_attribute_ok_iff attData pa attributes :
  (∃ pa', for_of (prefix_attribute attData) pa attributes = Ok pa')
  ↔ ∀ a, a ∈ attributes → flattens attData a.
Proof.
  revert pa. induction attributes as [|a l IH]; intros pa; simpl.
  - split; [|by eexists]. intros _ a Ha. by apply elem_of_nil in Ha.
  - split.
    + intros [pa' Hfor].
      destruct (prefix_attribute attData pa a) as [pa1|e] eqn:Hstep; [|done].
      cbn [mbind Result_bind] in Hfor.
      intros a' [->|Ha']%elem_of_cons.
      * apply (prefix_attribute_ok_iff attData pa). by eexists.
      * apply (proj1 (IH pa1)); [by eexists|done].
    + intros Hall.
      destruct (proj2 (prefix_attribute_ok_iff attData pa a)) as [pa1 ->].
      { apply Hall. by left. }
      cbn [mbind Result_bind]. apply IH. intros a' Ha'. apply Hall. by right.
Qed.

End FlattensIff.

(** X5. Flattening returns a document exactly when there is a first
    snapshot and, for every definition of the schema whose attribute is in
    its bag, the definition is SPECIAL or the value of the attribute is
    neither null nor undefined, the type is one of the enumeration and, for
    a NUMBER, the default can be converted to a text: it is not an object
    with a [toString] entry of its own, and not an array that holds such
    an object at any depth.  In every other case it throws. *)
Theorem flattening_returns_a_document_iff `{JSRuntime}
    (segmentedMembers : list IDbMemberSyncData)
    (attributes : list IMemberAttribute) :
  (∃ p, prefixData segmentedMembers attributes = Ok p)
  ↔ ∃ data rest,
      segmentedMembers = data :: rest
      ∧ ∀ a, a ∈ attributes → flattens (m_attributes data) a.
Proof.
  destruct segmentedMembers as [|data rest].
  - split; [by intros [p Hp]|]. by intros (data & rest & ? & _).
  - split.
    + intros [p Hp]. exists data, rest. split; [done|].
      apply (for_of_prefix_attribute_ok_iff _ ∅).
      unfold prefixData in Hp.
      destruct (for_of (prefix_attribute (m_attributes data)) ∅ attributes)
        as [pa|e]; [by eexists|done].
    + intros (data' & rest' & [= <- <-] & Hall).
      apply (for_of_prefix_attribute_ok_iff _ ∅) in Hall as [pa Hpa].
      unfold prefixData. rewrite Hpa. cbn [mbind Result_bind]. by eexists.
Qed.

Lemma flattening_returns_a_document_iff_witness :
  (∀ a, a ∈ sample_schema → flattens (m_attributes sample_member) a)
  ∧ ∃ p, prefixData (H := no_text_runtime) [sample_member; sample_member_s2]
           sample_schema = Ok p.
Proof.
  assert (∀ a, a ∈ sample_schema → flattens (m_attributes sample_member) a)
    as Hall.
  { intros a Ha. unfold sample_schema in Ha.
    apply elem_of_cons in Ha as [->|Ha].
    - intros _. right. cbn [attr_name attr_type].
      repeat split; try done.
      intros _ props d [= <-] Hd. vm_compute in Hd. by injection Hd as <-.
    - apply list_elem_of_singleton in Ha as ->. intros _. by left. }
  split; [exact Hall|].
  apply (proj2 (flattening_returns_a_document_iff (H := no_text_runtime)
                  [sample_member; sample_member_s2] sample_schema)).
  exists sample_member, [sample_member_s2]. split; [reflexivity|exact Hall].
Defined.

(** A NUMBER default that is an array holding an object with a
    [toString] entry of its own cannot be converted: flattening throws a
    type error. *)
Example unconvertible_default_throws :
  ¬ flattens (m_attributes unconvertible_default_member)
      {| attr_name := "age"; attr_type := NUMBER |}
  ∧ prefixData (H := no_text_runtime) [unconvertible_default_member]
      [ {| attr_name := "age"; attr_type := NUMBER |} ]
    = Err (TypeError "Cannot convert object to primitive value").
Proof.
  split; [|reflexivity].
  intros Hfl. destruct (Hfl eq_refl) as [?|(_ & _ & _ & Hnum)]; [done|].
  by specialize (Hnum eq_refl _ _ eq_refl eq_refl).
Qed.

(** ** The renaming of sub-keys loses nothing *)

(** X6. The renaming of the sub-keys of an attribute is one to one: with
    the same prefix, two attribute values flatten to the same nested object
    only if they have the same sub-keys with the same values. *)
Theorem renaming_of_sub_keys_is_injective `{JSRuntime}
    (prefix : string) (props1 props2 : gmap string jsval) :
  prefix_keys prefix (Object_entries (JObj props1))
  = prefix_keys prefix (Object_entries (JObj props2)) →
  props1 = props2.
Proof.
  assert (∀ (p1 p2 : gmap string jsval),
            prefix_keys prefix (Object_entries (JObj p1))
            = prefix_keys prefix (Object_entries (JObj p2)) →
            ∀ k v, p1 !! k = Some v → p2 !! k = Some v) as Hsub.
  { intros p1 p2 E k v Hk.
    pose proof (prefix_keys_renamed prefix _
                  (Object_entries_NoDup (JObj p1))) as [Ha _].
    pose proof (prefix_keys_renamed prefix _
                  (Object_entries_NoDup (JObj p2))) as [_ Hb].
    assert ((k, v) ∈ Object_entries (JObj p1)) as Hin
      by by apply elem_of_map_to_list.
    apply Ha in Hin. rewrite E in Hin.
    apply Hb in Hin as (k' & Hk' & Hin).
    apply app_inj_l in Hk' as <-.
    by apply elem_of_map_to_list in Hin. }
  intros Heq. apply map_eq. intros k.
  destruct (props1 !! k) as [v|] eqn:E1.
  - symmetry. by apply (Hsub props1 props2).
  - destruct (props2 !! k) as [v|] eqn:E2; [|done].
    apply (Hsub props2 props1) in E2; [congruence|done].
Qed.

Lemma renaming_of_sub_keys_is_injective_witness :
  ({[ "default" := JNum five ]} : gmap string jsval)
  = {[ "default" := JNum five ]}.
Proof.
  apply (renaming_of_sub_keys_is_injective (H := no_text_runtime) "int").
  reflexivity.
Defined.

(** ** The order of the schema *)




(** * Further properties of the incremental sync *)

Lemma waits_app evs1 evs2 : waits (evs1 ++ evs2) = waits evs1 ++ waits evs2.
Proof. apply omap_app. Qed.

Lemma waits_empty_attempts memberId k :
  waits (empty_attempts memberId k) = replicate k 100.
Proof.
  induction k as [|k IH]; [done|].
  cbn [empty_attempts replicate]. change (waits (?a :: ?b :: ?l)) with (100 :: waits l).
  by rewrite IH.
Qed.

(** Membership in a list that is written out. *)
Ltac elems H :=
  repeat match type of H with
         | _ ∈ _ :: _ =>
             apply elem_of_cons in H as [H|H];
             [try done; try (injection H as -> ->; done)|]
         | _ ∈ [] => by apply elem_of_nil in H
         end.

Section IncrementalSyncMore.
Context `{JSRuntime}.

(** The part of [syncMember] that follows a fetch that found rows. *)
Lemma syncMember_from_unfold budget memberId retries w :
  syncMember_from budget memberId retries w
  = (if faults w (length (trace w)) then
       (Thrown (CollaboratorError "getMemberData"),
        log (EvFailed "getMemberData") w)
     else
       let members := visible_rows w (clock w) memberId in
       let w1 := log (EvGetMemberData [memberId] members) w in
       match members with
       | member0 :: _ =>
           (attributes ← getTenantMemberAttributes (m_tenantId member0);
            prepared ← lift (prefixData members attributes);
            index memberId prepared;;
            markSynced [memberId]) w1
       | [] =>
           if bool_decide (retries < 5) then
             match budget with
             | S budget' =>
                 syncMember_from budget' memberId (S retries)
                   (log (EvTimeout 100) (with_clock (clock w1 + 100) w1))
             | O => (OutOfFuel,
                     log (EvTimeout 100) (with_clock (clock w1 + 100) w1))
             end
           else removeFromIndex memberId w1
       end).
Proof.
  destruct (faults w (length (trace w))) eqn:Hf.
  - destruct budget; cbn [syncMember_from]; rewrite bind_run;
      unfold getMemberData; by rewrite collaborator_fault.
  - unfold visible_rows.
    destruct budget; cbn [syncMember_from]; rewrite bind_run;
      unfold getMemberData; rewrite collaborator_run by done;
      cbn [fst snd];
      destruct (filter _ _) as [|member0 rest]; try done;
      case_bool_decide; try done.
Qed.

Lemma pending_of_markSynced w (ids : list string) t id :
  id ∈ pending_of (with_pending (filter (λ id, id ∉ ids) <$> db_pending w) w) t
  ↔ id ∈ pending_of w t ∧ id ∉ ids.
Proof.
  unfold pending_of, with_pending. cbn [db_pending]. rewrite lookup_fmap.
  destruct (db_pending w !! t) as [q|]; simpl.
  - rewrite list_elem_of_filter. tauto.
  - split; [by intros ?%elem_of_nil|by intros [?%elem_of_nil _]].
Qed.

(** What holds of the steps after a fetch that found rows, whatever call
    fails. *)
Lemma found_part_facts memberId member0 rest w1 o w' :
  let members := member0 :: rest in
  (attributes ← getTenantMemberAttributes (m_tenantId member0);
   prepared ← lift (prefixData members attributes);
   index memberId prepared;;
   markSynced [memberId]) w1 = (o, w') →
  o ≠ OutOfFuel
  ∧ db_snapshots w' = db_snapshots w1
  ∧ db_attributes w' = db_attributes w1
  ∧ clock w' = clock w1
  ∧ (∀ id, id ≠ memberId → os_members w' !! id = os_members w1 !! id)
  ∧ (∀ t id, id ≠ memberId → id ∈ pending_of w' t ↔ id ∈ pending_of w1 t)
  ∧ (∀ e, o = Thrown e → db_pending w' = db_pending w1)
  ∧ ∃ tail,
      trace w' = trace w1 ++ tail
      ∧ waits tail = []
      ∧ (∀ rid, EvRemoveFromIndex rid ∉ tail)
      ∧ (∀ wid doc, EvIndex wid doc ∈ tail →
           wid = memberId
           ∧ prefixData members (db_attributes w1 (m_tenantId member0))
             = Ok doc)
      ∧ (o = Returned () → last tail = Some (EvMarkSynced [memberId])).
Proof.
  intros members. rewrite bind_run. unfold getTenantMemberAttributes.
  destruct (faults w1 (length (trace w1))) eqn:F1.
  { rewrite collaborator_fault by done. intros [= <- <-]. cbn [log].
    repeat (split; [done|]). eexists (_ :: nil).
    split; [done|]. split; [done|]. split; [|split; [|done]].
    - intros rid Hin. elems Hin.
    - intros wid d Hin. elems Hin. }
  rewrite collaborator_run by done. cbn [fst snd].
  set (w2 := log _ w1).
  rewrite bind_run. unfold lift at 1.
  destruct (prefixData members (db_attributes w1 (m_tenantId member0)))
    as [doc|e] eqn:Hdoc.
  2:{ intros [= <- <-]. subst w2. cbn [log].
      repeat (split; [done|]). eexists (_ :: nil).
      split; [done|]. split; [done|]. split; [|split; [|done]].
      - intros rid Hin. elems Hin.
      - intros wid d Hin. elems Hin. }
  rewrite bind_run. unfold index.
  destruct (faults w2 (length (trace w2))) eqn:F2.
  { rewrite collaborator_fault by done. intros [= <- <-]. subst w2.
    cbn [log trace].
    repeat (split; [done|]). eexists (_ :: _ :: nil).
    split; [by rewrite <- app_assoc|]. split; [done|].
    split; [|split; [|done]].
    - intros rid Hin. elems Hin.
    - intros wid d Hin. elems Hin. }
  rewrite collaborator_run by done. cbn [fst snd].
  set (w3 := log _ (with_index _ w2)).
  unfold markSynced.
  destruct (faults w3 (length (trace w3))) eqn:F3.
  { rewrite collaborator_fault by done. intros [= <- <-]. subst w3 w2.
    cbn [log with_index db_snapshots db_attributes clock os_members trace].
    repeat (split; [done|]).
    split; [intros id Hne; by rewrite lookup_insert_ne|].
    split; [done|]. split; [done|].
    eexists (_ :: _ :: _ :: nil).
    split; [by rewrite <- !app_assoc|]. split; [done|].
    split; [|split; [|done]].
    - intros rid Hin. elems Hin.
    - intros wid d Hin. elems Hin. }
  rewrite collaborator_run by done. intros [= <- <-]. cbn [fst snd]. subst w3 w2.
  cbn [log with_index with_pending db_snapshots db_attributes clock
         os_members trace].
  repeat (split; [done|]).
  split; [intros id Hne; by rewrite lookup_insert_ne|].
  split.
  { intros t id Hne. unfold pending_of.
    cbn [log with_pending with_index db_pending]. rewrite lookup_fmap.
    destruct (db_pending w1 !! t) as [q|]; [|done]. simpl.
    rewrite list_elem_of_filter, list_elem_of_singleton. tauto. }
  split; [done|].
  eexists (_ :: _ :: _ :: nil).
  split; [by rewrite <- !app_assoc|]. split; [done|].
  split; [|split; [|done]].
  - intros rid Hin. elems Hin.
  - intros wid d Hin. elems Hin.
Qed.

Lemma member_run_facts_fault memberId budget w :
  member_run_facts memberId budget w
    (Thrown (CollaboratorError "getMemberData"))
    (log (EvFailed "getMemberData") w).
Proof.
  unfold member_run_facts.
  cbn [log db_snapshots db_attributes os_members trace clock].
  repeat (split; [done|]). exists 0, [EvFailed "getMemberData"].
  split; [lia|]. split; [done|]. split; [lia|]. split; [done|].
  split; [intros rid Hin; elems Hin|].
  split; [intros wid d Hin; elems Hin|done].
Qed.

Lemma member_run_facts_found memberId budget w member0 rest o w' :
  visible_rows w (clock w) memberId = member0 :: rest →
  (attributes ← getTenantMemberAttributes (m_tenantId member0);
   prepared ← lift (prefixData (member0 :: rest) attributes);
   index memberId prepared;;
   markSynced [memberId])
    (log (EvGetMemberData [memberId] (member0 :: rest)) w) = (o, w') →
  member_run_facts memberId budget w o w'.
Proof.
  intros Hrows Hrun.
  destruct (found_part_facts _ _ _ _ _ _ Hrun)
    as (Ho & Hsn & Hat & Hclk & Hidx & Hpend & Hthr & tail & Htr & Hw & Hrm
          & Hwr & Hret).
  cbn [log db_snapshots db_attributes os_members trace clock] in *.
  unfold member_run_facts.
  repeat (split; [done|]).
  exists 0, (EvGetMemberData [memberId] (member0 :: rest) :: tail).
  split; [lia|].
  split; [by rewrite Htr, <- app_assoc|].
  split; [lia|].
  split; [done|].
  split.
  { intros rid Hin. apply elem_of_cons in Hin as [?|Hin]; [done|].
    by apply Hrm in Hin. }
  split.
  { intros wid d Hin. apply elem_of_cons in Hin as [?|Hin]; [done|].
    destruct (Hwr _ _ Hin) as [-> Hd]. split; [done|].
    exists member0, rest. by rewrite Hclk. }
  intros Hr. left. rewrite last_cons, (Hret Hr). done.
Qed.

Lemma member_run_facts_last memberId w o w' :
  removeFromIndex memberId (log (EvGetMemberData [memberId] []) w) = (o, w') →
  member_run_facts memberId 0 w o w'.
Proof.
  unfold removeFromIndex.
  set (w1 := log _ w).
  destruct (faults w1 (length (trace w1))) eqn:F1.
  - rewrite collaborator_fault by done. intros [= <- <-]. subst w1.
    unfold member_run_facts.
    cbn [log db_snapshots db_attributes os_members trace clock].
    repeat (split; [done|]).
    exists 0, [EvGetMemberData [memberId] []; EvFailed "removeFromIndex"].
    split; [lia|]. split; [by rewrite <- app_assoc|]. split; [lia|].
    split; [done|]. split; [intros rid Hin; elems Hin|].
    split; [intros wid d Hin; elems Hin|done].
  - rewrite collaborator_run by done. intros [= <- <-]. subst w1.
    unfold member_run_facts.
    cbn [log with_index db_snapshots db_attributes os_members trace clock
           fst snd].
    repeat (split; [done|]).
    split; [intros id Hne; by rewrite lookup_delete_ne|].
    split; [done|]. split; [done|].
    exists 0, [EvGetMemberData [memberId] []; EvRemoveFromIndex memberId].
    split; [lia|]. split; [by rewrite <- app_assoc|]. split; [lia|].
    split; [done|]. split; [done|].
    split; [intros wid d Hin; elems Hin|]. intros _. by right.
Qed.

Lemma member_run_facts_retry memberId budget w o w' :
  member_run_facts memberId budget
    (log (EvTimeout 100)
       (with_clock (clock w + 100) (log (EvGetMemberData [memberId] []) w)))
    o w' →
  member_run_facts memberId (S budget) w o w'.
Proof.
  intros (Ho & Hsn & Hat & Hidx & Hpend & Hthr & k & evs & Hk & Htr & Hclk & Hw
            & Hrm & Hwr & Hret).
  cbn [log with_clock db_snapshots db_attributes os_members trace clock]
    in *.
  unfold member_run_facts.
  repeat (split; [done|]).
  exists (S k), (EvGetMemberData [memberId] [] :: EvTimeout 100 :: evs).
  split; [lia|].
  split; [by rewrite Htr, <- !app_assoc|].
  split; [lia|].
  split; [change (waits (?a :: ?b :: ?l)) with (100 :: waits l);
          by rewrite Hw|].
  split.
  { intros rid Hin.
    apply elem_of_cons in Hin as [?|Hin]; [done|].
    apply elem_of_cons in Hin as [?|Hin]; [done|].
    rewrite (Hrm _ Hin) at 1. done. }
  split.
  { intros wid d Hin.
    apply elem_of_cons in Hin as [?|Hin]; [done|].
    apply elem_of_cons in Hin as [?|Hin]; [done|].
    apply (Hwr _ _ Hin). }
  intros Hr. destruct (Hret Hr) as [Hl|Hl].
  - left. by rewrite !last_cons, Hl.
  - right. by rewrite !last_cons, Hl.
Qed.

(** What holds of every run of [syncMember], whatever call fails. *)
Lemma syncMember_from_facts budget memberId retries w o w' :
  budget = 5 - retries →
  syncMember_from budget memberId retries w = (o, w') →
  member_run_facts memberId budget w o w'.
Proof.
  revert retries w.
  induction budget as [|budget IH]; intros retries w Hb;
    rewrite syncMember_from_unfold;
    (destruct (faults w (length (trace w))) eqn:F0;
     [intros [= <- <-]; apply member_run_facts_fault|]);
    cbn zeta;
    (destruct (visible_rows w (clock w) memberId) as [|member0 rest] eqn:Hrows;
     [|by apply member_run_facts_found]).
  - rewrite bool_decide_false by lia. apply member_run_facts_last.
  - rewrite bool_decide_true by lia. intros Hrun.
    apply member_run_facts_retry. eapply IH; [|exact Hrun]. lia.
Qed.

(** The run that finds rows at once, when no call fails. *)
Lemma syncMember_from_found budget memberId retries w member0 rest doc :
  fault_free w →
  visible_rows w (clock w) memberId = member0 :: rest →
  prefixData (member0 :: rest) (db_attributes w (m_tenantId member0))
  = Ok doc →
  syncMember_from budget memberId retries w
  = (Returned (),
     log (EvMarkSynced [memberId])
       (with_pending (filter (λ id, id ∉ [memberId]) <$> db_pending w)
          (log (EvIndex memberId doc)
             (with_index (<[memberId := doc]> (os_members w))
                (log (EvGetTenantMemberAttributes (m_tenantId member0))
                   (log (EvGetMemberData [memberId] (member0 :: rest))
                      w)))))).
Proof.
  intros Hf Hrows Hdoc. rewrite syncMember_from_unfold.
  rewrite Hf, Hrows. cbv beta iota zeta.
  rewrite bind_run. unfold getTenantMemberAttributes.
  rewrite collaborator_run by apply Hf. cbn [fst snd].
  rewrite bind_run. unfold lift at 1. cbn [log db_attributes]. rewrite Hdoc.
  rewrite bind_run. unfold index. rewrite collaborator_run by apply Hf.
  unfold markSynced. rewrite collaborator_run by apply Hf.
  reflexivity.
Qed.

(** The run that finds rows after [k] fetches that found nothing. *)
Lemma syncMember_from_lag k budget memberId retries w member0 rest doc :
  budget = 5 - retries →
  k ≤ budget →
  fault_free w →
  (∀ j, j < k → visible_rows w (clock w + 100 * j) memberId = []) →
  visible_rows w (clock w + 100 * k) memberId = member0 :: rest →
  prefixData (member0 :: rest) (db_attributes w (m_tenantId member0))
  = Ok doc →
  ∃ w',
    syncMember_from budget memberId retries w = (Returned (), w')
    ∧ trace w' = trace w ++ empty_attempts memberId k
                 ++ [EvGetMemberData [memberId] (member0 :: rest);
                     EvGetTenantMemberAttributes (m_tenantId member0);
                     EvIndex memberId doc;
                     EvMarkSynced [memberId]]
    ∧ clock w' = clock w + 100 * k
    ∧ os_members w' = <[memberId := doc]> (os_members w)
    ∧ (∀ t, memberId ∉ pending_of w' t).
Proof.
  revert budget retries w.
  induction k as [|k IH]; intros budget retries w Hb Hk Hf Hempty Hrows Hdoc.
  - rewrite Nat.mul_0_r, Nat.add_0_r in Hrows.
    eexists. split; [by apply syncMember_from_found|].
    cbn [log with_pending with_index trace clock os_members empty_attempts
           app].
    split; [by rewrite <- !app_assoc|]. split; [lia|]. split; [done|].
    intros t. unfold pending_of. cbn [log with_pending db_pending].
    rewrite lookup_fmap.
    destruct (db_pending w !! t) as [q|]; simpl.
    + rewrite list_elem_of_filter, list_elem_of_singleton. tauto.
    + apply not_elem_of_nil.
  - destruct budget as [|budget]; [lia|].
    rewrite syncMember_from_unfold. rewrite Hf.
    assert (visible_rows w (clock w) memberId = []) as ->.
    { specialize (Hempty 0 ltac:(lia)).
      by rewrite Nat.mul_0_r, Nat.add_0_r in Hempty. }
    rewrite bool_decide_true by lia. cbv beta iota zeta.
    set (w1 := log (EvTimeout 100) _).
    destruct (IH budget (S retries) w1)
      as (w' & Hrun & Htr & Hclk & Hidx & Hpend).
    + lia.
    + lia.
    + intros n. apply Hf.
    + intros j Hj. subst w1. unfold visible_rows.
      cbn [log with_clock clock db_snapshots].
      specialize (Hempty (S j) ltac:(lia)). unfold visible_rows in Hempty.
      replace (clock w + 100 + 100 * j) with (clock w + 100 * S j) by lia.
      done.
    + subst w1. unfold visible_rows.
      cbn [log with_clock clock db_snapshots].
      replace (clock w + 100 + 100 * k) with (clock w + 100 * S k) by lia.
      done.
    + done.
    + exists w'. split; [exact Hrun|]. subst w1.
      cbn [log with_clock clock trace os_members] in *.
      rewrite Htr, Hclk, Hidx. rewrite <- !app_assoc.
      cbn [empty_attempts app].
      repeat split; try done; try lia.
Qed.

End IncrementalSyncMore.

(** ** Replication lag *)

(** X8. When the rows of a member become visible only at the [k]-th retry,
    with [k] within the retries left, and no call throws, incremental sync
    fetches [k] times in vain, waiting 100 ms after each attempt, then
    flattens the rows it finds, writes the document and marks the member
    synced: [100 * k] ms have passed and the index holds the document. *)
Theorem syncMember_finds_the_member_after_lag `{JSRuntime}
    (memberId : string) (retries k : nat) (w : World)
    (member0 : IDbMemberSyncData) (rest : list IDbMemberSyncData)
    (doc : Document) :
  fault_free w →
  k ≤ 5 - retries →
  (∀ j, j < k → visible_rows w (clock w + 100 * j) memberId = []) →
  visible_rows w (clock w + 100 * k) memberId = member0 :: rest →
  prefixData (member0 :: rest) (db_attributes w (m_tenantId member0))
  = Ok doc →
  ∃ w',
    syncMember memberId retries w = (Returned (), w')
    ∧ trace w' = trace w ++ empty_attempts memberId k
                 ++ [EvGetMemberData [memberId] (member0 :: rest);
                     EvGetTenantMemberAttributes (m_tenantId member0);
                     EvIndex memberId doc;
                     EvMarkSynced [memberId]]
    ∧ clock w' = clock w + 100 * k
    ∧ os_members w' = <[memberId := doc]> (os_members w)
    ∧ (∀ tenantId, memberId ∉ pending_of w' tenantId).
Proof.
  intros Hf Hk Hempty Hrows Hdoc. unfold syncMember.
  by apply syncMember_from_lag.
Qed.

Lemma syncMember_finds_the_member_after_lag_witness :
  ∃ doc,
    fault_free lagging_world
    ∧ 2 ≤ 5 - 0
    ∧ (∀ j, j < 2 →
         visible_rows lagging_world (clock lagging_world + 100 * j) "A" = [])
    ∧ visible_rows lagging_world (clock lagging_world + 100 * 2) "A"
      = [sample_member; sample_member_s2]
    ∧ prefixData (H := no_text_runtime) [sample_member; sample_member_s2]
        (db_attributes lagging_world (m_tenantId sample_member)) = Ok doc
    ∧ ∃ w',
        syncMember (H := no_text_runtime) "A" 0 lagging_world
        = (Returned (), w')
        ∧ trace w' = trace lagging_world ++ empty_attempts "A" 2
                     ++ [EvGetMemberData ["A"]
                           [sample_member; sample_member_s2];
                         EvGetTenantMemberAttributes (m_tenantId sample_member);
                         EvIndex "A" doc;
                         EvMarkSynced ["A"]]
        ∧ clock w' = clock lagging_world + 100 * 2
        ∧ os_members w' = <["A" := doc]> (os_members lagging_world)
        ∧ (∀ tenantId, "A" ∉ pending_of w' tenantId).
Proof.
  assert (∀ j, j < 2 →
            visible_rows lagging_world (clock lagging_world + 100 * j) "A"
            = []) as Hempty.
  { intros j Hj. destruct j as [|[|j]]; [reflexivity|reflexivity|lia]. }
  eexists. split; [done|]. split; [lia|]. split; [exact Hempty|].
  split; [reflexivity|]. split; [vm_compute; reflexivity|].
  apply (syncMember_finds_the_member_after_lag (H := no_text_runtime)
           "A" 0 2 lagging_world sample_member [sample_member_s2]).
  - done.
  - lia.
  - exact Hempty.
  - reflexivity.
  - vm_compute; reflexivity.
Defined.

(** ** What no run does *)

Lemma events_since_app w w' evs :
  trace w' = trace w ++ evs → events_since w w' = evs.
Proof. unfold events_since. intros ->. by rewrite drop_app_length. Qed.

(** X9. Every run of the incremental sync ends, by returning or by
    throwing, whatever calls fail: it waits at most [5 - retries] times,
    100 ms each time, and the time that passes is the sum of these waits. *)
Theorem syncMember_waits_at_most_its_budget `{JSRuntime}
    (memberId : string) (retries : nat) (w : World) :
  (syncMember memberId retries w).1 ≠ OutOfFuel
  ∧ ∃ k, k ≤ 5 - retries
         ∧ waits (events_since w (syncMember memberId retries w).2)
           = replicate k 100
         ∧ clock (syncMember memberId retries w).2 = clock w + 100 * k.
Proof.
  destruct (syncMember memberId retries w) as [o w'] eqn:Hrun.
  destruct (syncMember_from_facts _ _ _ _ _ _ eq_refl Hrun)
    as (Ho & _ & _ & _ & _ & _ & k & evs & Hk & Htr & Hclk & Hw & _).
  cbn [fst snd]. split; [done|]. exists k.
  by rewrite (events_since_app _ _ _ Htr).
Qed.

(** X10. A run of the incremental sync of one member, whatever its outcome,
    leaves the documents of all other members in the index as they were,
    and changes the pending state of no other member. *)
Theorem syncMember_touches_one_member_only `{JSRuntime}
    (memberId : string) (retries : nat) (w : World) (id : string) :
  id ≠ memberId →
  os_members (syncMember memberId retries w).2 !! id = os_members w !! id
  ∧ ∀ tenantId,
      id ∈ pending_of (syncMember memberId retries w).2 tenantId
      ↔ id ∈ pending_of w tenantId.
Proof.
  intros Hne.
  destruct (syncMember memberId retries w) as [o w'] eqn:Hrun.
  destruct (syncMember_from_facts _ _ _ _ _ _ eq_refl Hrun)
    as (_ & _ & _ & Hidx & Hpend & _).
  cbn [snd]. split; [by apply Hidx|]. intros t. by apply Hpend.
Qed.

Lemma syncMember_touches_one_member_only_witness :
  "B" ≠ "A"
  ∧ os_members (syncMember (H := no_text_runtime) "A" 0 sample_world).2 !! "B"
    = os_members sample_world !! "B"
  ∧ ∀ tenantId,
      "B" ∈ pending_of (syncMember (H := no_text_runtime) "A" 0
                          sample_world).2 tenantId
      ↔ "B" ∈ pending_of sample_world tenantId.
Proof.
  split; [done|].
  apply (syncMember_touches_one_member_only (H := no_text_runtime)). done.
Defined.

(** X11. The incremental sync removes a document from the index only as
    the last step of a run in which every one of the [5 - retries + 1]
    fetches found nothing: a run in which a fetch found rows, or in which a
    call failed earlier, removes nothing. *)
Theorem syncMember_removes_only_after_all_retries `{JSRuntime}
    (memberId : string) (retries : nat) (w : World) (id : string) :
  EvRemoveFromIndex id
    ∈ events_since w (syncMember memberId retries w).2 →
  events_since w (syncMember memberId retries w).2
  = empty_attempts memberId (5 - retries)
    ++ [EvGetMemberData [memberId] []; EvRemoveFromIndex memberId].
Proof.
  destruct (syncMember memberId retries w) as [o w'] eqn:Hrun.
  destruct (syncMember_from_facts _ _ _ _ _ _ eq_refl Hrun)
    as (_ & _ & _ & _ & _ & _ & k & evs & _ & Htr & _ & _ & Hrm & _).
  cbn [snd]. rewrite (events_since_app _ _ _ Htr). apply Hrm.
Qed.

Lemma syncMember_removes_only_after_all_retries_witness :
  EvRemoveFromIndex "B"
    ∈ events_since sample_world
        (syncMember (H := no_text_runtime) "B" 0 sample_world).2
  ∧ events_since sample_world
      (syncMember (H := no_text_runtime) "B" 0 sample_world).2
    = empty_attempts "B" (5 - 0)
      ++ [EvGetMemberData ["B"] []; EvRemoveFromIndex "B"].
Proof.
  assert (EvRemoveFromIndex "B"
            ∈ events_since sample_world
                (syncMember (H := no_text_runtime) "B" 0 sample_world).2)
    as Hin.
  { vm_compute. repeat constructor. }
  split; [exact Hin|].
  exact (syncMember_removes_only_after_all_retries (H := no_text_runtime)
           "B" 0 sample_world "B" Hin).
Defined.

(** X12. A run of the incremental sync that returns has, as its last step,
    marked the member synced or removed its document from the index. *)
Theorem syncMember_returns_after_mark_or_removal `{JSRuntime}
    (memberId : string) (retries : nat) (w w' : World) :
  syncMember memberId retries w = (Returned (), w') →
  last (events_since w w') = Some (EvMarkSynced [memberId])
  ∨ last (events_since w w') = Some (EvRemoveFromIndex memberId).
Proof.
  intros Hrun.
  destruct (syncMember_from_facts _ _ _ _ _ _ eq_refl Hrun)
    as (_ & _ & _ & _ & _ & _ & k & evs & _ & Htr & _ & _ & _ & _ & Hret).
  rewrite (events_since_app _ _ _ Htr). by apply Hret.
Qed.

Lemma syncMember_returns_after_mark_or_removal_witness :
  ∃ w',
    syncMember (H := no_text_runtime) "A" 0 sample_world = (Returned (), w')
    ∧ (last (events_since sample_world w') = Some (EvMarkSynced ["A"])
       ∨ last (events_since sample_world w') = Some (EvRemoveFromIndex "A")).
Proof.
  eexists. split; [vm_compute; reflexivity|].
  apply (syncMember_returns_after_mark_or_removal (H := no_text_runtime)
           "A" 0 sample_world).
  vm_compute; reflexivity.
Defined.

(** X13. A document that a run of the incremental sync writes is written
    under the id of the member and is the flattening, against the schema of
    the tenant, of the rows of the member that the store shows at the time
    the run ends, which are not empty. *)
Theorem syncMember_writes_the_flattening_of_the_rows `{JSRuntime}
    (memberId : string) (retries : nat) (w : World)
    (id : string) (doc : Document) :
  EvIndex id doc ∈ events_since w (syncMember memberId retries w).2 →
  id = memberId
  ∧ ∃ member0 rest,
      visible_rows w (clock (syncMember memberId retries w).2) memberId
      = member0 :: rest
      ∧ prefixData (member0 :: rest) (db_attributes w (m_tenantId member0))
        = Ok doc.
Proof.
  destruct (syncMember memberId retries w) as [o w'] eqn:Hrun.
  destruct (syncMember_from_facts _ _ _ _ _ _ eq_refl Hrun)
    as (_ & _ & _ & _ & _ & _ & k & evs & _ & Htr & _ & _ & _ & Hwr & _).
  cbn [snd]. rewrite (events_since_app _ _ _ Htr). apply Hwr.
Qed.

Lemma syncMember_writes_the_flattening_of_the_rows_witness :
  ∃ doc,
    EvIndex "A" doc
      ∈ events_since sample_world
          (syncMember (H := no_text_runtime) "A" 0 sample_world).2
    ∧ ∃ member0 rest,
        visible_rows sample_world
          (clock (syncMember (H := no_text_runtime) "A" 0 sample_world).2) "A"
        = member0 :: rest
        ∧ prefixData (H := no_text_runtime) (member0 :: rest)
            (db_attributes sample_world (m_tenantId member0)) = Ok doc.
Proof.
  eexists. split; [vm_compute; repeat constructor|].
  refine (proj2 (syncMember_writes_the_flattening_of_the_rows
                   (H := no_text_runtime) "A" 0 sample_world "A" _ _)).
  vm_compute; repeat constructor.
Defined.

(** ** Repeating a sync *)

Lemma filter_idemp {A} (P : A → Prop) `{!∀ x, Decision (P x)} (l : list A) :
  filter P (filter P l) = filter P l.
Proof.
  induction l as [|x l IH]; [done|].
  rewrite filter_cons. case_decide as HP; [|done].
  rewrite filter_cons, decide_True by done. by rewrite IH.
Qed.

(** X14. Syncing a member twice in a row, with the store unchanged and no
    call throwing, gives what syncing it once gives: the second run writes
    the same document again and leaves the index and the pending queues as
    the first run left them. *)
Theorem syncMember_twice_is_the_same_as_once `{JSRuntime}
    (memberId : string) (retries retries' : nat) (w : World)
    (member0 : IDbMemberSyncData) (rest : list IDbMemberSyncData)
    (doc : Document) :
  fault_free w →
  visible_rows w (clock w) memberId = member0 :: rest →
  prefixData (member0 :: rest) (db_attributes w (m_tenantId member0))
  = Ok doc →
  ∃ w1 w2,
    syncMember memberId retries w = (Returned (), w1)
    ∧ syncMember memberId retries' w1 = (Returned (), w2)
    ∧ os_members w1 !! memberId = Some doc
    ∧ os_members w2 = os_members w1
    ∧ db_pending w2 = db_pending w1.
Proof.
  intros Hf Hrows Hdoc. unfold syncMember.
  eexists _, _.
  split; [by apply syncMember_from_found|].
  split.
  { apply syncMember_from_found with (member0 := member0) (rest := rest)
                                     (doc := doc).
    - intros n. apply Hf.
    - exact Hrows.
    - exact Hdoc. }
  cbn [log with_pending with_index os_members db_pending].
  split; [by rewrite lookup_insert_eq|].
  split; [by rewrite insert_insert_eq|].
  apply map_eq. intros t. rewrite !lookup_fmap.
  destruct (db_pending w !! t) as [q|]; [|done]. simpl.
  by rewrite filter_idemp.
Qed.

Lemma syncMember_twice_is_the_same_as_once_witness :
  ∃ doc w1 w2,
    fault_free sample_world
    ∧ visible_rows sample_world (clock sample_world) "A"
      = [sample_member; sample_member_s2]
    ∧ prefixData (H := no_text_runtime) [sample_member; sample_member_s2]
        (db_attributes sample_world (m_tenantId sample_member)) = Ok doc
    ∧ syncMember (H := no_text_runtime) "A" 0 sample_world = (Returned (), w1)
    ∧ syncMember (H := no_text_runtime) "A" 0 w1 = (Returned (), w2)
    ∧ os_members w1 !! "A" = Some doc
    ∧ os_members w2 = os_members w1
    ∧ db_pending w2 = db_pending w1.
Proof.
  destruct (syncMember_twice_is_the_same_as_once (H := no_text_runtime)
              "A" 0 0 sample_world sample_member [sample_member_s2]
              _ (λ _, eq_refl) eq_refl eq_refl)
    as (w1 & w2 & H1 & H2 & H3 & H4 & H5).
  eexists _, w1, w2. split; [done|]. split; [reflexivity|].
  split; [reflexivity|]. done.
Defined.

(** ** A run that throws *)

(** X15. A run of the incremental sync that throws, at whatever call or in
    the flattening, has marked nothing as synced: the pending queues are as
    they were, so a member that was pending is still pending. *)
Theorem syncMember_that_throws_marks_nothing `{JSRuntime}
    (memberId : string) (retries : nat) (w : World) (e : exn) (w' : World) :
  syncMember memberId retries w = (Thrown e, w') →
  db_pending w' = db_pending w.
Proof.
  intros Hrun.
  destruct (syncMember_from_facts _ _ _ _ _ _ eq_refl Hrun)
    as (_ & _ & _ & _ & _ & Hthr & _).
  by apply (Hthr e).
Qed.

Lemma syncMember_that_throws_marks_nothing_witness :
  ∃ w',
    syncMember (H := no_text_runtime) "A" 0 corrupt_world
    = (Thrown (MappingError (OTHER "geo")), w')
    ∧ db_pending w' = db_pending corrupt_world.
Proof.
  eexists. split; [vm_compute; reflexivity|].
  apply (syncMember_that_throws_marks_nothing (H := no_text_runtime)
           "A" 0 corrupt_world (MappingError (OTHER "geo"))).
  vm_compute; reflexivity.
Defined.

(** * The logic of runs *)

Lemma triple_ret {A} (a : A) (P : World → Prop) Q E :
  (∀ w, P w → Q a w) → triple P (mret a) Q E.
Proof. intros HQ w HP. by apply HQ. Qed.

Lemma triple_bind {A B} (m : M A) (f : A → M B) P Q R E :
  triple P m Q E → (∀ a, triple (Q a) (f a) R E) → triple P (m ≫= f) R E.
Proof.
  intros Hm Hf w HP. specialize (Hm w HP). rewrite bind_run.
  destruct (m w) as [[a| |] w1]; [|done|done].
  by apply Hf.
Qed.

Lemma triple_conseq {A} (m : M A) (P P' : World → Prop) Q Q' (E E' : World → Prop) :
  (∀ w, P' w → P w) → (∀ a w, Q a w → Q' a w) → (∀ w, E w → E' w) →
  triple P m Q E → triple P' m Q' E'.
Proof.
  intros HP HQ HE Hm w Hw. specialize (Hm w (HP w Hw)).
  destruct (m w) as [[a| |] w1]; auto.
Qed.

Lemma triple_collaborator {A} call (op : World → A * World) ev
    (P : World → Prop) Q (E : World → Prop) :
  (∀ w, P w → E (log (EvFailed call) w)) →
  (∀ w, P w → Q (op w).1 (log (ev (op w).1) (op w).2)) →
  triple P (collaborator call op ev) Q E.
Proof.
  intros HE HQ w HP. unfold collaborator.
  destruct (faults w (length (trace w))); [by apply HE|].
  specialize (HQ w HP). by destruct (op w).
Qed.

Lemma triple_lift {A} (r : Result A) (P : World → Prop) Q (E : World → Prop) :
  (∀ w a, P w → r = Ok a → Q a w) → (∀ w, P w → E w) →
  triple P (lift r) Q E.
Proof.
  intros HQ HE w HP. unfold lift. destruct r; [by apply HQ|by apply HE].
Qed.

Lemma triple_out_of_fuel {A} (P : World → Prop) (Q : A → World → Prop)
    (E : World → Prop) :
  (∀ w, P w → E w) → triple P out_of_fuel Q E.
Proof. intros HE w HP. by apply HE. Qed.

Lemma triple_pure {A} (φ : Prop) (P : World → Prop) (m : M A) Q E :
  (φ → triple P m Q E) → triple (λ w, P w ∧ φ) m Q E.
Proof. intros Hm w [HP Hφ]. by apply Hm. Qed.

Lemma triple_snd {A} (P : World → Prop) (m : M A) Q (E R : World → Prop) w :
  triple P m Q E → P w →
  (∀ a w', Q a w' → R w') → (∀ w', E w' → R w') →
  R (m w).2.
Proof.
  intros Hm HP HQ HE. specialize (Hm w HP).
  destruct (m w) as [[a| |] w']; cbn [snd]; eauto.
Qed.

Lemma triple_timeout ms (P : World → Prop) Q E :
  (∀ w, P w → Q () (log (EvTimeout ms) (with_clock (clock w + ms) w))) →
  triple P (timeout ms) Q E.
Proof. intros HQ w HP. by apply HQ. Qed.

(** * Further properties of the full resync *)

Lemma foldl_insert_lookup (idx : gmap string Document) prepared :
  NoDup (req_id <$> prepared) →
  (∀ r, r ∈ prepared →
        foldl (λ idx r, <[req_id r := req_body r]> idx) idx prepared
          !! req_id r = Some (req_body r))
  ∧ (∀ id, id ∉ req_id <$> prepared →
           foldl (λ idx r, <[req_id r := req_body r]> idx) idx prepared !! id
           = idx !! id).
Proof.
  revert idx. induction prepared as [|r0 prepared IH]; intros idx Hnd.
  - split; [by intros r ?%elem_of_nil|done].
  - rewrite fmap_cons in Hnd. apply NoDup_cons in Hnd as [Hr0 Hnd].
    destruct (IH (<[req_id r0 := req_body r0]> idx) Hnd) as [IH1 IH2].
    split.
    + intros r [->|Hr]%elem_of_cons; simpl.
      * rewrite IH2 by done. by rewrite lookup_insert_eq.
      * by apply IH1.
    + intros id Hid. simpl. rewrite fmap_cons, not_elem_of_cons in Hid.
      destruct Hid as [Hne Hid]. rewrite IH2 by done.
      by rewrite lookup_insert_ne.
Qed.

Section ResyncState.
Context `{JSRuntime}.

Lemma for_of_prepare_spec grouped attributes acc ids prepared :
  for_of (prepare grouped attributes) acc ids = Ok prepared →
  ∃ new,
    prepared = acc ++ new
    ∧ Forall2 (λ id r, req_id r = id
                       ∧ prefixData (default [] (Map_get grouped id))
                           attributes = Ok (req_body r))
              ids new.
Proof.
  revert acc. induction ids as [|id ids IH]; intros acc; simpl.
  - intros [= <-]. exists []. by rewrite app_nil_r.
  - destruct (prefixData (default [] (Map_get grouped id)) attributes)
      as [body|e] eqn:Hbody.
    2:{ assert (prepare grouped attributes acc id = Err e) as ->
          by (unfold prepare; by rewrite Hbody).
        done. }
    assert (prepare grouped attributes acc id
            = Ok (push acc {| req_id := id; req_body := body |})) as ->
      by (unfold prepare; by rewrite Hbody).
    cbn [mbind Result_bind]. intros Hrest.
    apply IH in Hrest as (new & -> & Hall).
    exists ({| req_id := id; req_body := body |} :: new).
    split; [unfold push; by rewrite <- app_assoc|].
    by constructor.
Qed.

Context (w0 : World) (tenantId : string) (queue : list string)
        (batchSize : nat).

Let K := resync_state w0 tenantId queue.
Let rows_of (id : string) : list IDbMemberSyncData :=
  filter (λ r, m_id r = id) (db_snapshots w0 (clock w0)).

(** The body of the loop, after the fetch. *)
Lemma write_and_mark_triple memberIds count :
  let rows := filter (λ r, m_id r ∈ memberIds) (db_snapshots w0 (clock w0)) in
  let grouped := groupBy rows m_id in
  triple (λ w, K w ∧ memberIds = take batchSize (pending_of w tenantId))
    (if bool_decide (0 < length grouped) then
       let ids := grouped.*1 in
       prepared ← lift (for_of (prepare grouped (db_attributes w0 tenantId))
                          [] ids);
       bulkIndex prepared;;
       let count := count + length ids in
       markSynced ids;;
       mret count
     else mret count)
    (λ _ w, K w) K.
Proof.
  intros rows grouped.
  assert (Hkeys : ∀ id, id ∈ grouped.*1 →
            id ∈ memberIds
            ∧ default [] (Map_get grouped id) = rows_of id).
  { intros id Hid. unfold grouped in Hid.
    apply elem_of_groupBy_keys in Hid as (r & Hr & <-).
    unfold rows in Hr. apply list_elem_of_filter in Hr as [Hin Hr].
    split; [done|]. unfold grouped. rewrite Map_get_groupBy.
    assert (filter (λ x, m_id x = m_id r) rows = rows_of (m_id r)) as ->.
    { unfold rows, rows_of. apply list_filter_filter_l. by intros r' ->. }
    assert (r ∈ rows_of (m_id r)) as Hne
      by (unfold rows_of; by apply list_elem_of_filter).
    destruct (rows_of (m_id r)); [by apply elem_of_nil in Hne|done]. }
  case_bool_decide; [|apply triple_ret; by intros w [? _]].
  cbn zeta.
  eapply triple_bind.
  { apply (triple_lift _ _
             (λ prepared w,
                (K w ∧ memberIds = take batchSize (pending_of w tenantId))
                ∧ for_of (prepare grouped (db_attributes w0 tenantId)) []
                    grouped.*1 = Ok prepared)).
    - intros w prepared HP Hok. done.
    - by intros w [? _]. }
  intros prepared.
  eapply triple_bind.
  { unfold bulkIndex.
    apply (triple_collaborator _ _ _ _
             (λ _ w,
                (K w ∧ memberIds = take batchSize (pending_of w tenantId))
                ∧ ∀ id, id ∈ grouped.*1 →
                        indexed_current w0 tenantId id w)).
    - by intros w [[? _] _].
    - intros w [[HK Hmem] Hprep]. cbn [fst snd].
      apply for_of_prepare_spec in Hprep as (new & Hnew & Hall).
      simpl in Hnew. subst new.
      assert (Hids : req_id <$> prepared = grouped.*1).
      { clear -Hall. induction Hall as [|id r ids rs [Hid _] _ IH]; [done|].
        rewrite fmap_cons. by f_equal. }
      assert (Hnd : NoDup (req_id <$> prepared))
        by (rewrite Hids; apply groupBy_keys_NoDup).
      destruct (foldl_insert_lookup (os_members w) prepared Hnd)
        as [Hin Hout].
      assert (Hwritten : ∀ id, id ∈ grouped.*1 →
                ∃ doc, current_document w0 tenantId id doc
                       ∧ foldl (λ idx r, <[req_id r := req_body r]> idx)
                           (os_members w) prepared !! id = Some doc).
      { intros id Hid. rewrite <- Hids in Hid.
        apply list_elem_of_fmap in Hid as (r & -> & Hr).
        exists (req_body r). split; [|by apply Hin].
        assert (∃ id, id ∈ grouped.*1 ∧ req_id r = id
                      ∧ prefixData (default [] (Map_get grouped id))
                          (db_attributes w0 tenantId) = Ok (req_body r))
          as (id & Hid & Hrid & Hbody).
        { clear -Hall Hr.
          induction Hall as [|id r' ids rs [Hid Hb] _ IH];
            [by apply elem_of_nil in Hr|].
          apply elem_of_cons in Hr as [->|Hr].
          - exists id. split; [by left|done].
          - destruct (IH Hr) as (id' & ? & ? & ?). exists id'.
            split; [by right|done]. }
        destruct (Hkeys id Hid) as [_ Hrows]. rewrite Hrows in Hbody.
        unfold current_document. rewrite Hrid. exact Hbody. }
      destruct HK as (Hfl & Hdb & Hclk & Hsn & Hat & Hpend & Hframe & Hdocs & Hq).
      split; [split; [|exact Hmem]|].
      + assert (Hsubq : ∀ id, id ∈ grouped.*1 → id ∈ queue).
        { intros id Hid. apply Hpend. destruct (Hkeys id Hid) as [Hm _].
          rewrite Hmem in Hm. by apply (subseteq_take batchSize) in Hm. }
        refine (conj Hfl (conj Hdb (conj Hclk (conj Hsn (conj Hat
                  (conj Hpend (conj _ (conj _ _)))))))).
        * intros id Hid. cbn [log with_index os_members].
          rewrite Hout; [by apply Hframe|].
          rewrite Hids. intros Hin'. by apply Hid, Hsubq.
        * intros id. unfold indexed_current. cbn [log with_index os_members].
          destruct (decide (id ∈ grouped.*1)) as [Hid|Hid].
          -- right. by apply Hwritten.
          -- rewrite Hout by (by rewrite Hids). apply Hdocs.
        * intros id Hid. unfold indexed_current.
          cbn [log with_index os_members].
          destruct (decide (id ∈ grouped.*1)) as [Hid'|Hid'].
          -- right. by apply Hwritten.
          -- rewrite Hout by (by rewrite Hids). by apply Hq.
      + intros id Hid. unfold indexed_current.
        cbn [log with_index os_members]. by apply Hwritten. }
  intros u. cbn zeta.
  eapply triple_bind; [|intros u'; apply triple_ret; intros w HK; exact HK].
  unfold markSynced. apply triple_collaborator.
  - by intros w [[? _] _].
  - intros w [[HK Hmem] Hwritten]. cbn [fst snd].
    destruct HK as (Hfl & Hdb & Hclk & Hsn & Hat & Hpend & Hframe & Hdocs & Hq).
    refine (conj Hfl (conj Hdb (conj Hclk (conj Hsn (conj Hat (conj _
              (conj Hframe (conj Hdocs _)))))))).
    + intros id Hid.
      apply (pending_of_markSynced w grouped.*1 tenantId id) in Hid
        as [Hid _].
      by apply Hpend.
    + intros id Hid.
      destruct (decide (id ∈ grouped.*1)) as [Hid'|Hid'].
      * right. by apply Hwritten.
      * destruct (Hq id Hid) as [Hp|Hd]; [|by right].
        left. by apply (pending_of_markSynced w grouped.*1 tenantId id).
Qed.

Lemma claim_triple :
  triple K (getTenantMembersForSync tenantId 1 batchSize)
    (λ ids w, K w ∧ ids = take batchSize (pending_of w tenantId)) K.
Proof.
  unfold getTenantMembersForSync. apply triple_collaborator.
  - by intros w ?.
  - intros w HK. cbn [fst snd]. split; [exact HK|]. done.
Qed.

(** The loop keeps the state of the resync, and returns only once nothing
    is pending. *)
Lemma sync_loop_triple fuel memberIds count :
  triple (λ w, K w ∧ memberIds = take batchSize (pending_of w tenantId))
    (sync_loop fuel tenantId batchSize (db_attributes w0 tenantId)
       memberIds count)
    (λ _ w, K w ∧ (0 < batchSize → pending_of w tenantId = []))
    K.
Proof.
  revert memberIds count.
  induction fuel as [|fuel IH]; intros memberIds count.
  - destruct memberIds as [|id0 ids0]; simpl.
    + apply triple_ret. intros w [HK Hnil]. split; [done|]. intros HB.
      symmetry in Hnil. apply take_nil_inv in Hnil as [?|?]; [lia|done].
    + apply triple_out_of_fuel. by intros w [? _].
  - destruct (decide (memberIds = [])) as [->|Hne].
    + simpl. apply triple_ret. intros w [HK Hnil]. split; [done|]. intros HB.
      symmetry in Hnil. apply take_nil_inv in Hnil as [?|?]; [lia|done].
    + rewrite sync_loop_nonempty by done.
      eapply triple_bind.
      { unfold getMemberData.
        apply (triple_collaborator _ _ _ _
                 (λ rows w,
                    (K w ∧ memberIds = take batchSize (pending_of w tenantId))
                    ∧ rows = filter (λ r, m_id r ∈ memberIds)
                               (db_snapshots w0 (clock w0)))).
        - by intros w [? _].
        - intros w [HK Hmem]. cbn [fst snd]. split; [done|].
          destruct HK as (_ & _ & -> & -> & _). done. }
      intros rows. cbn zeta.
      eapply (triple_bind _ _ _ (λ _ w, K w)).
      { intros w [HP ->]. exact (write_and_mark_triple memberIds count w HP). }
      intros count'.
      eapply triple_bind; [apply claim_triple|].
      intros memberIds'. apply IH.
Qed.

End ResyncState.

Section ResyncRun.
Context `{JSRuntime}.

(** What holds after a run that stopped early: the index is as the
    resync leaves it at any point. *)
Lemma resync_state_index w0 tenantId queue w :
  resync_state w0 tenantId queue w →
  (∀ id, id ∉ queue → os_members w !! id = os_members w0 !! id)
  ∧ (∀ id, os_members w !! id = os_members w0 !! id
           ∨ indexed_current w0 tenantId id w).
Proof. intros (_ & _ & _ & _ & _ & _ & ? & ? & _). done. Qed.

(** The run after the reset, if any. *)
Lemma resync_body_triple w0 fuel tenantId batchSize queue :
  triple (resync_state w0 tenantId queue)
    (attributes ← getTenantMemberAttributes tenantId;
     memberIds ← getTenantMembersForSync tenantId 1 batchSize;
     sync_loop fuel tenantId batchSize attributes memberIds 0)
    (λ _ w, resync_state w0 tenantId queue w
            ∧ (0 < batchSize → pending_of w tenantId = []))
    (resync_state w0 tenantId queue).
Proof.
  eapply triple_bind.
  { unfold getTenantMemberAttributes.
    apply (triple_collaborator _ _ _ _
             (λ attributes w,
                resync_state w0 tenantId queue w
                ∧ attributes = db_attributes w0 tenantId)).
    - by intros w ?.
    - intros w HK. cbn [fst snd]. split; [exact HK|].
      destruct HK as (_ & _ & _ & _ & -> & _). done. }
  intros attributes. apply triple_pure. intros ->.
  eapply triple_bind; [apply claim_triple|].
  intros memberIds. apply sync_loop_triple.
Qed.

(** The state of the resync right after a reset that did not fail, or at
    the start of a run without reset. *)
Lemma resync_state_start w0 tenantId reset :
  (reset = true → faults w0 (length (trace w0)) = false) →
  ∃ w1,
    (if reset then setTenanMembersForSync tenantId else mret ()) w0
    = (Returned (), w1)
    ∧ resync_state w0 tenantId (initial_queue w0 tenantId reset) w1.
Proof.
  intros Hfirst. destruct reset.
  - unfold setTenanMembersForSync.
    rewrite collaborator_run by by apply Hfirst.
    eexists. split; [reflexivity|]. cbn [fst snd].
    assert (pending_of
              (log (EvSetTenanMembersForSync tenantId)
                 (with_pending
                    (<[tenantId :=
                         (filter (λ m, m.1 = tenantId)
                            (db_members w0)).*2]> (db_pending w0)) w0))
              tenantId = initial_queue w0 tenantId true) as Hq.
    { unfold pending_of. cbn [log with_pending db_pending].
      by rewrite lookup_insert_eq. }
    refine (conj eq_refl (conj eq_refl (conj eq_refl (conj eq_refl
              (conj eq_refl (conj _ (conj _ (conj _ _)))))))).
    + intros id. by rewrite Hq.
    + done.
    + intros id. by left.
    + intros id Hid. left. by rewrite Hq.
  - exists w0. split; [done|].
    refine (conj eq_refl (conj eq_refl (conj eq_refl (conj eq_refl
              (conj eq_refl (conj _ (conj _ (conj _ _)))))))).
    + done.
    + done.
    + intros id. by left.
    + intros id Hid. by left.
Qed.

Lemma syncTenantMembers_triple w0 fuel tenantId reset batchSize :
  let queue := initial_queue w0 tenantId reset in
  triple (λ w, w = w0)
    (syncTenantMembers fuel tenantId reset batchSize)
    (λ _ w, resync_state w0 tenantId queue w
            ∧ (0 < batchSize → pending_of w tenantId = []))
    (λ w, (∀ id, id ∉ queue → os_members w !! id = os_members w0 !! id)
          ∧ (∀ id, os_members w !! id = os_members w0 !! id
                   ∨ indexed_current w0 tenantId id w)).
Proof.
  intros queue. unfold syncTenantMembers.
  eapply (triple_bind _ _ _
            (λ _ w, resync_state w0 tenantId queue w)).
  { intros w ->.
    destruct (decide (reset = true ∧ faults w0 (length (trace w0)) = true))
      as [[-> Hfault]|Hok].
    - unfold setTenanMembersForSync. rewrite collaborator_fault by done.
      cbn [log os_members]. split; [done|]. intros id. by left.
    - destruct (resync_state_start w0 tenantId reset) as (w1 & -> & HK);
        [|exact HK].
      intros ->. destruct (faults w0 (length (trace w0))); [|done].
      by destruct Hok. }
  intros u.
  apply (triple_conseq _
           (resync_state w0 tenantId queue) _
           (λ _ w, resync_state w0 tenantId queue w
                   ∧ (0 < batchSize → pending_of w tenantId = [])) _
           (resync_state w0 tenantId queue));
    [by intros|by intros|apply resync_state_index|].
  apply resync_body_triple.
Qed.

(** The run when the reset, if any, did not fail. *)
Lemma syncTenantMembers_state w0 fuel tenantId reset batchSize :
  (reset = true → faults w0 (length (trace w0)) = false) →
  resync_state w0 tenantId (initial_queue w0 tenantId reset)
    (syncTenantMembers fuel tenantId reset batchSize w0).2.
Proof.
  intros Hfirst. unfold syncTenantMembers. rewrite bind_run.
  destruct (resync_state_start w0 tenantId reset Hfirst) as (w1 & -> & HK).
  apply (triple_snd _ _ _ _ _ w1
           (resync_body_triple w0 fuel tenantId batchSize _) HK).
  - by intros n w' [? _].
  - done.
Qed.

End ResyncRun.

(** ** What a full resync leaves in the index *)

(** X16. Whatever its outcome, a full resync changes a document of the
    index only for an id of the queue it started from (all members of the
    tenant after a reset, the pending ones otherwise), and only to the
    flattening of the rows that the store shows for that member. *)
Theorem full_resync_changes_only_queued_documents `{JSRuntime}
    (fuel : nat) (tenantId : string) (reset : bool) (batchSize : nat)
    (w : World) :
  (∀ id, id ∉ initial_queue w tenantId reset →
     os_members (syncTenantMembers fuel tenantId reset batchSize w).2 !! id
     = os_members w !! id)
  ∧ (∀ id,
       os_members (syncTenantMembers fuel tenantId reset batchSize w).2 !! id
       = os_members w !! id
       ∨ ∃ doc,
           current_document w tenantId id doc
           ∧ os_members (syncTenantMembers fuel tenantId reset batchSize w).2
               !! id = Some doc).
Proof.
  pose proof (syncTenantMembers_triple w fuel tenantId reset batchSize w
                eq_refl) as Hrun.
  destruct (syncTenantMembers fuel tenantId reset batchSize w)
    as [[n| |] w']; cbn [snd]; try exact Hrun.
  destruct Hrun as [HK _]. by apply resync_state_index in HK.
Qed.

Lemma full_resync_changes_only_queued_documents_witness :
  ("Z" ∉ initial_queue resync_world "T" true)
  ∧ os_members (syncTenantMembers (H := no_text_runtime) 5 "T" true 2
                  resync_world).2 !! "Z"
    = os_members resync_world !! "Z".
Proof.
  assert ("Z" ∉ initial_queue resync_world "T" true) as Hout
    by (apply (bool_decide_unpack _); vm_compute; exact I).
  split; [exact Hout|].
  apply (proj1 (full_resync_changes_only_queued_documents
                  (H := no_text_runtime) 5 "T" true 2 resync_world)).
  exact Hout.
Defined.

(** X17. A full resync with a positive batch size that returns has emptied
    the queue of the tenant, and the index then holds, for every id of the
    queue it started from, the flattening of the rows that the store shows
    for that member. *)
Theorem full_resync_indexes_the_current_rows `{JSRuntime}
    (fuel : nat) (tenantId : string) (reset : bool) (batchSize : nat)
    (w : World) (n : nat) (w' : World) :
  0 < batchSize →
  syncTenantMembers fuel tenantId reset batchSize w = (Returned n, w') →
  pending_of w' tenantId = []
  ∧ ∀ id, id ∈ initial_queue w tenantId reset →
      ∃ doc, current_document w tenantId id doc
             ∧ os_members w' !! id = Some doc.
Proof.
  intros HB Hrun.
  pose proof (syncTenantMembers_triple w fuel tenantId reset batchSize w
                eq_refl) as Htriple.
  rewrite Hrun in Htriple. destruct Htriple as [HK Hempty].
  specialize (Hempty HB). split; [done|].
  intros id Hid. destruct HK as (_ & _ & _ & _ & _ & _ & _ & _ & Hq).
  destruct (Hq id Hid) as [Hp|Hd]; [|done].
  rewrite Hempty in Hp. by apply elem_of_nil in Hp.
Qed.

Lemma full_resync_indexes_the_current_rows_witness :
  ∃ w',
    0 < 2
    ∧ syncTenantMembers (H := no_text_runtime) 5 "T" true 2 resync_world
      = (Returned 3, w')
    ∧ pending_of w' "T" = []
    ∧ ∀ id, id ∈ initial_queue resync_world "T" true →
        ∃ doc, current_document (H := no_text_runtime) resync_world "T" id doc
               ∧ os_members w' !! id = Some doc.
Proof.
  eexists. split; [lia|]. split; [vm_compute; reflexivity|].
  apply (full_resync_indexes_the_current_rows (H := no_text_runtime)
           5 "T" true 2 resync_world 3); [lia|].
  vm_compute; reflexivity.
Defined.

(** X18. A full resync with a positive batch size cannot complete while a
    member of its queue has no snapshot row in the store: no run returns,
    however many iterations it is given.  (The write and the mark of a page
    cover only the ids that have rows, so each claim returns such a member
    again.) *)
Theorem full_resync_cannot_complete_without_rows `{JSRuntime}
    (fuel : nat) (tenantId : string) (reset : bool) (batchSize : nat)
    (w : World) (id : string) :
  0 < batchSize →
  id ∈ initial_queue w tenantId reset →
  filter (λ r, m_id r = id) (db_snapshots w (clock w)) = [] →
  ∀ n w', syncTenantMembers fuel tenantId reset batchSize w
          ≠ (Returned n, w').
Proof.
  intros HB Hid Hrows n w' Hrun.
  pose proof (syncTenantMembers_triple w fuel tenantId reset batchSize w
                eq_refl) as Htriple.
  rewrite Hrun in Htriple. destruct Htriple as [HK Hempty].
  specialize (Hempty HB).
  destruct HK as (_ & _ & _ & _ & _ & _ & _ & _ & Hq).
  destruct (Hq id Hid) as [Hp|(doc & Hdoc & _)].
  - rewrite Hempty in Hp. by apply elem_of_nil in Hp.
  - unfold current_document in Hdoc. by rewrite Hrows in Hdoc.
Qed.

Lemma full_resync_cannot_complete_without_rows_witness :
  0 < 500
  ∧ "A" ∈ initial_queue rowless_world "T" true
  ∧ filter (λ r, m_id r = "A")
      (db_snapshots rowless_world (clock rowless_world)) = []
  ∧ (syncTenantMembers (H := no_text_runtime) 7 "T" true 500
       rowless_world).1 = OutOfFuel
  ∧ ∀ n w', syncTenantMembers (H := no_text_runtime) 7 "T" true 500
              rowless_world ≠ (Returned n, w').
Proof.
  assert ("A" ∈ initial_queue rowless_world "T" true) as Hin
    by (vm_compute; left).
  split; [lia|]. split; [exact Hin|]. split; [reflexivity|].
  split; [vm_compute; reflexivity|].
  apply (full_resync_cannot_complete_without_rows (H := no_text_runtime)
           7 "T" true 500 rowless_world "A"); [lia|exact Hin|reflexivity].
Defined.

(** ** A member that does not flatten *)

Section FlattenError.
Context `{JSRuntime}.

Lemma for_of_prepare_err grouped attributes acc ids id e0 :
  id ∈ ids →
  prefixData (default [] (Map_get grouped id)) attributes = Err e0 →
  ∃ e id',
    id' ∈ ids
    ∧ prefixData (default [] (Map_get grouped id')) attributes = Err e
    ∧ for_of (prepare grouped attributes) acc ids = Err e.
Proof.
  revert acc. induction ids as [|id1 ids IH]; intros acc Hin Herr.
  - by apply elem_of_nil in Hin.
  - destruct (prefixData (default [] (Map_get grouped id1)) attributes)
      as [body|e] eqn:Hbody.
    + apply elem_of_cons in Hin as [->|Hin]; [congruence|].
      destruct (IH (push acc {| req_id := id1; req_body := body |}) Hin Herr)
        as (e & id' & Hid' & He & Hfor).
      exists e, id'. split; [by right|]. split; [done|].
      simpl.
      assert (prepare grouped attributes acc id1
              = Ok (push acc {| req_id := id1; req_body := body |})) as ->
        by (unfold prepare; by rewrite Hbody).
      exact Hfor.
    + exists e, id1. split; [by left|]. split; [done|]. simpl.
      assert (prepare grouped attributes acc id1 = Err e) as ->
        by (unfold prepare; by rewrite Hbody).
      done.
Qed.

(** The first iteration of the loop on a page with a member whose rows do
    not flatten. *)
Lemma sync_loop_flatten_error fuel tenantId batchSize page count w id
    member0 rest e0 :
  fault_free w →
  id ∈ page →
  filter (λ r, m_id r = id) (db_snapshots w (clock w)) = member0 :: rest →
  prefixData (member0 :: rest) (db_attributes w tenantId) = Err e0 →
  ∃ e id',
    id' ∈ page
    ∧ prefixData (filter (λ r, m_id r = id') (db_snapshots w (clock w)))
        (db_attributes w tenantId) = Err e
    ∧ sync_loop (S fuel) tenantId batchSize (db_attributes w tenantId) page
        count w
      = (Thrown e,
         log (EvGetMemberData page
                (filter (λ r, m_id r ∈ page) (db_snapshots w (clock w)))) w).
Proof.
  intros Hf Hid Hrows Herr.
  set (rows := filter (λ r, m_id r ∈ page) (db_snapshots w (clock w))).
  set (grouped := groupBy rows m_id).
  assert (Hrows_of : ∀ id', id' ∈ page →
            filter (λ r, m_id r = id') rows
            = filter (λ r, m_id r = id') (db_snapshots w (clock w))).
  { intros id' Hid'. unfold rows. apply list_filter_filter_l. by intros r ->. }
  assert (Hget : ∀ id', id' ∈ grouped.*1 →
            id' ∈ page
            ∧ default [] (Map_get grouped id')
              = filter (λ r, m_id r = id') (db_snapshots w (clock w))).
  { intros id' Hid'. unfold grouped in Hid'.
    apply elem_of_groupBy_keys in Hid' as (r & Hr & <-).
    pose proof Hr as Hr'. unfold rows in Hr'.
    apply list_elem_of_filter in Hr' as [Hin Hr'].
    split; [done|]. unfold grouped. rewrite Map_get_groupBy.
    rewrite Hrows_of by done.
    assert (r ∈ filter (λ r0, m_id r0 = m_id r) (db_snapshots w (clock w)))
      as Hne by by apply list_elem_of_filter.
    destruct (filter (λ r0, m_id r0 = m_id r) (db_snapshots w (clock w)));
      [by apply elem_of_nil in Hne|done]. }
  assert (Hkey : id ∈ grouped.*1).
  { unfold grouped. apply elem_of_groupBy_keys. exists member0.
    assert (member0 ∈ filter (λ r, m_id r = id) (db_snapshots w (clock w)))
      as Hm by (rewrite Hrows; by left).
    apply list_elem_of_filter in Hm as [Hm1 Hm2].
    split; [|done]. unfold rows. apply list_elem_of_filter.
    split; [by rewrite Hm1|done]. }
  destruct (for_of_prepare_err grouped (db_attributes w tenantId) []
              grouped.*1 id e0 Hkey)
    as (e & id' & Hid' & He & Hfor).
  { destruct (Hget id Hkey) as [_ ->]. by rewrite Hrows. }
  destruct (Hget id' Hid') as [Hpage Hrows'].
  exists e, id'. split; [done|]. split; [by rewrite <- Hrows'|].
  assert (page ≠ []) as Hne by (intros ->; by apply elem_of_nil in Hid).
  rewrite sync_loop_nonempty by done.
  rewrite bind_run, getMemberData_run by done.
  fold rows. fold grouped. rewrite bind_run.
  rewrite bool_decide_true.
  2:{ destruct grouped; [by apply elem_of_nil in Hkey|simpl; lia]. }
  rewrite bind_run. unfold lift at 1. rewrite Hfor. reflexivity.
Qed.

End FlattenError.

(** X19. When the rows of a member of the first page of a full resync do
    not flatten, and no call throws, the run throws the flattening error of
    a member of that page before it writes anything: no member of the page
    is written or marked synced, the index is as it was, and the whole
    queue is still pending. *)
Theorem flattening_error_stops_the_batch `{JSRuntime}
    (fuel : nat) (tenantId : string) (reset : bool) (batchSize : nat)
    (w : World) (id : string) (member0 : IDbMemberSyncData)
    (rest : list IDbMemberSyncData) (e0 : exn) :
  fault_free w →
  id ∈ take batchSize (initial_queue w tenantId reset) →
  filter (λ r, m_id r = id) (db_snapshots w (clock w)) = member0 :: rest →
  prefixData (member0 :: rest) (db_attributes w tenantId) = Err e0 →
  ∃ e id' w',
    syncTenantMembers (S fuel) tenantId reset batchSize w = (Thrown e, w')
    ∧ id' ∈ take batchSize (initial_queue w tenantId reset)
    ∧ prefixData (filter (λ r, m_id r = id') (db_snapshots w (clock w)))
        (db_attributes w tenantId) = Err e
    ∧ os_members w' = os_members w
    ∧ pending_of w' tenantId = initial_queue w tenantId reset
    ∧ ∀ ev, ev ∈ events_since w w' →
        writes ev = None ∧ ∀ ids, ev ≠ EvMarkSynced ids.
Proof.
  intros Hf Hid Hrows Herr.
  set (queue := initial_queue w tenantId reset) in *.
  unfold syncTenantMembers.
  (* the world after the reset, if any *)
  assert (∃ w1 pre,
            (if reset then setTenanMembersForSync tenantId else mret ()) w
            = (Returned (), w1)
            ∧ fault_free w1
            ∧ trace w1 = trace w ++ pre
            ∧ (∀ ev, ev ∈ pre → writes ev = None ∧ ∀ ids, ev ≠ EvMarkSynced ids)
            ∧ db_snapshots w1 = db_snapshots w ∧ clock w1 = clock w
            ∧ db_attributes w1 = db_attributes w
            ∧ os_members w1 = os_members w
            ∧ pending_of w1 tenantId = queue)
    as (w1 & pre & Hreset & Hf1 & Htr1 & Hpre & Hsn & Hclk & Hat & Hos & Hq).
  { destruct reset.
    - unfold setTenanMembersForSync. rewrite collaborator_run by apply Hf.
      eexists _, [_]. split; [reflexivity|]. cbn [fst snd].
      split; [intros n; apply Hf|]. split; [reflexivity|].
      split; [intros ev Hev; elems Hev; by subst|].
      repeat (split; [done|]).
      unfold pending_of. cbn [log with_pending db_pending].
      by rewrite lookup_insert_eq.
    - exists w, []. split; [done|]. split; [done|].
      split; [by rewrite app_nil_r|].
      split; [by intros ev ?%elem_of_nil|]. done. }
  rewrite bind_run, Hreset.
  rewrite bind_run. unfold getTenantMemberAttributes.
  rewrite collaborator_run by apply Hf1. cbn [fst snd].
  set (w2 := log _ w1).
  rewrite bind_run. unfold getTenantMembersForSync.
  rewrite collaborator_run by apply Hf1. cbn [fst snd].
  set (w3 := log _ w2).
  assert (take batchSize
            (drop ((1 - 1) * batchSize)
               (default [] (db_pending w2 !! tenantId)))
          = take batchSize queue) as Hpage.
  { subst w2. cbn [log db_pending]. unfold pending_of in Hq.
    by rewrite Hq. }
  rewrite Hpage in *.
  destruct (sync_loop_flatten_error fuel tenantId batchSize
              (take batchSize queue) 0 w3 id member0 rest e0)
    as (e & id' & Hid' & He & Hrun).
  { intros n. apply Hf1. }
  { done. }
  { subst w3 w2. cbn [log db_snapshots clock]. by rewrite Hsn, Hclk. }
  { subst w3 w2. cbn [log db_attributes]. by rewrite Hat. }
  assert (db_attributes w1 tenantId = db_attributes w3 tenantId) as ->
    by done.
  rewrite Hrun. exists e, id'. eexists. split; [reflexivity|].
  split; [done|].
  split.
  { revert He. subst w3 w2. cbn [log db_snapshots clock db_attributes].
    by rewrite Hsn, Hclk, Hat. }
  subst w3 w2. cbn [log os_members].
  split; [done|]. split; [exact Hq|].
  intros ev Hev. unfold events_since in Hev. cbn [log trace] in Hev.
  rewrite Htr1, <- !app_assoc, drop_app_length in Hev.
  apply elem_of_app in Hev as [Hev|Hev]; [by apply Hpre|].
  cbn [app] in Hev. elems Hev; by subst.
Qed.

Lemma flattening_error_stops_the_batch_witness :
  fault_free corrupt_world
  ∧ "A" ∈ take 500 (initial_queue corrupt_world "T" true)
  ∧ filter (λ r, m_id r = "A")
      (db_snapshots corrupt_world (clock corrupt_world))
    = [sample_member; sample_member_s2]
  ∧ prefixData (H := no_text_runtime) [sample_member; sample_member_s2]
      (db_attributes corrupt_world "T") = Err (MappingError (OTHER "geo"))
  ∧ ∃ e id' w',
      syncTenantMembers (H := no_text_runtime) 1 "T" true 500 corrupt_world
      = (Thrown e, w')
      ∧ id' ∈ take 500 (initial_queue corrupt_world "T" true)
      ∧ prefixData (H := no_text_runtime)
          (filter (λ r, m_id r = id')
             (db_snapshots corrupt_world (clock corrupt_world)))
          (db_attributes corrupt_world "T") = Err e
      ∧ os_members w' = os_members corrupt_world
      ∧ pending_of w' "T" = initial_queue corrupt_world "T" true
      ∧ ∀ ev, ev ∈ events_since corrupt_world w' →
          writes ev = None ∧ ∀ ids, ev ≠ EvMarkSynced ids.
Proof.
  assert ("A" ∈ take 500 (initial_queue corrupt_world "T" true)) as Hin
    by (vm_compute; left).
  split; [done|]. split; [exact Hin|]. split; [reflexivity|].
  split; [vm_compute; reflexivity|].
  apply (flattening_error_stops_the_batch (H := no_text_runtime)
           0 "T" true 500 corrupt_world "A" sample_member [sample_member_s2]
           (MappingError (OTHER "geo"))).
  - done.
  - exact Hin.
  - reflexivity.
  - vm_compute; reflexivity.
Defined.

(** ** Acknowledgement, as a property of the state *)

(** X20. However a full resync ends, when its reset, if any, did not
    fail: a member of the queue it started from is no longer pending only
    if the index holds the flattening of the rows that the store shows for
    it.  A run that stops early leaves every member it has not written
    pending. *)
Theorem full_resync_unmarks_only_indexed_members `{JSRuntime}
    (fuel : nat) (tenantId : string) (reset : bool) (batchSize : nat)
    (w : World) (id : string) :
  (reset = true → faults w (length (trace w)) = false) →
  id ∈ initial_queue w tenantId reset →
  id ∈ pending_of (syncTenantMembers fuel tenantId reset batchSize w).2
         tenantId
  ∨ ∃ doc,
      current_document w tenantId id doc
      ∧ os_members (syncTenantMembers fuel tenantId reset batchSize w).2 !! id
        = Some doc.
Proof.
  intros Hfirst Hid.
  destruct (syncTenantMembers_state w fuel tenantId reset batchSize Hfirst)
    as (_ & _ & _ & _ & _ & _ & _ & _ & Hq).
  by apply Hq.
Qed.

Lemma full_resync_unmarks_only_indexed_members_witness :
  (true = true →
   faults mark_failing_world (length (trace mark_failing_world)) = false)
  ∧ "A" ∈ initial_queue mark_failing_world "T" true
  ∧ (syncTenantMembers (H := no_text_runtime) 5 "T" true 2
       mark_failing_world).1 = Thrown (CollaboratorError "markSynced")
  ∧ ("A" ∈ pending_of (syncTenantMembers (H := no_text_runtime) 5 "T" true 2
                         mark_failing_world).2 "T"
     ∨ ∃ doc,
         current_document (H := no_text_runtime) mark_failing_world "T" "A"
           doc
         ∧ os_members (syncTenantMembers (H := no_text_runtime) 5 "T" true 2
                         mark_failing_world).2 !! "A" = Some doc).
Proof.
  assert ("A" ∈ initial_queue mark_failing_world "T" true) as Hin
    by (vm_compute; left).
  split; [done|]. split; [exact Hin|]. split; [vm_compute; reflexivity|].
  apply (full_resync_unmarks_only_indexed_members (H := no_text_runtime)
           5 "T" true 2 mark_failing_world "A"); [done|exact Hin].
Defined.

(** * Further properties of the cleanup *)

Lemma search_hits_docs idx tenantId pageSize c h :
  h ∈ search_hits idx tenantId pageSize c →
  ∃ d, idx !! _id h = Some d ∧ uuid_tenantId d = tenantId.
Proof.
  rewrite search_hits_unfold. intros Hh%(subseteq_take pageSize).
  apply elem_of_sorted in Hh as (id & d & -> & Hlook & [Ht _]).
  by exists d.
Qed.

Lemma cleanup_loop_nonempty fuel tenantId pageSize results processed :
  results ≠ [] →
  cleanup_loop (S fuel) tenantId pageSize results processed
  = (let ids := _id <$> results in
     dbIds ← checkMembersExists tenantId ids;
     let toRemove := filter (λ id, id ∉ dbIds) ids in
     (if bool_decide (0 < length toRemove)
      then for_await removeMember toRemove
      else mret ());;
     let processed := processed + length results in
     match last results with
     | None => lift (Err (TypeError "Cannot read properties of undefined"))
     | Some r =>
         let lastJoinedAt := _source_date_joinedAt r in
         results ← search tenantId pageSize (Some lastJoinedAt);
         cleanup_loop fuel tenantId pageSize results processed
     end).
Proof. by destruct results. Qed.

Section CleanupState.
Context (w0 : World) (tenantId : string).

Let Inv := cleanup_state w0 tenantId.

Lemma cleanup_state_log ev w :
  (∀ id, ev ≠ EvRemoveFromIndex id) → Inv w → Inv (log ev w).
Proof.
  intros Hev (Hmem & Hfl & (evs & Htr & Hrm) & Hsub & Hkeep).
  refine (conj Hmem (conj Hfl (conj _ (conj Hsub Hkeep)))).
  exists (evs ++ [ev]). cbn [log trace].
  split; [by rewrite Htr, <- app_assoc|].
  intros id. rewrite removed_ids_app.
  assert (removed_ids [ev] = []) as ->
    by (destruct ev; try done; by destruct (Hev id0)).
  rewrite app_nil_r. apply Hrm.
Qed.

Lemma search_triple pageSize c :
  triple Inv (search tenantId pageSize c)
    (λ hits w, Inv w ∧ ∀ h, h ∈ hits →
                 ∃ d, os_members w !! _id h = Some d
                      ∧ uuid_tenantId d = tenantId)
    Inv.
Proof.
  unfold search. apply triple_collaborator.
  - intros w HS. by apply cleanup_state_log.
  - intros w HS. cbn [fst snd]. split; [by apply cleanup_state_log|].
    intros h Hh. cbn [log os_members]. by eapply search_hits_docs.
Qed.

Lemma remove_all_triple toRemove :
  (∀ id, id ∈ toRemove →
         ∃ d, os_members w0 !! id = Some d ∧ orphan w0 tenantId (id, d)) →
  triple Inv (for_await removeMember toRemove) (λ _ w, Inv w) Inv.
Proof.
  induction toRemove as [|id l IH]; intros Horph; simpl.
  - by apply triple_ret.
  - eapply triple_bind; [|intros u; apply IH; intros id' ?; apply Horph;
                          by right].
    unfold removeMember, removeFromIndex. apply triple_collaborator.
    + intros w HS. by apply cleanup_state_log.
    + intros w (Hmem & Hfl & (evs & Htr & Hrm) & Hsub & Hkeep). cbn [fst snd].
      destruct (Horph id) as (d & Hd & Ho); [by left|].
      refine (conj Hmem (conj Hfl (conj _ (conj _ _)))).
      * exists (evs ++ [EvRemoveFromIndex id]). cbn [log with_index trace].
        split; [by rewrite Htr, <- app_assoc|].
        intros id'. rewrite removed_ids_app.
        intros [Hin|Hin]%elem_of_app; [by apply Hrm|].
        apply list_elem_of_singleton in Hin as ->. by exists d.
      * intros id' d'. cbn [log with_index os_members].
        intros [_ Hl]%lookup_delete_Some. by apply Hsub.
      * intros id' d' Hl Hno. cbn [log with_index os_members].
        apply lookup_delete_Some. split; [|by apply Hkeep].
        intros <-. rewrite Hd in Hl. injection Hl as <-. done.
Qed.

(** The scan keeps the state of the cleanup, whatever call fails. *)
Lemma cleanup_loop_triple fuel pageSize results processed :
  triple (λ w, Inv w ∧ ∀ h, h ∈ results →
                 ∃ d, os_members w !! _id h = Some d
                      ∧ uuid_tenantId d = tenantId)
    (cleanup_loop fuel tenantId pageSize results processed)
    (λ _ w, Inv w) Inv.
Proof.
  revert results processed.
  induction fuel as [|fuel IH]; intros results processed.
  - destruct results; simpl.
    + apply triple_ret. by intros w [? _].
    + apply triple_out_of_fuel. by intros w [? _].
  - destruct (decide (results = [])) as [->|Hne].
    + simpl. apply triple_ret. by intros w [? _].
    + rewrite cleanup_loop_nonempty by done. cbn zeta.
      eapply triple_bind.
      { unfold checkMembersExists.
        apply (triple_collaborator _ _ _ _
                 (λ dbIds w,
                    Inv w
                    ∧ ∀ id, id ∈ filter (λ id, id ∉ dbIds) (_id <$> results) →
                        ∃ d, os_members w0 !! id = Some d
                             ∧ orphan w0 tenantId (id, d))).
        - intros w [HS _]. by apply cleanup_state_log.
        - intros w [HS Hhits]. cbn [fst snd].
          split; [by apply cleanup_state_log|].
          intros id [Hnot Hid]%list_elem_of_filter.
          apply list_elem_of_fmap in Hid as (h & -> & Hh).
          destruct (Hhits h Hh) as (d & Hd & Ht).
          destruct HS as (Hmem & _ & _ & Hsub & _).
          exists d. split; [by apply Hsub|]. split; [done|].
          cbn [fst]. intros Hin. apply Hnot.
          apply list_elem_of_filter. split.
          + by rewrite Hmem.
          + by apply list_elem_of_fmap_2. }
      intros dbIds. apply triple_pure. intros Horph.
      rewrite for_await_guarded.
      eapply triple_bind; [by apply remove_all_triple|].
      intros u. destruct (last results) as [r|].
      * eapply triple_bind; [apply search_triple|].
        intros results'. apply IH.
      * apply triple_lift; [done|by intros w ?].
Qed.

Lemma cleanupMemberIndex_triple fuel :
  triple (λ w, w = w0) (cleanupMemberIndex fuel tenantId) (λ _ w, Inv w) Inv.
Proof.
  unfold cleanupMemberIndex. cbn zeta.
  eapply triple_bind; [|intros results; apply cleanup_loop_triple].
  eapply triple_conseq; [| | |apply search_triple].
  - intros w ->. refine (conj eq_refl (conj eq_refl (conj _ _))); [|done].
    exists []. split; [by rewrite app_nil_r|]. by intros id ?%elem_of_nil.
  - by intros.
  - done.
Qed.

End CleanupState.

(** ** Safety *)

(** X21. A cleanup pass, whatever its outcome and whatever call fails,
    removes from the index only orphans of the tenant: a document whose id
    is a member of the tenant in the store, and every document of another
    tenant, is still in the index, unchanged; nothing is added; and every
    id it removed was the id of an orphan.  This holds also when documents
    share a value of the sort key. *)
Theorem cleanup_removes_only_orphans
    (fuel : nat) (tenantId : string) (w : World) :
  (∀ id d, os_members w !! id = Some d →
           ¬ orphan w tenantId (id, d) →
           os_members (cleanupMemberIndex fuel tenantId w).2 !! id = Some d)
  ∧ (∀ id d,
       os_members (cleanupMemberIndex fuel tenantId w).2 !! id = Some d →
       os_members w !! id = Some d)
  ∧ (∀ id,
       id ∈ removed_ids
              (events_since w (cleanupMemberIndex fuel tenantId w).2) →
       ∃ d, os_members w !! id = Some d ∧ orphan w tenantId (id, d)).
Proof.
  pose proof (cleanupMemberIndex_triple w tenantId fuel w eq_refl) as Hrun.
  assert (cleanup_state w tenantId (cleanupMemberIndex fuel tenantId w).2)
    as (_ & _ & (evs & Htr & Hrm) & Hsub & Hkeep).
  { by destruct (cleanupMemberIndex fuel tenantId w) as [[n| |] w']. }
  split; [exact Hkeep|]. split; [exact Hsub|].
  by rewrite (events_since_app _ _ _ Htr).
Qed.

Lemma cleanup_removes_only_orphans_witness :
  os_members cleanup_world !! "A" = Some (blank_document "A" "T" 10)
  ∧ ¬ orphan cleanup_world "T" ("A", blank_document "A" "T" 10)
  ∧ os_members (cleanupMemberIndex 5 "T" cleanup_world).2 !! "A"
    = Some (blank_document "A" "T" 10).
Proof.
  assert (¬ orphan cleanup_world "T" ("A", blank_document "A" "T" 10))
    as Hno.
  { intros [_ Hnot]. apply Hnot. left. }
  split; [reflexivity|]. split; [exact Hno|].
  apply (proj1 (cleanup_removes_only_orphans 5 "T" cleanup_world));
    [reflexivity|exact Hno].
Defined.

(** ** Pages *)

Section Pages.
Context (idx : gmap string Document) (tenantId : string)
        (c : option timestamp).

Let sorted : list ISearchHit :=
  merge_sort hit_le
    (hit_of <$> filter (tenant_after tenantId c) (map_to_list idx)).
Let page : list ISearchHit := search_hits idx tenantId 500 c.

Lemma elem_of_matching_ids (c0 : option timestamp) (m : gmap string Document)
    id :
  id ∈ (map_to_list (filter (tenant_after tenantId c0) m)).*1
  ↔ ∃ d, m !! id = Some d ∧ tenant_after tenantId c0 (id, d).
Proof.
  rewrite list_elem_of_fmap. split.
  - intros ([id' d] & -> & Hin). apply elem_of_map_to_list in Hin.
    apply map_lookup_filter_Some in Hin as [? ?]. by exists d.
  - intros (d & Hlook & Hp). exists (id, d). split; [done|].
    apply elem_of_map_to_list. by apply map_lookup_filter_Some.
Qed.

Lemma elem_of_sorted_ids id :
  id ∈ _id <$> sorted
  ↔ ∃ d, idx !! id = Some d ∧ tenant_after tenantId c (id, d).
Proof.
  rewrite list_elem_of_fmap. split.
  - intros (h & -> & Hh). apply elem_of_sorted in Hh as (id & d & -> & ? & ?).
    by exists d.
  - intros (d & Hlook & Hp). exists (hit_of (id, d)). split; [done|].
    apply elem_of_sorted. by exists id, d.
Qed.

Lemma length_sorted :
  length sorted = size (filter (tenant_after tenantId c) idx).
Proof.
  rewrite <- length_map_to_list,
    <- (length_fmap fst (map_to_list (filter _ idx))),
    <- (length_fmap _id sorted).
  apply Permutation_length, NoDup_Permutation.
  - apply sorted_ids_NoDup.
  - apply NoDup_fst_map_to_list.
  - intros id. by rewrite elem_of_sorted_ids, elem_of_matching_ids.
Qed.

Lemma length_page :
  length page = 500 `min` size (filter (tenant_after tenantId c) idx).
Proof.
  unfold page. rewrite search_hits_unfold, length_take. fold sorted.
  by rewrite length_sorted.
Qed.

(** The hits of a page are not after the sort key of its last hit. *)
Lemma page_le r h :
  last page = Some r → h ∈ page →
  (_source_date_joinedAt h ≤ _source_date_joinedAt r)%Z.
Proof.
  unfold page. rewrite search_hits_unfold. fold sorted. intros Hlast Hh.
  pose proof (sorted_StronglySorted idx tenantId c) as Hsorted.
  fold sorted in Hsorted.
  rewrite <- (take_drop 500 sorted) in Hsorted.
  apply last_Some in Hlast as [init Hinit].
  apply StronglySorted_app_1_l in Hsorted. rewrite Hinit in Hsorted, Hh.
  apply elem_of_app in Hh as [Hh|Hh%list_elem_of_singleton].
  - apply (StronglySorted_app_1_elem_of hit_le _ _ h r Hsorted Hh).
    by apply list_elem_of_singleton.
  - subst h. lia.
Qed.

Lemma page_ids_NoDup : NoDup (_id <$> page).
Proof.
  unfold page. rewrite search_hits_unfold.
  eapply sublist_NoDup; [apply (sorted_ids_NoDup idx tenantId c)|].
  apply fmap_sublist, sublist_take.
Qed.

Lemma elem_of_page_ids id :
  id ∈ _id <$> page →
  ∃ d, idx !! id = Some d ∧ tenant_after tenantId c (id, d)
       ∧ hit_of (id, d) ∈ page.
Proof.
  intros (h & -> & Hh)%list_elem_of_fmap.
  pose proof Hh as Hh'. unfold page in Hh'. rewrite search_hits_unfold in Hh'.
  apply (subseteq_take 500) in Hh'.
  apply elem_of_sorted in Hh' as (id & d & -> & ? & ?). by exists d.
Qed.

(** After a page, the documents still to scan and the hits of the page are
    different documents among those that were to scan. *)
Lemma page_step_le r (idx1 : gmap string Document) :
  last page = Some r →
  idx1 ⊆ idx →
  length page
  + size (filter (tenant_after tenantId (Some (_source_date_joinedAt r))) idx1)
  ≤ size (filter (tenant_after tenantId c) idx).
Proof.
  intros Hlast Hsub.
  rewrite <- !length_map_to_list.
  rewrite <- (length_fmap fst (map_to_list (filter _ idx1))),
    <- (length_fmap fst (map_to_list (filter _ idx))),
    <- (length_fmap _id page), <- length_app.
  apply submseteq_length, NoDup_submseteq.
  - apply NoDup_app. split; [apply page_ids_NoDup|].
    split; [|apply NoDup_fst_map_to_list].
    intros id Hid (d' & Hl' & [_ Hafter])%elem_of_matching_ids.
    apply elem_of_page_ids in Hid as (d & Hl & _ & Hh).
    pose proof (page_le r _ Hlast Hh) as Hle.
    assert (d' = d) as ->.
    { eapply lookup_weaken in Hl'; [|exact Hsub]. congruence. }
    simpl in Hafter, Hle. lia.
  - intros id [Hid|Hid]%elem_of_app; apply elem_of_matching_ids.
    + apply elem_of_page_ids in Hid as (d & Hl & Hp & _). by exists d.
    + apply elem_of_matching_ids in Hid as (d & Hl & [Ht Hafter]).
      exists d. split; [by eapply lookup_weaken|]. split; [done|].
      assert (r ∈ page) as Hr by by apply last_Some_elem_of.
      assert (r.(_id) ∈ _id <$> page) as Hrid by by apply list_elem_of_fmap_2.
      unfold page in Hr. rewrite search_hits_unfold in Hr.
      apply (subseteq_take 500) in Hr.
      apply elem_of_sorted in Hr as (idr & dr & -> & _ & [_ Hc]).
      simpl in *. eapply after_mono; [exact Hc|lia].
Qed.

End Pages.

Lemma delete_all_subseteq (m : gmap string Document) (l : list string) :
  foldl (λ m id, delete id m) m l ⊆ m.
Proof.
  apply map_subseteq_spec. intros i d. rewrite lookup_delete_all.
  by destruct (decide (i ∈ l)).
Qed.

Lemma searches_app evs1 evs2 :
  searches (evs1 ++ evs2) = searches evs1 ++ searches evs2.
Proof. apply omap_app. Qed.

Lemma searches_removes l : searches (EvRemoveFromIndex <$> l) = [].
Proof. induction l as [|id l IH]; [done|]. exact IH. Qed.

(** With distinct sort keys, the hits of a page and the documents still to
    scan after it are all the documents that were to scan. *)
Lemma page_step_eq idx tenantId c r (toRemove : list string)
    (idx1 : gmap string Document) :
  sort_key_injective tenantId idx →
  last (search_hits idx tenantId 500 c) = Some r →
  (∀ id, idx1 !! id = if decide (id ∈ toRemove) then None else idx !! id) →
  (∀ id, id ∈ toRemove → id ∈ _id <$> search_hits idx tenantId 500 c) →
  length (search_hits idx tenantId 500 c)
  + size (filter (tenant_after tenantId (Some (_source_date_joinedAt r))) idx1)
  = size (filter (tenant_after tenantId c) idx).
Proof.
  intros Hdist Hlast Hlook1 Hrem.
  assert (idx1 ⊆ idx) as Hsub.
  { apply map_subseteq_spec. intros i d. rewrite Hlook1.
    by destruct (decide (i ∈ toRemove)). }
  apply Nat.le_antisymm; [by apply page_step_le|].
  rewrite <- !length_map_to_list.
  rewrite <- (length_fmap fst (map_to_list (filter _ idx1))),
    <- (length_fmap fst (map_to_list (filter _ idx))),
    <- (length_fmap _id (search_hits _ _ _ _)), <- length_app.
  apply submseteq_length, NoDup_submseteq; [apply NoDup_fst_map_to_list|].
  intros id (d & Hl & Hp)%elem_of_matching_ids.
  pose proof Hlast as Hlast'. rewrite search_hits_unfold in Hlast'.
  apply elem_of_app.
  destruct (decide (date_joinedAt d ≤ _source_date_joinedAt r)%Z)
    as [Hle|Hgt].
  - left. apply list_elem_of_fmap. exists (hit_of (id, d)). split; [done|].
    rewrite search_hits_unfold.
    apply (page_spec idx tenantId c Hdist 500 _ _ Hlast').
    split; [|done]. apply elem_of_sorted. by exists id, d.
  - right. apply elem_of_matching_ids. exists d. split.
    + rewrite Hlook1. rewrite decide_False; [done|].
      intros Hin%Hrem. apply elem_of_page_ids in Hin as (d' & Hl' & _ & Hh).
      pose proof (page_le idx tenantId c r _ Hlast Hh) as Hle.
      simplify_eq. simpl in Hle. lia.
    + destruct Hp as [Ht _]. split; [done|]. simpl. lia.
Qed.

(** The scan ends, also when documents share a sort key, and counts no
    more documents than there were to scan. *)
Lemma cleanup_loop_returns fuel tenantId c processed w :
  fault_free w →
  size (filter (tenant_after tenantId c) (os_members w)) ≤ fuel →
  ∃ n w',
    cleanup_loop fuel tenantId 500
      (search_hits (os_members w) tenantId 500 c) processed w
    = (Returned n, w')
    ∧ n ≤ processed
          + size (filter (tenant_after tenantId c) (os_members w)).
Proof.
  revert c processed w.
  induction fuel as [|fuel IH]; intros c processed w Hf Hsize;
    (destruct (last (search_hits (os_members w) tenantId 500 c)) as [r|]
       eqn:Hlast;
     [|apply last_None in Hlast; rewrite Hlast, cleanup_loop_nil;
       exists processed, w; split; [done|lia]]).
  - exfalso. apply last_Some_elem_of in Hlast.
    pose proof (length_page (os_members w) tenantId c) as Hlen.
    destruct (search_hits (os_members w) tenantId 500 c);
      [by apply elem_of_nil in Hlast|]. cbn [length] in Hlen. lia.
  - destruct (cleanup_loop_step fuel tenantId _ r processed w Hf Hlast)
      as (w3 & Hstep & Hidx3 & _ & Hf3 & _).
    cbv zeta in Hstep, Hidx3.
    pose proof (page_step_le (os_members w) tenantId c r (os_members w3)
                  Hlast) as Hle.
    rewrite Hidx3 in Hle at 1.
    specialize (Hle (delete_all_subseteq _ _)).
    assert (0 < length (search_hits (os_members w) tenantId 500 c)) as Hpos.
    { apply last_Some_elem_of in Hlast.
      destruct (search_hits (os_members w) tenantId 500 c);
        [by apply elem_of_nil in Hlast|simpl; lia]. }
    destruct (IH (Some (_source_date_joinedAt r))
                (processed
                 + length (search_hits (os_members w) tenantId 500 c)) w3)
      as (n & w' & Hrun & Hn); [exact Hf3|lia|].
    exists n, w'. rewrite Hstep, <- Hidx3. split; [exact Hrun|]. lia.
Qed.

Lemma tenant_after_None tenantId (idx : gmap string Document) :
  filter (tenant_after tenantId None) idx
  = filter (λ kv, uuid_tenantId kv.2 = tenantId) idx.
Proof.
  apply map_filter_ext. intros id d _. unfold tenant_after. simpl. tauto.
Qed.

(** X22. A cleanup pass in which no call throws ends, also when documents
    of the tenant share a value of the sort key: as many iterations as the
    tenant has documents in the index suffice, and the pass counts no more
    documents than that. *)
Theorem cleanup_ends_with_shared_sort_keys
    (fuel : nat) (tenantId : string) (w : World) :
  fault_free w →
  size (filter (λ kv, uuid_tenantId kv.2 = tenantId) (os_members w)) ≤ fuel →
  ∃ n w',
    cleanupMemberIndex fuel tenantId w = (Returned n, w')
    ∧ n ≤ size (filter (λ kv, uuid_tenantId kv.2 = tenantId) (os_members w)).
Proof.
  intros Hf Hfuel. rewrite <- tenant_after_None in *.
  unfold cleanupMemberIndex. cbv zeta.
  rewrite bind_run. unfold search.
  rewrite collaborator_run by apply Hf. cbn [fst snd].
  destruct (cleanup_loop_returns fuel tenantId None 0
              (log (EvSearch tenantId 500 None
                      (search_hits (os_members w) tenantId 500 None)) w))
    as (n & w' & Hrun & Hn); [intros k; apply Hf|exact Hfuel|].
  exists n, w'. split; [exact Hrun|exact Hn].
Qed.

Lemma cleanup_ends_with_shared_sort_keys_witness :
  fault_free tie_world
  ∧ size (filter (λ kv, uuid_tenantId kv.2 = "T") (os_members tie_world))
    ≤ 501
  ∧ ∃ n w',
      cleanupMemberIndex 501 "T" tie_world = (Returned n, w')
      ∧ n ≤ size (filter (λ kv, uuid_tenantId kv.2 = "T")
                    (os_members tie_world)).
Proof.
  assert (size (filter (λ kv, uuid_tenantId kv.2 = "T")
                  (os_members tie_world)) ≤ 501) as Hsize.
  { etrans; [apply map_size_filter|].
    apply (bool_decide_unpack _). vm_compute. exact I. }
  split; [done|]. split; [exact Hsize|].
  apply (cleanup_ends_with_shared_sort_keys 501 "T" tie_world);
    [done|exact Hsize].
Defined.

(** With distinct sort keys the scan counts every document after the
    cursor once, in pages that are full except the last one. *)
Lemma cleanup_loop_count fuel tenantId c processed w :
  fault_free w →
  sort_key_injective tenantId (os_members w) →
  size (filter (tenant_after tenantId c) (os_members w)) ≤ fuel →
  ∃ w' evs sizes,
    cleanup_loop fuel tenantId 500
      (search_hits (os_members w) tenantId 500 c) processed w
    = (Returned
         (processed + size (filter (tenant_after tenantId c) (os_members w))),
       w')
    ∧ trace w' = trace w ++ evs
    ∧ length (search_hits (os_members w) tenantId 500 c) :: searches evs
      = sizes ++ [0]
    ∧ Forall (λ k, 0 < k ≤ 500) sizes
    ∧ length sizes
      = ceil_div (size (filter (tenant_after tenantId c) (os_members w))) 500
    ∧ sum_list sizes
      = size (filter (tenant_after tenantId c) (os_members w)).
Proof.
  revert c processed w.
  induction fuel as [|fuel IH]; intros c processed w Hf Hdist Hsize;
    pose proof (length_page (os_members w) tenantId c) as Hlen;
    (destruct (last (search_hits (os_members w) tenantId 500 c)) as [r|]
       eqn:Hlast;
     [|apply last_None in Hlast; rewrite Hlast in *;
       rewrite cleanup_loop_nil; cbn [length] in Hlen;
       assert (size (filter (tenant_after tenantId c) (os_members w)) = 0)
         as -> by lia;
       exists w, [], []; rewrite app_nil_r, Nat.add_0_r, ceil_div_0;
       repeat split; done]).
  - exfalso. apply last_Some_elem_of in Hlast.
    destruct (search_hits (os_members w) tenantId 500 c);
      [by apply elem_of_nil in Hlast|]. cbn [length] in Hlen. lia.
  - destruct (cleanup_loop_step fuel tenantId _ r processed w Hf Hlast)
      as (w3 & Hstep & Hidx3 & Htr3 & Hf3 & _).
    cbv zeta in Hstep, Hidx3, Htr3.
    set (page := search_hits (os_members w) tenantId 500 c) in *.
    set (ids := _id <$> page) in *.
    set (dbIds := filter (λ id, (tenantId, id) ∈ db_members w) ids) in *.
    set (toRemove := filter (λ id, id ∉ dbIds) ids) in *.
    set (c' := Some (_source_date_joinedAt r)) in *.
    set (N := size (filter (tenant_after tenantId c) (os_members w))) in *.
    assert (Hlook1 : ∀ id, os_members w3 !! id
                           = if decide (id ∈ toRemove) then None
                             else os_members w !! id)
      by (intros id; rewrite Hidx3; apply lookup_delete_all).
    pose proof (page_step_eq (os_members w) tenantId c r toRemove
                  (os_members w3) Hdist Hlast Hlook1) as Heq.
    fold page c' N in Heq.
    assert (length page + size (filter (tenant_after tenantId c')
                                  (os_members w3)) = N) as HN.
    { apply Heq. intros id [_ ?]%list_elem_of_filter. done. }
    assert (0 < length page) as Hpos.
    { apply last_Some_elem_of in Hlast.
      destruct page; [by apply elem_of_nil in Hlast|simpl; lia]. }
    destruct (IH c' (processed + length page) w3)
      as (w' & evs & sizes & Hrun & Htr & Hsizes & Hall & Hcount & Hsum).
    { exact Hf3. }
    { intros i j d1 d2 Hi Hj. rewrite Hlook1 in Hi, Hj.
      destruct (decide (i ∈ toRemove)); [done|].
      destruct (decide (j ∈ toRemove)); [done|]. by apply Hdist. }
    { lia. }
    rewrite <- Hidx3 in Hstep.
    exists w',
      (EvCheckMembersExists tenantId ids dbIds
       :: (EvRemoveFromIndex <$> toRemove)
       ++ EvSearch tenantId 500 c' (search_hits (os_members w3) tenantId 500 c')
       :: evs),
      (length page :: sizes).
    split; [rewrite Hstep, Hrun; f_equal; f_equal; lia|].
    split.
    { rewrite Htr, Htr3, Hidx3. rewrite <- !app_assoc. simpl.
      by rewrite <- !app_assoc. }
    split.
    { change (searches (EvCheckMembersExists tenantId ids dbIds :: ?l))
        with (searches l).
      rewrite searches_app, searches_removes. simpl.
      change (searches (EvSearch tenantId 500 c' ?h :: evs))
        with (length h :: searches evs).
      by rewrite Hsizes. }
    split; [constructor; [lia|done]|].
    split.
    { cbn [length]. rewrite Hcount. rewrite (ceil_div_step N 500) by lia.
      f_equal. f_equal. lia. }
    cbn [sum_list_with]. rewrite Hsum. unfold id. lia.
Qed.

(** X23. When the documents of the tenant have pairwise distinct sort keys
    and no call throws, a cleanup pass scans each of the N documents of the
    tenant once: the count it reports is N, it fetches
    [ceil (N / 500)] pages that are not empty, of at most 500 hits each and
    of N hits in total, and one more, empty, on which it ends. *)
Theorem cleanup_scans_each_document_once
    (fuel : nat) (tenantId : string) (w : World) :
  let N := size (filter (λ kv, uuid_tenantId kv.2 = tenantId)
                   (os_members w)) in
  fault_free w →
  distinct_sort_keys tenantId (os_members w) →
  N ≤ fuel →
  ∃ w' sizes,
    cleanupMemberIndex fuel tenantId w = (Returned N, w')
    ∧ searches (events_since w w') = sizes ++ [0]
    ∧ Forall (λ k, 0 < k ≤ 500) sizes
    ∧ length sizes = ceil_div N 500
    ∧ sum_list sizes = N.
Proof.
  intros N Hf Hdist%distinct_sort_keys_injective Hfuel.
  unfold N in *. rewrite <- tenant_after_None in *.
  unfold cleanupMemberIndex. cbv zeta.
  rewrite bind_run. unfold search.
  rewrite collaborator_run by apply Hf. cbn [fst snd].
  set (hits := search_hits (os_members w) tenantId 500 None).
  destruct (cleanup_loop_count fuel tenantId None 0
              (log (EvSearch tenantId 500 None hits) w))
    as (w' & evs & sizes & Hrun & Htr & Hsizes & Hall & Hcount & Hsum);
    [intros k; apply Hf|exact Hdist|exact Hfuel|].
  exists w', sizes. split; [exact Hrun|].
  cbn [log os_members trace] in *. fold hits in Hsizes.
  split; [|done].
  rewrite <- app_assoc in Htr.
  by rewrite (events_since_app _ _ _ Htr).
Qed.

Lemma cleanup_scans_each_document_once_witness :
  fault_free cleanup_world
  ∧ distinct_sort_keys "T" (os_members cleanup_world)
  ∧ size (filter (λ kv, uuid_tenantId kv.2 = "T") (os_members cleanup_world))
    ≤ 5
  ∧ ∃ w' sizes,
      cleanupMemberIndex 5 "T" cleanup_world
      = (Returned
           (size (filter (λ kv, uuid_tenantId kv.2 = "T")
                    (os_members cleanup_world))), w')
      ∧ searches (events_since cleanup_world w') = sizes ++ [0]
      ∧ Forall (λ k, 0 < k ≤ 500) sizes
      ∧ length sizes
        = ceil_div (size (filter (λ kv, uuid_tenantId kv.2 = "T")
                            (os_members cleanup_world))) 500
      ∧ sum_list sizes
        = size (filter (λ kv, uuid_tenantId kv.2 = "T")
                  (os_members cleanup_world)).
Proof.
  assert (distinct_sort_keys "T" (os_members cleanup_world)) as Hdist
    by (apply (bool_decide_unpack _); vm_compute; exact I).
  assert (size (filter (λ kv, uuid_tenantId kv.2 = "T")
                  (os_members cleanup_world)) ≤ 5) as Hsize
    by (apply (bool_decide_unpack _); vm_compute; exact I).
  split; [done|]. split; [exact Hdist|]. split; [exact Hsize|].
  apply (cleanup_scans_each_document_once 5 "T" cleanup_world);
    [done|exact Hdist|exact Hsize].
Defined.

(** ** Repeating a cleanup *)

(** The pass on an index with distinct sort keys, when no call throws. *)
Lemma cleanupMemberIndex_exact fuel tenantId w :
  fault_free w →
  sort_key_injective tenantId (os_members w) →
  size (os_members w) ≤ fuel →
  ∃ n w',
    cleanupMemberIndex fuel tenantId w = (Returned n, w')
    ∧ os_members w' = filter (λ kv, ¬ orphan w tenantId kv) (os_members w)
    ∧ (∀ id, id ∈ removed_ids (events_since w w') ↔
             ∃ d, os_members w !! id = Some d ∧ orphan w tenantId (id, d)).
Proof.
  intros Hf Hdist Hfuel.
  unfold cleanupMemberIndex. cbv zeta.
  set (hits := search_hits (os_members w) tenantId 500 None).
  set (w0 := log (EvSearch tenantId 500 None hits) w).
  destruct (cleanup_loop_spec fuel tenantId None 0 w0)
    as (n & w' & evs & Hrun & Htr & Hprot & Hidx & Hnd & Hiff);
    [intros k; apply Hf|exact Hdist| |].
  { etrans; [apply map_size_filter|exact Hfuel]. }
  exists n, w'. rewrite bind_run. unfold search.
  rewrite collaborator_run by apply Hf. cbn [fst snd]. fold hits. fold w0.
  split; [exact Hrun|].
  assert (Hevs : events_since w w' = EvSearch tenantId 500 None hits :: evs).
  { apply events_since_app. rewrite Htr. subst w0. cbn [log trace].
    by rewrite <- app_assoc. }
  rewrite Hevs.
  change (removed_ids (EvSearch tenantId 500 None hits :: evs))
    with (removed_ids evs).
  split.
  - rewrite Hidx. apply map_filter_ext. intros id d _.
    unfold tenant_after, orphan. simpl. tauto.
  - intros id. rewrite Hiff. unfold tenant_after, orphan. simpl.
    split; intros (d & Hlook & Hrest); exists d; (split; [done|]); tauto.
Qed.

(** X24. When the documents of the tenant have pairwise distinct sort keys
    and no call throws, a second cleanup pass right after a first one finds
    no orphan: it removes nothing and leaves the index as the first pass
    left it. *)
Theorem cleanup_twice_removes_nothing_more
    (fuel : nat) (tenantId : string) (w : World) :
  fault_free w →
  distinct_sort_keys tenantId (os_members w) →
  size (os_members w) ≤ fuel →
  ∃ n1 w1 n2 w2,
    cleanupMemberIndex fuel tenantId w = (Returned n1, w1)
    ∧ cleanupMemberIndex fuel tenantId w1 = (Returned n2, w2)
    ∧ removed_ids (events_since w1 w2) = []
    ∧ os_members w2 = os_members w1.
Proof.
  intros Hf Hdist%distinct_sort_keys_injective Hfuel.
  destruct (cleanupMemberIndex_exact fuel tenantId w Hf Hdist Hfuel)
    as (n1 & w1 & Hrun1 & Hidx1 & _).
  pose proof (cleanupMemberIndex_triple w tenantId fuel w eq_refl) as Hst.
  rewrite Hrun1 in Hst. destruct Hst as (Hmem & Hfl & _ & Hsub & _).
  assert (Hno : ∀ id d, os_members w1 !! id = Some d →
                        ¬ orphan w1 tenantId (id, d)).
  { intros id d Hl. rewrite Hidx1 in Hl.
    apply map_lookup_filter_Some in Hl as [_ Hno].
    unfold orphan in *. by rewrite Hmem. }
  destruct (cleanupMemberIndex_exact fuel tenantId w1)
    as (n2 & w2 & Hrun2 & Hidx2 & Hiff2).
  { intros k. rewrite Hfl. apply Hf. }
  { intros i j d1 d2 Hi Hj. apply Hdist; by apply Hsub. }
  { etrans; [|exact Hfuel]. rewrite Hidx1. apply map_size_filter. }
  exists n1, w1, n2, w2. split; [done|]. split; [done|]. split.
  - destruct (removed_ids (events_since w1 w2)) as [|id l] eqn:Hrm; [done|].
    exfalso. destruct (proj1 (Hiff2 id)) as (d & Hl & Ho); [by left|].
    by apply (Hno id d).
  - rewrite Hidx2. apply map_filter_id. intros id d Hl. by apply Hno.
Qed.

Lemma cleanup_twice_removes_nothing_more_witness :
  fault_free cleanup_world
  ∧ distinct_sort_keys "T" (os_members cleanup_world)
  ∧ size (os_members cleanup_world) ≤ 5
  ∧ ∃ n1 w1 n2 w2,
      cleanupMemberIndex 5 "T" cleanup_world = (Returned n1, w1)
      ∧ cleanupMemberIndex 5 "T" w1 = (Returned n2, w2)
      ∧ removed_ids (events_since w1 w2) = []
      ∧ os_members w2 = os_members w1.
Proof.
  assert (distinct_sort_keys "T" (os_members cleanup_world)) as Hdist
    by (apply (bool_decide_unpack _); vm_compute; exact I).
  assert (size (os_members cleanup_world) ≤ 5) as Hsize
    by (apply (bool_decide_unpack _); vm_compute; exact I).
  split; [done|]. split; [exact Hdist|]. split; [exact Hsize|].
  apply (cleanup_twice_removes_nothing_more 5 "T" cleanup_world);
    [done|exact Hdist|exact Hsize].
Defined.

(** * The count of a full resync *)

Lemma marked_ids_app evs1 evs2 :
  marked_ids (evs1 ++ evs2) = marked_ids evs1 ++ marked_ids evs2.
Proof. unfold marked_ids. by rewrite omap_app, concat_app. Qed.

Lemma marked_since_log base n ev w :
  (∀ ids, ev ≠ EvMarkSynced ids) →
  marked_since base n w → marked_since base n (log ev w).
Proof.
  intros Hev (evs & Htr & Hn). exists (evs ++ [ev]). cbn [log trace].
  split; [by rewrite Htr, <- app_assoc|].
  rewrite marked_ids_app.
  assert (marked_ids [ev] = []) as ->
    by (destruct ev; try done; by destruct (Hev ids)).
  by rewrite app_nil_r.
Qed.

Section Count.
Context `{JSRuntime}.
Context (base : list Event).

Lemma sync_loop_count fuel tenantId batchSize attributes memberIds count :
  triple (marked_since base count)
    (sync_loop fuel tenantId batchSize attributes memberIds count)
    (λ n w, marked_since base n w) (λ _, True).
Proof.
  revert memberIds count.
  induction fuel as [|fuel IH]; intros memberIds count.
  - destruct memberIds; simpl.
    + by apply triple_ret.
    + by apply triple_out_of_fuel.
  - destruct (decide (memberIds = [])) as [->|Hne].
    + simpl. by apply triple_ret.
    + rewrite sync_loop_nonempty by done.
      eapply triple_bind.
      { unfold getMemberData.
        apply (triple_collaborator _ _ _ _
                 (λ _ w, marked_since base count w)); [done|].
        intros w Hw. cbn [fst snd]. by apply marked_since_log. }
      intros rows. cbn zeta.
      eapply (triple_bind _ _ _ (λ n w, marked_since base n w)).
      { case_bool_decide; [|by apply triple_ret].
        cbn zeta.
        eapply (triple_bind _ _ _ (λ _ w, marked_since base count w)).
        { by apply triple_lift. }
        intros prepared.
        eapply (triple_bind _ _ _ (λ _ w, marked_since base count w)).
        { unfold bulkIndex. apply triple_collaborator; [done|].
          intros w Hw. cbn [fst snd]. by apply marked_since_log. }
        intros u.
        eapply (triple_bind _ _ _
                  (λ _ w, marked_since base
                            (count + length (groupBy rows m_id).*1) w));
          [|intros u'; by apply triple_ret].
        unfold markSynced. apply triple_collaborator; [done|].
        intros w (evs & Htr & Hn). cbn [fst snd].
        exists (evs ++ [EvMarkSynced (groupBy rows m_id).*1]).
        cbn [log with_pending trace].
        split; [by rewrite Htr, <- app_assoc|].
        rewrite marked_ids_app, length_app, <- Hn.
        unfold marked_ids at 1. simpl. by rewrite app_nil_r. }
      intros count'.
      eapply triple_bind; [|intros memberIds'; apply IH].
      unfold getTenantMembersForSync.
      apply (triple_collaborator _ _ _ _
               (λ _ w, marked_since base count' w)); [done|].
      intros w Hw. cbn [fst snd]. by apply marked_since_log.
Qed.

End Count.

(** X25. The count that a full resync reports when it returns is the
    number of ids that its calls of [markSynced] were given: the members it
    wrote to the index and then marked synced. *)
Theorem full_resync_reports_the_members_it_marked `{JSRuntime}
    (fuel : nat) (tenantId : string) (reset : bool) (batchSize : nat)
    (w : World) (n : nat) (w' : World) :
  syncTenantMembers fuel tenantId reset batchSize w = (Returned n, w') →
  n = length (marked_ids (events_since w w')).
Proof.
  intros Hrun.
  assert (triple (λ w1, w1 = w)
            (syncTenantMembers fuel tenantId reset batchSize)
            (λ n w1, marked_since (trace w) n w1) (λ _, True)) as Htriple.
  { unfold syncTenantMembers.
    eapply (triple_bind _ _ _ (λ _ w1, marked_since (trace w) 0 w1)).
    { destruct reset.
      - unfold setTenanMembersForSync. apply triple_collaborator; [done|].
        intros w1 ->. cbn [fst snd].
        exists [EvSetTenanMembersForSync tenantId]. done.
      - apply triple_ret. intros w1 ->. exists []. by rewrite app_nil_r. }
    intros u.
    eapply (triple_bind _ _ _ (λ _ w1, marked_since (trace w) 0 w1)).
    { unfold getTenantMemberAttributes. apply triple_collaborator; [done|].
      intros w1 Hw1. cbn [fst snd]. by apply marked_since_log. }
    intros attributes.
    eapply (triple_bind _ _ _ (λ _ w1, marked_since (trace w) 0 w1)).
    { unfold getTenantMembersForSync. apply triple_collaborator; [done|].
      intros w1 Hw1. cbn [fst snd]. by apply marked_since_log. }
    intros memberIds. apply sync_loop_count. }
  specialize (Htriple w eq_refl). rewrite Hrun in Htriple.
  destruct Htriple as (evs & Htr & ->).
  by rewrite (events_since_app _ _ _ Htr).
Qed.

Lemma full_resync_reports_the_members_it_marked_witness :
  ∃ w',
    syncTenantMembers (H := no_text_runtime) 5 "T" true 2 resync_world
    = (Returned 3, w')
    ∧ 3 = length (marked_ids (events_since resync_world w')).
Proof.
  eexists. split; [vm_compute; reflexivity|].
  apply (full_resync_reports_the_members_it_marked (H := no_text_runtime)
           5 "T" true 2 resync_world).
  vm_compute; reflexivity.
Defined.

(** * How the operations compose *)

Lemma filter_singleton_id (id : string) (l : list IDbMemberSyncData) :
  filter (λ r, m_id r ∈ [id]) l = filter (λ r, m_id r = id) l.
Proof.
  apply filter_ext_in. intros r _. by rewrite list_elem_of_singleton.
Qed.

(** X26. After a full resync with a positive batch size has returned, an
    incremental sync of a member of its queue whose rows are rows of the
    tenant, with the store unchanged and no call throwing, changes nothing
    in the index: both paths write the same document for a member. *)
Theorem incremental_sync_after_full_resync_changes_nothing `{JSRuntime}
    (fuel : nat) (tenantId : string) (reset : bool) (batchSize : nat)
    (w : World) (n : nat) (w1 : World) (id : string) (retries : nat) :
  fault_free w →
  0 < batchSize →
  syncTenantMembers fuel tenantId reset batchSize w = (Returned n, w1) →
  id ∈ initial_queue w tenantId reset →
  (∀ r, r ∈ db_snapshots w (clock w) → m_id r = id →
        m_tenantId r = tenantId) →
  ∃ doc w2,
    os_members w1 !! id = Some doc
    ∧ syncMember id retries w1 = (Returned (), w2)
    ∧ os_members w2 = os_members w1.
Proof.
  intros Hf HB Hrun Hid Htenant.
  pose proof (syncTenantMembers_triple w fuel tenantId reset batchSize w
                eq_refl) as Htriple.
  rewrite Hrun in Htriple. destruct Htriple as [HK Hempty].
  specialize (Hempty HB).
  destruct HK as (Hfl & _ & Hclk & Hsn & Hat & _ & _ & _ & Hq).
  destruct (Hq id Hid) as [Hp|(doc & Hdoc & Hlook)].
  { rewrite Hempty in Hp. by apply elem_of_nil in Hp. }
  unfold current_document in Hdoc.
  destruct (filter (λ r, m_id r = id) (db_snapshots w (clock w)))
    as [|member0 rest] eqn:Hrows; [done|].
  assert (m_tenantId member0 = tenantId) as Hten.
  { assert (member0 ∈ filter (λ r, m_id r = id) (db_snapshots w (clock w)))
      as Hin by (rewrite Hrows; by left).
    apply list_elem_of_filter in Hin as [? ?]. by apply Htenant. }
  exists doc. eexists. split; [done|]. split.
  - unfold syncMember.
    apply (syncMember_from_found _ _ _ _ member0 rest doc).
    + intros k. rewrite Hfl. apply Hf.
    + unfold visible_rows. rewrite Hsn, Hclk, filter_singleton_id. done.
    + by rewrite Hat, Hten.
  - cbn [log with_pending with_index os_members].
    by apply insert_id.
Qed.

Lemma incremental_sync_after_full_resync_changes_nothing_witness :
  ∃ w1,
    fault_free resync_world
    ∧ 0 < 2
    ∧ syncTenantMembers (H := no_text_runtime) 5 "T" true 2 resync_world
      = (Returned 3, w1)
    ∧ "B" ∈ initial_queue resync_world "T" true
    ∧ ∃ doc w2,
        os_members w1 !! "B" = Some doc
        ∧ syncMember (H := no_text_runtime) "B" 0 w1 = (Returned (), w2)
        ∧ os_members w2 = os_members w1.
Proof.
  assert ("B" ∈ initial_queue resync_world "T" true) as Hin
    by (vm_compute; right; left).
  eexists. split; [done|]. split; [lia|].
  split; [vm_compute; reflexivity|]. split; [exact Hin|].
  apply (incremental_sync_after_full_resync_changes_nothing
           (H := no_text_runtime) 5 "T" true 2 resync_world 3 _ "B" 0).
  - done.
  - lia.
  - vm_compute; reflexivity.
  - exact Hin.
  - intros r Hr _. cbn in Hr. elems Hr; by subst.
Defined.

(** X27. A cleanup pass of a tenant that follows a full resync of the
    tenant with reset and a positive batch size, which returned, removes
    none of the documents of the members the resync indexed, whatever
    happens during the pass: the two operations agree on which members
    exist. *)
Theorem cleanup_after_full_resync_keeps_the_members `{JSRuntime}
    (fuel fuel' : nat) (tenantId : string) (batchSize : nat)
    (w : World) (n : nat) (w1 : World) (id : string) :
  0 < batchSize →
  syncTenantMembers fuel tenantId true batchSize w = (Returned n, w1) →
  id ∈ initial_queue w tenantId true →
  ∃ doc,
    current_document w tenantId id doc
    ∧ os_members w1 !! id = Some doc
    ∧ os_members (cleanupMemberIndex fuel' tenantId w1).2 !! id = Some doc.
Proof.
  intros HB Hrun Hid.
  pose proof (syncTenantMembers_triple w fuel tenantId true batchSize w
                eq_refl) as Htriple.
  rewrite Hrun in Htriple. destruct Htriple as [HK Hempty].
  specialize (Hempty HB).
  destruct HK as (_ & Hdb & _ & _ & _ & _ & _ & _ & Hq).
  destruct (Hq id Hid) as [Hp|(doc & Hdoc & Hlook)].
  { rewrite Hempty in Hp. by apply elem_of_nil in Hp. }
  exists doc. split; [done|]. split; [done|].
  assert (cleanup_state w1 tenantId (cleanupMemberIndex fuel' tenantId w1).2)
    as (_ & _ & _ & _ & Hkeep).
  { pose proof (cleanupMemberIndex_triple w1 tenantId fuel' w1 eq_refl)
      as Hc.
    by destruct (cleanupMemberIndex fuel' tenantId w1) as [[k| |] w2]. }
  apply Hkeep; [done|].
  intros [_ Hnot]. apply Hnot. cbn [fst]. rewrite Hdb.
  unfold initial_queue in Hid.
  apply list_elem_of_fmap in Hid as ([t i] & -> & Hm).
  apply list_elem_of_filter in Hm as [Ht Hm]. simpl in Ht. by subst.
Qed.

Lemma cleanup_after_full_resync_keeps_the_members_witness :
  ∃ w1,
    0 < 2
    ∧ syncTenantMembers (H := no_text_runtime) 5 "T" true 2 resync_world
      = (Returned 3, w1)
    ∧ "B" ∈ initial_queue resync_world "T" true
    ∧ ∃ doc,
        current_document (H := no_text_runtime) resync_world "T" "B" doc
        ∧ os_members w1 !! "B" = Some doc
        ∧ os_members (cleanupMemberIndex 5 "T" w1).2 !! "B" = Some doc.
Proof.
  assert ("B" ∈ initial_queue resync_world "T" true) as Hin
    by (vm_compute; right; left).
  eexists. split; [lia|]. split; [vm_compute; reflexivity|].
  split; [exact Hin|].
  apply (cleanup_after_full_resync_keeps_the_members
           (H := no_text_runtime) 5 5 "T" 2 resync_world 3 _ "B").
  - lia.
  - vm_compute; reflexivity.
  - exact Hin.
Defined.

(** X28. The result of a full resync does not depend on the batch size: two
    runs from the same world, with positive batch sizes, that both return
    leave the same index, and both leave nothing pending for the tenant. *)
Theorem full_resync_result_is_independent_of_batch_size `{JSRuntime}
    (fuel1 fuel2 : nat) (tenantId : string) (reset : bool)
    (batchSize1 batchSize2 : nat) (w : World)
    (n1 n2 : nat) (w1 w2 : World) :
  0 < batchSize1 →
  0 < batchSize2 →
  syncTenantMembers fuel1 tenantId reset batchSize1 w = (Returned n1, w1) →
  syncTenantMembers fuel2 tenantId reset batchSize2 w = (Returned n2, w2) →
  os_members w1 = os_members w2
  ∧ pending_of w1 tenantId = []
  ∧ pending_of w2 tenantId = [].
Proof.
  intros HB1 HB2 Hrun1 Hrun2.
  pose proof (syncTenantMembers_triple w fuel1 tenantId reset batchSize1 w
                eq_refl) as H1.
  pose proof (syncTenantMembers_triple w fuel2 tenantId reset batchSize2 w
                eq_refl) as H2.
  rewrite Hrun1 in H1. rewrite Hrun2 in H2.
  destruct H1 as [(_ & _ & _ & _ & _ & _ & Hout1 & _ & Hq1) He1].
  destruct H2 as [(_ & _ & _ & _ & _ & _ & Hout2 & _ & Hq2) He2].
  specialize (He1 HB1). specialize (He2 HB2).
  split; [|done].
  apply map_eq. intros id.
  destruct (decide (id ∈ initial_queue w tenantId reset)) as [Hid|Hid].
  - destruct (Hq1 id Hid) as [Hp|(doc1 & Hd1 & ->)];
      [rewrite He1 in Hp; by apply elem_of_nil in Hp|].
    destruct (Hq2 id Hid) as [Hp|(doc2 & Hd2 & ->)];
      [rewrite He2 in Hp; by apply elem_of_nil in Hp|].
    unfold current_document in *. congruence.
  - by rewrite Hout1, Hout2.
Qed.

Lemma full_resync_result_is_independent_of_batch_size_witness :
  ∃ w1 w2,
    0 < 2
    ∧ 0 < 500
    ∧ syncTenantMembers (H := no_text_runtime) 5 "T" true 2 resync_world
      = (Returned 3, w1)
    ∧ syncTenantMembers (H := no_text_runtime) 5 "T" true 500 resync_world
      = (Returned 3, w2)
    ∧ os_members w1 = os_members w2
    ∧ pending_of w1 "T" = []
    ∧ pending_of w2 "T" = [].
Proof.
  eexists _, _. split; [lia|]. split; [lia|].
  split; [vm_compute; reflexivity|]. split; [vm_compute; reflexivity|].
  apply (full_resync_result_is_independent_of_batch_size
           (H := no_text_runtime) 5 5 "T" true 2 500 resync_world 3 3);
    [lia|lia|vm_compute; reflexivity|vm_compute; reflexivity].
Defined.
